(** * Game Night Hub: the round / timer state model of [script.js]

    A shallow embedding of the page's script: the table of rounds, the
    [timers] object, the [nextRowId] counter, the [localStorage] slot and
    the handful of view elements the handlers write to.  Every handler of
    the script is a function on [State]; the two handlers that sit in a
    [try]/[catch] are written in a small completion monad so that what the
    [catch] absorbs stays visible.

    Conventions of the embedding.
    - JavaScript numbers are modelled by [Z]: every number the handlers
      compute on is an integer (ids, seconds, counts) and is assumed to
      stay in the range where doubles are exact.
    - A [<tr class="game-row">] is a [Row].  It carries what the handlers
      read back from it or write to it: the [data-row-id], the two timer
      inputs, the checkbox, the row classes and the timer display.  The
      text cells (game name, icon, prompt, resource markup) travel through
      the browser's HTML parser as markup and are read by no statement
      below; they are left out of [Row] and of the snapshot records.
    - The text of the snapshot slot is represented by what [JSON.parse]
      makes of it ([StoredText]). *)

From Stdlib Require Import ZArith List Bool Lia Sorted Permutation Ascii.
From stdpp Require Import gmap strings.

Open Scope Z_scope.

(** ** Constants of the script *)

Definition STORAGE_SCHEMA_VERSION : Z := 1.

Definition STORAGE_KEY : string := "gameNightRounds".

Definition initialNextRowId : Z := 6.

(** ** Rows of the table *)

(** [textContent] of a [.timer-display]: a clock [MM:SS] written by
    [updateTimerDisplay] (and the initial / reset ["00:00"]), ["Set time!"]
    or ["TIME!"]. *)
Inductive DisplayText :=
| Clock (mins secs : Z)
| SetTime
| TimeUp.

(** The [.timer-display] element: its text and the four classes the
    script toggles on it. *)
Record Display := mkDisplay {
  text : DisplayText;
  running : bool;
  warning : bool;
  danger : bool;
  finished : bool
}.

(** One [<tr class="game-row">].  [timer_min] and [timer_sec] hold what
    [parseInt] reads from the two number inputs, [None] standing for [NaN]
    (an empty field). *)
Record Row := mkRow {
  rowId : Z;
  timer_min : option Z;
  timer_sec : option Z;
  checked : bool;
  completed : bool;
  active : bool;
  timer_finished : bool;
  display : Display
}.

Definition freshDisplay : Display := mkDisplay (Clock 0 0) false false false false.

(** [parseInt(x) || 0] *)
Definition orZero (x : option Z) : Z :=
  match x with
  | Some n => n
  | None => 0
  end.

Definition with_display (f : Display -> Display) (r : Row) : Row :=
  mkRow (rowId r) (timer_min r) (timer_sec r) (checked r) (completed r)
        (active r) (timer_finished r) (f (display r)).

Definition with_active (b : bool) (r : Row) : Row :=
  mkRow (rowId r) (timer_min r) (timer_sec r) (checked r) (completed r)
        b (timer_finished r) (display r).

Definition with_timer_finished (b : bool) (r : Row) : Row :=
  mkRow (rowId r) (timer_min r) (timer_sec r) (checked r) (completed r)
        (active r) b (display r).

Definition with_completed (b : bool) (r : Row) : Row :=
  mkRow (rowId r) (timer_min r) (timer_sec r) (checked r) b
        (active r) (timer_finished r) (display r).

Definition with_checked (b : bool) (r : Row) : Row :=
  mkRow (rowId r) (timer_min r) (timer_sec r) b (completed r)
        (active r) (timer_finished r) (display r).

Definition with_inputs (m s : option Z) (r : Row) : Row :=
  mkRow (rowId r) m s (checked r) (completed r)
        (active r) (timer_finished r) (display r).

Definition set_text (t : DisplayText) (d : Display) : Display :=
  mkDisplay t (running d) (warning d) (danger d) (finished d).

(** [document.querySelector(`tr[data-row-id="${rowId}"]`)]: the first row
    in document order carrying the id. *)
Fixpoint findRow (i : Z) (rs : list Row) : option Row :=
  match rs with
  | [] => None
  | r :: rs' => if rowId r =? i then Some r else findRow i rs'
  end.

(** A write through the element [querySelector] returned. *)
Fixpoint updateRow (i : Z) (f : Row -> Row) (rs : list Row) : list Row :=
  match rs with
  | [] => []
  | r :: rs' => if rowId r =? i then f r :: rs' else r :: updateRow i f rs'
  end.

(** [row.remove()] on the element [querySelector] returned. *)
Fixpoint removeRow (i : Z) (rs : list Row) : list Row :=
  match rs with
  | [] => []
  | r :: rs' => if rowId r =? i then rs' else r :: removeRow i rs'
  end.

(** ** The [timers] object *)

Record Timer := mkTimer {
  intervalId : option positive;
  remainingSeconds : Z;
  isRunning : bool
}.

(** The object's own properties in creation order, one entry per key. *)
Fixpoint getTimer (i : Z) (ts : list (Z * Timer)) : option Timer :=
  match ts with
  | [] => None
  | (k, t) :: ts' => if k =? i then Some t else getTimer i ts'
  end.

(** [timers[i] = t]: an existing property keeps its place, a new one is
    created last. *)
Fixpoint setTimer (i : Z) (t : Timer) (ts : list (Z * Timer)) : list (Z * Timer) :=
  match ts with
  | [] => [(i, t)]
  | (k, t') :: ts' => if k =? i then (k, t) :: ts' else (k, t') :: setTimer i t ts'
  end.

(** [delete timers[i]]: the object has no property [i] afterwards. *)
Definition deleteTimer (i : Z) (ts : list (Z * Timer)) : list (Z * Timer) :=
  List.filter (fun e => negb (fst e =? i)) ts.

(** A property key that is an array index: the canonical decimal of an
    integer in [0, 2^32 - 2]. *)
Definition isArrayIndex (k : Z) : bool := (0 <=? k) && (k <? 4294967295).

Fixpoint insertByKey (e : Z * Timer) (l : list (Z * Timer)) : list (Z * Timer) :=
  match l with
  | [] => [e]
  | x :: l' => if fst e <=? fst x then e :: l else x :: insertByKey e l'
  end.

Fixpoint sortByKey (l : list (Z * Timer)) : list (Z * Timer) :=
  match l with
  | [] => []
  | x :: l' => insertByKey x (sortByKey l')
  end.

(** [Object.entries(timers)]: own-property order, that is the array-index
    keys in ascending numeric order, then the other keys in creation
    order. *)
Definition Object_entries (ts : list (Z * Timer)) : list (Z * Timer) :=
  sortByKey (List.filter (fun e => isArrayIndex (fst e)) ts)
  ++ List.filter (fun e => negb (isArrayIndex (fst e))) ts.

(** ** The snapshot slot *)

(** One object of the saved array (the fields the model keeps). *)
Record SavedRound := mkSavedRound {
  r_id : Z;
  r_timerMin : Z;
  r_timerSec : Z;
  r_isCompleted : bool
}.

(** An element of a stored array: [null], on which [round.id] is a
    [TypeError], or a round object. *)
Inductive Entry :=
| NullEntry
| RoundEntry (r : SavedRound).

(** What [JSON.parse] returns: an array of entries, or any other value. *)
Inductive JsonValue :=
| NotArray
| ArrayOf (es : list Entry).

(** The text held by a storage slot, by what [JSON.parse] makes of it: the
    empty string, a text it rejects with a [SyntaxError], or the text of a
    value. *)
Inductive StoredText :=
| EmptyText
| BadText
| JsonText (v : JsonValue).

(** ** View elements outside the table *)

Inductive GlobalText :=
| NoActiveTimer
| ActiveTimer (row : Z) (mins secs : Z).

(** [#activeTimerDisplay]: its text, where the game name is represented by
    the row it is read from, and its [style.color]. *)
Record GlobalDisplay := mkGlobal {
  g_text : GlobalText;
  g_color : string
}.

Inductive ProgressText :=
| Completed (n total : Z)
| AllCompleted (total : Z).

(** ** The page *)

Record State := mkState {
  rows : list Row;
  timers : list (Z * Timer);
  nextRowId : Z;
  localStorage : gmap string StoredText;
  storageWritable : bool;
  intervals : list (positive * Z);
  nextIntervalId : positive;
  globalDisplay : GlobalDisplay;
  progressText : ProgressText;
  celebrations : nat;
  scrolled : list Z
}.

Definition set_rows (x : list Row) (s : State) : State :=
  mkState x (timers s) (nextRowId s) (localStorage s) (storageWritable s)
          (intervals s) (nextIntervalId s) (globalDisplay s) (progressText s)
          (celebrations s) (scrolled s).

Definition set_timers (x : list (Z * Timer)) (s : State) : State :=
  mkState (rows s) x (nextRowId s) (localStorage s) (storageWritable s)
          (intervals s) (nextIntervalId s) (globalDisplay s) (progressText s)
          (celebrations s) (scrolled s).

Definition set_nextRowId (x : Z) (s : State) : State :=
  mkState (rows s) (timers s) x (localStorage s) (storageWritable s)
          (intervals s) (nextIntervalId s) (globalDisplay s) (progressText s)
          (celebrations s) (scrolled s).

Definition set_localStorage (x : gmap string StoredText) (s : State) : State :=
  mkState (rows s) (timers s) (nextRowId s) x (storageWritable s)
          (intervals s) (nextIntervalId s) (globalDisplay s) (progressText s)
          (celebrations s) (scrolled s).

Definition set_intervals (x : list (positive * Z)) (n : positive) (s : State) : State :=
  mkState (rows s) (timers s) (nextRowId s) (localStorage s) (storageWritable s)
          x n (globalDisplay s) (progressText s)
          (celebrations s) (scrolled s).

Definition set_globalDisplay (x : GlobalDisplay) (s : State) : State :=
  mkState (rows s) (timers s) (nextRowId s) (localStorage s) (storageWritable s)
          (intervals s) (nextIntervalId s) x (progressText s)
          (celebrations s) (scrolled s).

Definition set_progressText (x : ProgressText) (s : State) : State :=
  mkState (rows s) (timers s) (nextRowId s) (localStorage s) (storageWritable s)
          (intervals s) (nextIntervalId s) (globalDisplay s) x
          (celebrations s) (scrolled s).

Definition set_celebrations (x : nat) (s : State) : State :=
  mkState (rows s) (timers s) (nextRowId s) (localStorage s) (storageWritable s)
          (intervals s) (nextIntervalId s) (globalDisplay s) (progressText s)
          x (scrolled s).

Definition set_scrolled (x : list Z) (s : State) : State :=
  mkState (rows s) (timers s) (nextRowId s) (localStorage s) (storageWritable s)
          (intervals s) (nextIntervalId s) (globalDisplay s) (progressText s)
          (celebrations s) x.

(** ** Global timer aggregator *)

(** The [{id, seconds}] objects of [runningTimers]. *)
Record RunningTimer := mkRunning {
  t_id : Z;
  seconds : Z
}.

Definition runningTimers (ts : list (Z * Timer)) : list RunningTimer :=
  List.map (fun e => mkRunning (fst e) (remainingSeconds (snd e)))
    (List.filter (fun e => isRunning (snd e) && (0 <? remainingSeconds (snd e)))
       (Object_entries ts)).

(** [reduce((min, t) => t.seconds < min.seconds ? t : min)] without an
    initial value: the first element seeds the accumulator. *)
Definition reduceMin (first : RunningTimer) (rest : list RunningTimer) : RunningTimer :=
  fold_left (fun min t => if seconds t <? seconds min then t else min) rest first.

Definition urgencyColor (secs : Z) : string :=
  if secs <=? 10 then "#f85149"
  else if secs <=? 30 then "#d29922"
  else "#58a6ff".

Definition updateGlobalTimerDisplay (st : State) : State :=
  match runningTimers (timers st) with
  | [] => set_globalDisplay (mkGlobal NoActiveTimer "#58a6ff") st
  | first :: rest =>
      let urgent := reduceMin first rest in
      match findRow (t_id urgent) (rows st) with
      | None => st
      | Some _ =>
          set_globalDisplay
            (mkGlobal (ActiveTimer (t_id urgent) (seconds urgent / 60)
                                   (Z.rem (seconds urgent) 60))
                      (urgencyColor (seconds urgent)))
            st
      end
  end.

(** ** Timer engine *)

(** The class changes on a row and its display when its timer starts,
    pauses, is reset or finishes. *)
Definition rowStarted (r : Row) : Row :=
  with_timer_finished false (with_active true
    (with_display (fun d => mkDisplay (text d) true (warning d) (danger d) false) r)).

Definition rowPaused (r : Row) : Row :=
  with_active false
    (with_display (fun d => mkDisplay (text d) false (warning d) (danger d) (finished d)) r).

Definition rowReset (r : Row) : Row :=
  with_timer_finished false (with_active false (with_display (fun _ => freshDisplay) r)).

Definition rowFinished (r : Row) : Row :=
  with_timer_finished true (with_active false
    (with_display (fun _ => mkDisplay TimeUp false false false true) r)).

(** [display.textContent = MM:SS] *)
Definition showClock (secs : Z) (r : Row) : Row :=
  with_display (set_text (Clock (secs / 60) (Z.rem secs 60))) r.

Definition getTimerSeconds (row : Row) : Z :=
  orZero (timer_min row) * 60 + orZero (timer_sec row).

(** [clearInterval(h)] *)
Definition clearInterval (h : positive) (st : State) : State :=
  set_intervals (List.filter (fun e => negb (Pos.eqb (fst e) h)) (intervals st))
                (nextIntervalId st) st.

(** A write to a field of the existing object [timers[rowId]]. *)
Definition modTimer (i : Z) (f : Timer -> Timer) (st : State) : State :=
  match getTimer i (timers st) with
  | Some t => set_timers (setTimer i (f t) (timers st)) st
  | None => st
  end.

Definition modRow (i : Z) (f : Row -> Row) (st : State) : State :=
  set_rows (updateRow i f (rows st)) st.

Definition updateTimerDisplay (i : Z) (st : State) : State :=
  match findRow i (rows st), getTimer i (timers st) with
  | Some _, Some t =>
      modRow i (showClock (remainingSeconds t)) st
  | _, _ => st
  end.

Definition timerFinished (i : Z) (st : State) : State :=
  match findRow i (rows st), getTimer i (timers st) with
  | Some _, Some t =>
      let st1 := match intervalId t with
                 | Some h => clearInterval h st
                 | None => st
                 end in
      let st2 := modTimer i (fun _ => mkTimer None 0 false) st1 in
      let st3 := modRow i rowFinished st2 in
      updateGlobalTimerDisplay st3
  | _, _ => st
  end.

(** The classes the interval callback puts on the display after the
    decrement. *)
Definition tickClasses (secs : Z) (d : Display) : Display :=
  if (secs <=? 10) && (0 <? secs) then
    mkDisplay (text d) false false true (finished d)
  else if (secs <=? 30) && (10 <? secs) then
    mkDisplay (text d) false true false (finished d)
  else d.

(** The body of the callback [startTimer(rowId)] hands to [setInterval]. *)
Definition tick (i : Z) (st : State) : State :=
  match getTimer i (timers st) with
  | None => st
  | Some t =>
      let secs := remainingSeconds t - 1 in
      let st1 := modTimer i (fun t => mkTimer (intervalId t) secs (isRunning t)) st in
      let st2 := updateTimerDisplay i st1 in
      let st3 := modRow i (with_display (tickClasses secs)) st2 in
      let st4 := if secs <=? 0 then timerFinished i st3 else st3 in
      updateGlobalTimerDisplay st4
  end.

(** One second passes for the interval with handle [h], if the browser
    still has it. *)
Definition fire (h : positive) (st : State) : State :=
  match List.find (fun e => Pos.eqb (fst e) h) (intervals st) with
  | Some e => tick (snd e) st
  | None => st
  end.

Definition startTimer (i : Z) (st : State) : State :=
  match findRow i (rows st) with
  | None => st
  | Some row =>
      if match getTimer i (timers st) with
         | Some t => isRunning t
         | None => false
         end
      then st
      else
        let st1 :=
          if match getTimer i (timers st) with
             | Some t => remainingSeconds t =? 0
             | None => true
             end
          then set_timers (setTimer i (mkTimer None (getTimerSeconds row) false) (timers st)) st
          else st in
        if match getTimer i (timers st1) with
           | Some t => remainingSeconds t <=? 0
           | None => true
           end
        then modRow i (with_display (set_text SetTime)) st1
        else
          let st2 := modRow i rowStarted st1 in
          let st3 := modTimer i (fun t => mkTimer (intervalId t) (remainingSeconds t) true) st2 in
          let st4 := updateTimerDisplay i st3 in
          let st5 := updateGlobalTimerDisplay st4 in
          let h := nextIntervalId st5 in
          let st6 := set_intervals ((h, i) :: intervals st5) (Pos.succ h) st5 in
          modTimer i (fun t => mkTimer (Some h) (remainingSeconds t) (isRunning t)) st6
  end.

Definition pauseTimer (i : Z) (st : State) : State :=
  match getTimer i (timers st), findRow i (rows st) with
  | Some t, Some _ =>
      let st1 := match intervalId t with
                 | Some h =>
                     modTimer i (fun t => mkTimer None (remainingSeconds t) (isRunning t))
                       (clearInterval h st)
                 | None => st
                 end in
      let st2 := modTimer i (fun t => mkTimer (intervalId t) (remainingSeconds t) false) st1 in
      let st3 := modRow i rowPaused st2 in
      updateGlobalTimerDisplay st3
  | _, _ => st
  end.

Definition resetTimer (i : Z) (st : State) : State :=
  match findRow i (rows st) with
  | None => st
  | Some _ =>
      let st1 := match getTimer i (timers st) with
                 | Some t => match intervalId t with
                             | Some h => clearInterval h st
                             | None => st
                             end
                 | None => st
                 end in
      let st2 := set_timers (setTimer i (mkTimer None 0 false) (timers st1)) st1 in
      let st3 := modRow i rowReset st2 in
      updateGlobalTimerDisplay st3
  end.

(** ** Completions: handlers that may throw *)

(** A statement either completes normally with a value or throws; either
    way the writes it made to the page stay. *)
Inductive Completion (A : Type) :=
| Normal (a : A) (st : State)
| Thrown (st : State).

Arguments Normal {A} a st.
Arguments Thrown {A} st.

Definition JS (A : Type) : Type := State -> Completion A.

Definition ret {A} (a : A) : JS A := fun st => Normal a st.

Definition throw {A} : JS A := fun st => Thrown st.

Definition bind {A B} (c : JS A) (k : A -> JS B) : JS B :=
  fun st =>
    match c st with
    | Normal a st' => k a st'
    | Thrown st' => Thrown st'
    end.

(** [try { body } catch (e) { handler }] *)
Definition try_catch {A} (body handler : JS A) : JS A :=
  fun st =>
    match body st with
    | Normal a st' => Normal a st'
    | Thrown st' => handler st'
    end.

(** A statement that cannot throw. *)
Definition lift (f : State -> State) : JS unit := fun st => Normal tt (f st).

(** The page after a handler has run, returned or not. *)
Definition exec {A} (c : JS A) (st : State) : State :=
  match c st with
  | Normal _ st' => st'
  | Thrown st' => st'
  end.

Notation "x <- c1 ;; c2" := (bind c1 (fun x => c2))
  (at level 100, c1 at next level, right associativity).
Notation "c1 ;; c2" := (bind c1 (fun _ => c2))
  (at level 100, right associativity).

(** ** Persistence *)

(** [localStorage.setItem]: throws when the storage is full or disabled. *)
Definition setItem (k : string) (v : StoredText) : JS unit :=
  fun st =>
    if storageWritable st
    then Normal tt (set_localStorage (<[k := v]> (localStorage st)) st)
    else Thrown st.

Definition getItem (k : string) : JS (option StoredText) :=
  fun st => Normal (localStorage st !! k) st.

(** [JSON.parse] *)
Definition JSON_parse (t : StoredText) : JS JsonValue :=
  match t with
  | JsonText v => ret v
  | EmptyText | BadText => throw
  end.

(** The object [saveRoundsToStorage] pushes for one row. *)
Definition snapshotRow (row : Row) : SavedRound :=
  mkSavedRound (rowId row) (orZero (timer_min row)) (orZero (timer_sec row))
               (checked row).

(** [JSON.stringify(rounds)] *)
Definition JSON_stringify (rounds : list SavedRound) : StoredText :=
  JsonText (ArrayOf (List.map RoundEntry rounds)).

Definition saveRoundsToStorage : JS unit :=
  fun st =>
    let rounds := List.map snapshotRow (rows st) in
    try_catch (setItem STORAGE_KEY (JSON_stringify rounds)) (ret tt) st.

(** The row the template of [loadRoundsFromStorage] produces for a stored
    round. *)
Definition rowOfRound (round : SavedRound) : Row :=
  mkRow (r_id round) (Some (r_timerMin round)) (Some (r_timerSec round))
        (r_isCompleted round) (r_isCompleted round) false false freshDisplay.

(** [tableBody.insertAdjacentHTML('beforeend', rowHTML)] *)
Definition appendRow (r : Row) : State -> State :=
  fun st => set_rows (rows st ++ [r]) st.

(** The [forEach] of [loadRoundsFromStorage], threading [maxId]. *)
Fixpoint rebuildRows (es : list Entry) (maxId : Z) : JS Z :=
  match es with
  | [] => ret maxId
  | NullEntry :: _ => throw
  | RoundEntry round :: es' =>
      let maxId' := if maxId <? r_id round then r_id round else maxId in
      lift (appendRow (rowOfRound round)) ;;
      rebuildRows es' maxId'
  end.

Definition loadRoundsFromStorage : JS bool :=
  try_catch
    (stored <- getItem STORAGE_KEY ;;
     match stored with
     | None | Some EmptyText => ret false
     | Some t =>
         rounds <- JSON_parse t ;;
         match rounds with
         | NotArray | ArrayOf [] => ret false
         | ArrayOf es =>
             lift (set_rows []) ;;
             maxId <- rebuildRows es 0 ;;
             lift (set_nextRowId (maxId + 1)) ;;
             ret true
         end
     end)
    (ret false).

(** [clearSavedRounds], given the answer to its [confirm]. *)
Definition clearSavedRounds (confirmed : bool) (st : State) : State :=
  if confirmed
  then set_localStorage (delete STORAGE_KEY (localStorage st)) st
  else st.

(** ** Progress *)

Definition celebrateCompletion (st : State) : State :=
  set_celebrations (S (celebrations st)) st.

(** The width of the progress bar, a float, is not kept. *)
Definition updateProgress (st : State) : State :=
  let checkedCount := Z.of_nat (length (List.filter checked (rows st))) in
  let totalCount := Z.of_nat (length (rows st)) in
  let st1 := set_progressText (Completed checkedCount totalCount) st in
  if (checkedCount =? totalCount) && (0 <? totalCount)
  then celebrateCompletion (set_progressText (AllCompleted totalCount) st1)
  else st1.

(** ** Checkboxes *)

(** The row [scrollToNextUnchecked] scrolls to, if any. *)
Fixpoint nextUnchecked (currentRowId : Z) (foundCurrent : bool) (rs : list Row)
  : option Row :=
  match rs with
  | [] => None
  | row :: rs' =>
      if rowId row =? currentRowId then nextUnchecked currentRowId true rs'
      else if foundCurrent && negb (checked row) then Some row
      else nextUnchecked currentRowId foundCurrent rs'
  end.

Definition scrollIntoView (r : Row) (st : State) : State :=
  set_scrolled (scrolled st ++ [rowId r]) st.

Definition scrollToNextUnchecked (currentRowId : Z) (st : State) : State :=
  match nextUnchecked currentRowId false (rows st) with
  | Some row => scrollIntoView row st
  | None => st
  end.

(** [toggleDone(rowId, checkbox)]; of the checkbox only [checkbox.checked]
    is read. *)
Definition toggleDone (i : Z) (checkbox_checked : bool) : JS unit :=
  fun st =>
    match findRow i (rows st) with
    | None => Normal tt st
    | Some _ =>
        ((if checkbox_checked
          then lift (modRow i (with_completed true)) ;;
               lift (pauseTimer i) ;;
               lift (scrollToNextUnchecked i)
          else lift (modRow i (with_completed false))) ;;
         lift updateProgress ;;
         saveRoundsToStorage) st
    end.

(** The user clicks the checkbox of row [i]: the browser flips it, then
    runs its [onchange]. *)
Definition clickDone (i : Z) : JS unit :=
  fun st =>
    match findRow i (rows st) with
    | None => Normal tt st
    | Some row =>
        toggleDone i (negb (checked row))
          (modRow i (with_checked (negb (checked row))) st)
    end.

(** ** Adding, deleting and moving rounds *)

(** The fields of the add-round form that reach the model: the game name
    and the prompt after [trim()], and what [parseInt] reads from the two
    timer fields. *)
Record Form := mkForm {
  newGameName : string;
  newPrompt : string;
  newTimerMin : option Z;
  newTimerSec : option Z
}.

Definition addNewRound (form : Form) : JS unit :=
  fun st =>
    let timerMin := orZero (newTimerMin form) in
    let timerSec := orZero (newTimerSec form) in
    if String.eqb (newGameName form) "" then Normal tt st
    else if String.eqb (newPrompt form) "" then Normal tt st
    else
      let i := nextRowId st in
      let newRow := mkRow i (Some timerMin) (Some timerSec)
                          false false false false freshDisplay in
      (lift (set_nextRowId (i + 1)) ;;
       lift (appendRow newRow) ;;
       lift updateProgress ;;
       saveRoundsToStorage ;;
       lift (fun st' => match findRow i (rows st') with
                        | Some r => scrollIntoView r st'
                        | None => st'
                        end)) st.

(** [deleteRow], given the answer to its [confirm]. *)
Definition deleteRow (confirmed : bool) (i : Z) : JS unit :=
  fun st =>
    if negb confirmed then Normal tt st
    else
      let st1 := match getTimer i (timers st) with
                 | Some t =>
                     set_timers (deleteTimer i (timers st))
                       match intervalId t with
                       | Some h => clearInterval h st
                       | None => st
                       end
                 | None => st
                 end in
      (lift (set_rows (removeRow i (rows st1))) ;;
       lift updateProgress ;;
       lift updateGlobalTimerDisplay ;;
       saveRoundsToStorage) st1.

(** The rows with the first row of id [i] moved before its previous
    sibling. *)
Fixpoint insertBeforePrevious (i : Z) (rs : list Row) : list Row :=
  match rs with
  | [] => []
  | a :: tl =>
      if rowId a =? i then rs
      else match tl with
           | b :: rest =>
               if rowId b =? i then b :: a :: rest
               else a :: insertBeforePrevious i tl
           | [] => rs
           end
  end.

(** The rows with the next sibling of the first row of id [i] moved before
    it. *)
Fixpoint insertNextBefore (i : Z) (rs : list Row) : list Row :=
  match rs with
  | [] => []
  | a :: tl =>
      if rowId a =? i
      then match tl with
           | b :: rest => b :: a :: rest
           | [] => rs
           end
      else a :: insertNextBefore i tl
  end.

(** [row.previousElementSibling] is [null]: the row is the first one. *)
Definition noPreviousSibling (i : Z) (rs : list Row) : bool :=
  match rs with
  | a :: _ => rowId a =? i
  | [] => true
  end.

(** [row.nextElementSibling] is [null]: the first row of id [i] is the
    last row. *)
Fixpoint noNextSibling (i : Z) (rs : list Row) : bool :=
  match rs with
  | [] => true
  | a :: tl =>
      if rowId a =? i
      then match tl with [] => true | _ :: _ => false end
      else noNextSibling i tl
  end.

Definition moveRowUp (i : Z) : JS unit :=
  fun st =>
    match findRow i (rows st) with
    | None => Normal tt st
    | Some _ =>
        if noPreviousSibling i (rows st) then Normal tt st
        else (lift (set_rows (insertBeforePrevious i (rows st))) ;;
              saveRoundsToStorage) st
    end.

Definition moveRowDown (i : Z) : JS unit :=
  fun st =>
    match findRow i (rows st) with
    | None => Normal tt st
    | Some _ =>
        if noNextSibling i (rows st) then Normal tt st
        else (lift (set_rows (insertNextBefore i (rows st))) ;;
              saveRoundsToStorage) st
    end.

(** [resetAllRounds], given the answer to its [confirm].  The loop resets
    the timer of each row's id and unchecks that row; the two writes touch
    different fields, so the unchecking is done in one pass after the
    resets. *)
Definition resetAllRounds (confirmed : bool) : JS unit :=
  fun st =>
    if negb confirmed then Normal tt st
    else
      let st1 := fold_left (fun s row => resetTimer (rowId row) s) (rows st) st in
      (lift (fun s => set_rows
                        (List.map (fun r => with_completed false (with_checked false r))
                                  (rows s)) s) ;;
       lift updateProgress ;;
       saveRoundsToStorage) st1.

(** ** Page load *)

(** The highest [data-row-id] of the rows in the document, [0] if none. *)
Definition maxRowId (rs : list Row) : Z :=
  fold_left (fun maxId row => if maxId <? rowId row then rowId row else maxId) rs 0.

Definition DOMContentLoaded : JS unit :=
  loadedFromStorage <- loadRoundsFromStorage ;;
  (if negb loadedFromStorage
   then lift (fun st => set_nextRowId (maxRowId (rows st) + 1) st)
   else ret tt) ;;
  lift updateProgress.

(** The document as [index.html] delivers it, before any script has run.
    Modelled from the spec: [index.html] is not part of the sources; its
    built-in default rounds are the parameter [defaults], each laid out as
    the script's own row template lays a round out. *)
Definition freshPage (defaults : list SavedRound)
    (stored : gmap string StoredText) (writable : bool) : State :=
  mkState (List.map rowOfRound defaults) [] initialNextRowId stored writable
          [] 1%positive (mkGlobal NoActiveTimer "") (Completed 0 0) 0%nat [].

(** A page load: the fresh document, then the [DOMContentLoaded] handler. *)
Definition pageLoad (defaults : list SavedRound)
    (stored : gmap string StoredText) (writable : bool) : State :=
  exec DOMContentLoaded (freshPage defaults stored writable).

(** ** Sessions *)

(** What can happen to the page after it has loaded: a click on a button
    of a row, an interval firing, a direct call of [timerFinished], the
    form being submitted, a checkbox being clicked, a timer field being
    edited. *)
Inductive Op :=
| OpStart (i : Z)
| OpFire (h : positive)
| OpPause (i : Z)
| OpReset (i : Z)
| OpFinish (i : Z)
| OpDelete (confirmed : bool) (i : Z)
| OpAdd (form : Form)
| OpClickDone (i : Z)
| OpMoveUp (i : Z)
| OpMoveDown (i : Z)
| OpResetAll (confirmed : bool)
| OpClearSaved (confirmed : bool)
| OpEdit (i : Z) (m s : option Z).

Definition step (o : Op) (st : State) : State :=
  match o with
  | OpStart i => startTimer i st
  | OpFire h => fire h st
  | OpPause i => pauseTimer i st
  | OpReset i => resetTimer i st
  | OpFinish i => timerFinished i st
  | OpDelete c i => exec (deleteRow c i) st
  | OpAdd form => exec (addNewRound form) st
  | OpClickDone i => exec (clickDone i) st
  | OpMoveUp i => exec (moveRowUp i) st
  | OpMoveDown i => exec (moveRowDown i) st
  | OpResetAll c => exec (resetAllRounds c) st
  | OpClearSaved c => clearSavedRounds c st
  | OpEdit i m s => modRow i (with_inputs m s) st
  end.

Definition run (ops : list Op) (st : State) : State :=
  fold_left (fun s o => step o s) ops st.



(** ** A demo page *)

Definition demoDefaults : list SavedRound :=
  [ mkSavedRound 1 1 30 false;
    mkSavedRound 2 0 15 false;
    mkSavedRound 3 0 15 false;
    mkSavedRound 4 2 0 false;
    mkSavedRound 5 0 45 false ].

Definition demoPage : State := pageLoad demoDefaults ∅ true.

(** [maxId] after the [forEach] of [loadRoundsFromStorage] has run over
    round objects, from its value before. *)
Definition maxIdFrom (rounds : list SavedRound) (maxId : Z) : Z :=
  fold_left (fun m r => if m <? r_id r then r_id r else m) rounds maxId.

(** ** Notions used in the proofs *)

(** The page once [deleteRow] has stopped and removed the timer of row
    [i]. *)
Definition timerDropped (i : Z) (st : State) : State :=
  match getTimer i (timers st) with
  | Some t =>
      set_timers (deleteTimer i (timers st))
        match intervalId t with
        | Some h => clearInterval h st
        | None => st
        end
  | None => st
  end.

(** The part of a row the timer engine never writes. *)
Definition rowCore (r : Row) : Z * option Z * option Z * bool * bool :=
  (rowId r, timer_min r, timer_sec r, checked r, completed r).

(** [st'] differs from [st] at most in the timers, the intervals, the
    aggregator and the timer displays and classes of the rows. *)
Definition timerFrame (st st' : State) : Prop :=
  List.map rowCore (rows st') = List.map rowCore (rows st)
  /\ nextRowId st' = nextRowId st
  /\ localStorage st' = localStorage st
  /\ storageWritable st' = storageWritable st
  /\ progressText st' = progressText st
  /\ celebrations st' = celebrations st
  /\ scrolled st' = scrolled st.

(** A decidable form of [timersHaveRows]. *)
Definition timersHaveRowsb (st : State) : bool :=
  forallb (fun e => match findRow (fst e) (rows st) with
                    | Some _ => true
                    | None => false
                    end) (timers st).

(** The own-property order on keys: an array index comes before every key
    that is not one, and array indices come in ascending order. *)
Definition keyBefore (a b : Z) : Prop :=
  isArrayIndex b = true -> isArrayIndex a = true /\ a <= b.

(** The timer of a row after the initialisation step of [startTimer]. *)
Definition timerAtStart (row : Row) (o : option Timer) : Timer :=
  match o with
  | Some t =>
      if remainingSeconds t =? 0
      then mkTimer None (getTimerSeconds row) false
      else t
  | None => mkTimer None (getTimerSeconds row) false
  end.

(** The intervals left after [clearInterval] on a recorded handle. *)
Definition clearedIntervals (o : option positive) (iv : list (positive * Z))
  : list (positive * Z) :=
  match o with
  | Some h => List.filter (fun e => negb (Pos.eqb (fst e) h)) iv
  | None => iv
  end.

(** A page with the rows, the timers and the intervals replaced. *)
Definition engineState (rs : list Row) (ts : list (Z * Timer))
    (iv : list (positive * Z)) (n : positive) (st : State) : State :=
  set_rows rs (set_timers ts (set_intervals iv n st)).

(** The row of a timer that has just ticked down to [secs] seconds. *)
Definition rowTicked (secs : Z) (r : Row) : Row :=
  with_display (tickClasses secs) (showClock secs r).

(** Row [i] is counting down: its timer is running with [r] seconds left
    under the interval [h], which the browser still has, and the row is in
    the table. *)
Definition countingDown (i : Z) (h : positive) (r : Z) (st : State) : Prop :=
  getTimer i (timers st) = Some (mkTimer (Some h) r true)
  /\ List.find (fun e => Pos.eqb (fst e) h) (intervals st) = Some (h, i)
  /\ exists row, findRow i (rows st) = Some row.

(** Every timer object satisfies [P]. *)
Definition timersAll (P : Timer -> Prop) (ts : list (Z * Timer)) : Prop :=
  forall k t, getTimer k ts = Some t -> P t.

(** The two conditions of the timer invariant on one timer object. *)
Definition timerSound (t : Timer) : Prop :=
  0 <= remainingSeconds t /\ (remainingSeconds t = 0 -> isRunning t = false).

(** The weaker condition that needs no assumption on the timer fields. *)
Definition stoppedAtZero (t : Timer) : Prop :=
  remainingSeconds t = 0 -> isRunning t = false.

(** No row is configured for a negative duration. *)
Definition inputsNonNegative (rs : list Row) : Prop :=
  Forall (fun r => 0 <= getTimerSeconds r) rs.

(** ** Statements under test *)

(** The configured minutes and seconds of a row, as [saveRoundsToStorage]
    and [getTimerSeconds] read them. *)
Definition configured (r : Row) : Z * Z :=
  (orZero (timer_min r), orZero (timer_sec r)).

(** The page a reload shows after the rounds of [st] have been saved. *)
Definition savedThenReloaded (defaults : list SavedRound) (st : State) : State :=
  pageLoad defaults (localStorage (exec saveRoundsToStorage st)) (storageWritable st).

(** The round trip as the specification words it: same length and order,
    same ids, same completed flags, same timer inputs, and a next-id
    counter one above the highest saved id. *)
Definition roundTrip (defaults : list SavedRound) (st : State) : Prop :=
  let st' := savedThenReloaded defaults st in
  List.map rowId (rows st') = List.map rowId (rows st)
  /\ List.map checked (rows st') = List.map checked (rows st)
  /\ List.map configured (rows st') = List.map configured (rows st)
  /\ (forall r, In r (rows st) -> rowId r < nextRowId st')
  /\ (exists r, In r (rows st) /\ nextRowId st' = rowId r + 1).

(** No timer object for the row, or one at zero that is not running. *)
Definition timerIdle (i : Z) (st : State) : Prop :=
  match getTimer i (timers st) with
  | None => True
  | Some t => remainingSeconds t = 0 /\ isRunning t = false
  end.

(** An operation that leaves no negative duration in a row's timer
    fields. *)
Definition configuresNonNegative (o : Op) : bool :=
  match o with
  | OpEdit _ m s => 0 <=? orZero m * 60 + orZero s
  | OpAdd form => 0 <=? orZero (newTimerMin form) * 60 + orZero (newTimerSec form)
  | _ => true
  end.

(** Every timer object belongs to a row of the table. *)
Definition timersHaveRows (st : State) : Prop :=
  forall k t, getTimer k (timers st) = Some t -> findRow k (rows st) <> None.

(** The timer the specification's aggregator reports: the rows are scanned
    in display order, those whose timer is running with time left are
    kept, and a later row replaces the choice only when it has strictly
    fewer seconds. *)
Fixpoint urgentInRoundOrder (rs : list Row) (ts : list (Z * Timer))
    (best : option RunningTimer) : option RunningTimer :=
  match rs with
  | [] => best
  | r :: rs' =>
      let best' :=
        match getTimer (rowId r) ts with
        | Some t =>
            if isRunning t && (0 <? remainingSeconds t)
            then match best with
                 | Some b => if remainingSeconds t <? seconds b
                             then Some (mkRunning (rowId r) (remainingSeconds t))
                             else best
                 | None => Some (mkRunning (rowId r) (remainingSeconds t))
                 end
            else best
        | None => best
        end in
      urgentInRoundOrder rs' ts best'
  end.

(** The aggregator text the specification asks for. *)
Definition globalTextInRoundOrder (st : State) : GlobalText :=
  match urgentInRoundOrder (rows st) (timers st) None with
  | None => NoActiveTimer
  | Some u => ActiveTimer (t_id u) (seconds u / 60) (Z.rem (seconds u) 60)
  end.

(** All rounds are completed, and there is at least one. *)
Definition allCompleted (rs : list Row) : bool :=
  (Z.of_nat (length (List.filter checked rs)) =? Z.of_nat (length rs))
  && (0 <? Z.of_nat (length rs)).

Definition fullyComplete (st : State) : bool := allCompleted (rows st).

(** The one-shot reading of the celebration: an operation triggers it only
    when it takes the page from not fully complete to fully complete, and
    then once. *)
Definition celebratesOnlyOnTransition (o : Op) (st : State) : Prop :=
  celebrations (step o st) <> celebrations st ->
  fullyComplete st = false
  /\ fullyComplete (step o st) = true
  /\ celebrations (step o st) = S (celebrations st).

(** The operations that recompute the progress. *)
Definition recomputesProgress (o : Op) (st : State) : bool :=
  match o with
  | OpDelete c _ => c
  | OpResetAll c => c
  | OpAdd form => negb (String.eqb (newGameName form) "")
                  && negb (String.eqb (newPrompt form) "")
  | OpClickDone i => match findRow i (rows st) with Some _ => true | None => false end
  | _ => false
  end.

(** The urgency tiers of the specification. *)
Inductive Tier := Normal_tier | Warning_tier | Danger_tier | Expired_tier.

(** The tier of a number of remaining seconds, in the specification's
    words: normal above 30, warning from 11 to 30, danger from 1 to 10,
    expired at 0. *)
Definition tierOf (secs : Z) : Tier :=
  if 30 <? secs then Normal_tier
  else if 11 <=? secs then Warning_tier
  else if 1 <=? secs then Danger_tier
  else Expired_tier.

(** The tier a timer display shows through its classes; none when the
    classes are mixed. *)
Definition displayTier (d : Display) : option Tier :=
  match warning d, danger d, finished d with
  | false, false, false => Some Normal_tier
  | true, false, false => Some Warning_tier
  | false, true, false => Some Danger_tier
  | false, false, true => Some Expired_tier
  | _, _, _ => None
  end.

(** A form that passes the validation of [addNewRound]. *)
Definition validForm (form : Form) : Prop :=
  newGameName form <> "" /\ newPrompt form <> "".

(** The stored values on which [loadRoundsFromStorage] reports "no data"
    before touching the table: no item, an empty text, a value that is not
    an array, an empty array. *)
Definition noSnapshot (stored : option StoredText) : bool :=
  match stored with
  | None | Some EmptyText | Some (JsonText NotArray) | Some (JsonText (ArrayOf [])) => true
  | _ => false
  end.

(** A page with an empty table, as after every round has been deleted. *)
Definition emptiedPage : State :=
  run [OpDelete true 1; OpDelete true 2; OpDelete true 3;
       OpDelete true 4; OpDelete true 5] demoPage.

(** The demo page with rounds 2 and 3 swapped and both 15-second timers
    started. *)
Definition tiedPage : State :=
  run [OpMoveUp 3; OpStart 3; OpStart 2] demoPage.

(** The demo page with every round checked off. *)
Definition allDonePage : State :=
  run [OpClickDone 1; OpClickDone 2; OpClickDone 3;
       OpClickDone 4; OpClickDone 5] demoPage.

(** ** Invariants of a session *)

(** What the timer engine can write into [timers[i]]: the zeroed timer of
    a reset or an expiry; the paused copy of the timer that was there; that
    timer one second down, with time left; that timer itself; a running
    timer with time left; or, when the row is configured for no time, the
    initial timer [startTimer] leaves behind. *)
Definition timerWritten (i : Z) (x : Timer) (st : State) : Prop :=
  x = mkTimer None 0 false
  \/ (exists t, getTimer i (timers st) = Some t
                /\ (x = mkTimer None (remainingSeconds t) false
                    \/ (x = mkTimer (intervalId t) (remainingSeconds t - 1) (isRunning t)
                        /\ 0 < remainingSeconds t - 1)
                    \/ x = t))
  \/ (exists h r, x = mkTimer (Some h) r true /\ 0 < r)
  \/ (exists row, In row (rows st) /\ getTimerSeconds row <= 0
                  /\ x = mkTimer None (getTimerSeconds row) false).

(** An operation that keeps the row property [Q]: the values typed into
    the timer fields of a row, or into the form, give a row with [Q]. *)
Definition opKeeps (Q : Row -> Prop) (o : Op) : Prop :=
  match o with
  | OpEdit _ m s => forall r, Q (with_inputs m s r)
  | OpAdd form =>
      forall i, Q (mkRow i (Some (orZero (newTimerMin form)))
                         (Some (orZero (newTimerSec form)))
                         false false false false freshDisplay)
  | _ => True
  end.

(** The invariant of a session, for a property [P] of timers and a
    property [Q] of rows. *)
Definition sessionInv (P : Timer -> Prop) (Q : Row -> Prop) (st : State) : Prop :=
  timersHaveRows st /\ Forall Q (rows st) /\ timersAll P (timers st).

(** Every interval the browser holds belongs to a running timer that
    records its handle. *)
Definition intervalsRun (st : State) : Prop :=
  forall h j, In (h, j) (intervals st) ->
              exists r, getTimer j (timers st) = Some (mkTimer (Some h) r true).

(** The classes of a timer display agree with the timer: [warning] or
    [danger] only with 1 to 30 seconds left, [finished] only on a timer
    that is not running. *)
Definition classesOK (d : Display) (o : option Timer) : Prop :=
  (warning d = true \/ danger d = true ->
   exists t, o = Some t /\ 0 < remainingSeconds t <= 30)
  /\ (finished d = true -> forall t, o = Some t -> isRunning t = false).

Definition rowsClassesOK (st : State) : Prop :=
  forall row, In row (rows st) ->
              classesOK (display row) (getTimer (rowId row) (timers st)).

(** The invariant behind the urgency classes: distinct row ids below the
    counter, timers only for listed rows, intervals only for running
    timers, and displays that agree with their timers. *)
Definition displayInv (st : State) : Prop :=
  List.NoDup (List.map rowId (rows st))
  /\ (forall x, In x (List.map rowId (rows st)) -> x < nextRowId st)
  /\ timersHaveRows st
  /\ intervalsRun st
  /\ rowsClassesOK st.

(** ** Escaping *)

(** [s.replace(/c/g, by)] for a pattern of one character. *)
Fixpoint replaceAll (c : Ascii.ascii) (by_ : string) (s : string) : string :=
  match s with
  | EmptyString => EmptyString
  | String a s' =>
      if Ascii.eqb a c
      then String.append by_ (replaceAll c by_ s')
      else String a (replaceAll c by_ s')
  end.

Definition quot : Ascii.ascii := Ascii.ascii_of_nat 34.
Definition apos : Ascii.ascii := Ascii.ascii_of_nat 39.

(** [escapeHtml] on a string (on a string its first line, the guard for
    values that are neither truthy nor [''], is never taken): the five
    replacements, [&] first, in the order of the source. *)
Definition escapeHtml (str : string) : string :=
  replaceAll apos "&#39;"
    (replaceAll quot "&quot;"
       (replaceAll ">"%char "&gt;"
          (replaceAll "<"%char "&lt;"
             (replaceAll "&"%char "&amp;" str)))).

(** The entity [escapeHtml] writes for one character. *)
Definition escapeChar (a : Ascii.ascii) : string :=
  if Ascii.eqb a "&"%char then "&amp;"
  else if Ascii.eqb a "<"%char then "&lt;"
  else if Ascii.eqb a ">"%char then "&gt;"
  else if Ascii.eqb a quot then "&quot;"
  else if Ascii.eqb a apos then "&#39;"
  else String a EmptyString.

(** The characters of a string. *)
Fixpoint chars (s : string) : list Ascii.ascii :=
  match s with
  | EmptyString => []
  | String a s' => a :: chars s'
  end.

(** A character that opens or closes markup or an attribute value. *)
Definition markupChar (a : Ascii.ascii) : bool :=
  Ascii.eqb a "<"%char || Ascii.eqb a ">"%char || Ascii.eqb a quot || Ascii.eqb a apos.

(** * Results *)

(** ** Persistence *)

Lemma saveRoundsToStorage_returns st :
  saveRoundsToStorage st = Normal tt (exec saveRoundsToStorage st).
Proof.
  unfold exec, saveRoundsToStorage, try_catch, setItem, ret.
  destruct (storageWritable st); reflexivity.
Qed.

Lemma saveRoundsToStorage_writable st :
  storageWritable st = true ->
  exec saveRoundsToStorage st =
  set_localStorage
    (<[STORAGE_KEY := JSON_stringify (List.map snapshotRow (rows st))]> (localStorage st)) st.
Proof.
  intros Hw. unfold exec, saveRoundsToStorage, try_catch, setItem.
  rewrite Hw. reflexivity.
Qed.

Lemma saveRoundsToStorage_full st :
  storageWritable st = false -> exec saveRoundsToStorage st = st.
Proof.
  intros Hw. unfold exec, saveRoundsToStorage, try_catch, setItem, ret.
  rewrite Hw. reflexivity.
Qed.

Lemma maxIdFrom_ge rounds : forall m,
  m <= maxIdFrom rounds m /\ forall r, In r rounds -> r_id r <= maxIdFrom rounds m.
Proof.
  induction rounds as [|a rounds IH]; intros m; simpl.
  - split; [lia | contradiction].
  - destruct (IH (if m <? r_id a then r_id a else m)) as [Hm Hin].
    split.
    + destruct (Z.ltb_spec m (r_id a)); lia.
    + intros r [<- | Hr]; [| now apply Hin].
      destruct (Z.ltb_spec m (r_id a)); lia.
Qed.

Lemma maxIdFrom_attained rounds : forall m,
  maxIdFrom rounds m = m \/ exists r, In r rounds /\ maxIdFrom rounds m = r_id r.
Proof.
  induction rounds as [|a rounds IH]; intros m; simpl.
  - now left.
  - destruct (IH (if m <? r_id a then r_id a else m)) as [Heq | (r & Hr & Heq)].
    + destruct (Z.ltb_spec m (r_id a)).
      * right. exists a. split; [now left | exact Heq].
      * now left.
    + right. exists r. split; [now right | exact Heq].
Qed.

Lemma rebuildRows_rounds rounds : forall m st,
  rebuildRows (List.map RoundEntry rounds) m st =
  Normal (maxIdFrom rounds m) (set_rows (rows st ++ List.map rowOfRound rounds) st).
Proof.
  induction rounds as [|a rounds IH]; intros m st; simpl.
  - unfold ret. rewrite app_nil_r. destruct st; reflexivity.
  - unfold bind at 1. unfold lift at 1. rewrite IH.
    unfold appendRow, set_rows; simpl. rewrite <- app_assoc. reflexivity.
Qed.

(** Loading a stored non-empty array of round objects. *)
Lemma loadRoundsFromStorage_rounds st rounds :
  rounds <> [] ->
  localStorage st !! STORAGE_KEY = Some (JSON_stringify rounds) ->
  loadRoundsFromStorage st =
  Normal true
    (set_nextRowId (maxIdFrom rounds 0 + 1) (set_rows (List.map rowOfRound rounds) st)).
Proof.
  intros Hne Hls.
  unfold loadRoundsFromStorage, try_catch, bind, getItem.
  rewrite Hls. unfold JSON_stringify, JSON_parse, ret.
  destruct rounds as [|a rounds]; [contradiction|].
  change (List.map RoundEntry (a :: rounds)) with (RoundEntry a :: List.map RoundEntry rounds).
  cbv beta iota.
  change (RoundEntry a :: List.map RoundEntry rounds) with (List.map RoundEntry (a :: rounds)).
  unfold lift at 1. rewrite rebuildRows_rounds.
  unfold lift. reflexivity.
Qed.

Lemma loadRoundsFromStorage_noSnapshot st :
  noSnapshot (localStorage st !! STORAGE_KEY) = true ->
  loadRoundsFromStorage st = Normal false st.
Proof.
  intros H. unfold loadRoundsFromStorage, try_catch, bind, getItem.
  destruct (localStorage st !! STORAGE_KEY) as [[| |[|[|e es]]]|];
    simpl in H; try discriminate; reflexivity.
Qed.

Lemma loadRoundsFromStorage_total st :
  exists b st', loadRoundsFromStorage st = Normal b st'.
Proof.
  unfold loadRoundsFromStorage, try_catch.
  match goal with |- context [match ?c st with _ => _ end] => destruct (c st) as [b st'|st'] end.
  - now exists b, st'.
  - now exists false, st'.
Qed.

Lemma updateProgress_rows st : rows (updateProgress st) = rows st.
Proof. unfold updateProgress. now destruct (_ && _). Qed.

Lemma updateProgress_nextRowId st : nextRowId (updateProgress st) = nextRowId st.
Proof. unfold updateProgress. now destruct (_ && _). Qed.

Lemma pageLoad_rounds defaults stored writable rounds :
  rounds <> [] ->
  stored !! STORAGE_KEY = Some (JSON_stringify rounds) ->
  pageLoad defaults stored writable =
  updateProgress
    (set_nextRowId (maxIdFrom rounds 0 + 1)
       (set_rows (List.map rowOfRound rounds) (freshPage defaults stored writable))).
Proof.
  intros Hne Hls. unfold pageLoad, exec, DOMContentLoaded.
  unfold bind at 1.
  rewrite (loadRoundsFromStorage_rounds (freshPage defaults stored writable) rounds Hne Hls).
  reflexivity.
Qed.

Lemma pageLoad_noSnapshot defaults stored writable :
  noSnapshot (stored !! STORAGE_KEY) = true ->
  pageLoad defaults stored writable =
  updateProgress
    (set_nextRowId (maxRowId (List.map rowOfRound defaults) + 1)
       (freshPage defaults stored writable)).
Proof.
  intros H. unfold pageLoad, exec, DOMContentLoaded.
  unfold bind at 1. rewrite loadRoundsFromStorage_noSnapshot by exact H.
  reflexivity.
Qed.

(** C1, as the specification states it, fails on the empty sequence: once
    every round has been deleted the saved array is empty, the reload
    reports "no data" and the page shows its five default rounds again. *)
Lemma round_trip_fails_on_empty_store :
  List.map rowId (rows emptiedPage) = []
  /\ List.map rowId (rows (savedThenReloaded demoDefaults emptiedPage)) = [1; 2; 3; 4; 5]
  /\ ~ roundTrip demoDefaults emptiedPage.
Proof.
  split; [reflexivity |]. split; [reflexivity |].
  intros [Hids _]. vm_compute in Hids. discriminate Hids.
Qed.

(** C1 (amended): for a non-empty table whose ids are positive, when the
    write to the storage succeeds, saving and reloading gives back rows of
    the same number, in the same order, with the same ids, completed flags
    and configured minutes and seconds, and the next-id counter is one
    above the highest saved id. *)
Theorem save_load_round_trip defaults st :
  rows st <> [] ->
  storageWritable st = true ->
  Forall (fun r => 0 < rowId r) (rows st) ->
  roundTrip defaults st.
Proof.
  intros Hne Hw Hpos.
  unfold roundTrip, savedThenReloaded.
  rewrite saveRoundsToStorage_writable by exact Hw.
  cbn [localStorage set_localStorage].
  rewrite (pageLoad_rounds _ _ _ (List.map snapshotRow (rows st))).
  2: { destruct (rows st); [contradiction | discriminate]. }
  2: { apply lookup_insert_eq. }
  rewrite updateProgress_rows, updateProgress_nextRowId.
  cbn [rows nextRowId set_nextRowId set_rows].
  rewrite !List.map_map.
  split; [| split; [| split; [| split]]].
  - apply List.map_ext. reflexivity.
  - apply List.map_ext. reflexivity.
  - apply List.map_ext. reflexivity.
  - intros r Hr.
    destruct (maxIdFrom_ge (List.map snapshotRow (rows st)) 0) as [_ Hall].
    specialize (Hall (snapshotRow r) (List.in_map snapshotRow _ _ Hr)).
    change (r_id (snapshotRow r)) with (rowId r) in Hall. lia.
  - destruct (maxIdFrom_attained (List.map snapshotRow (rows st)) 0)
      as [H0 | (s & Hs & Heq)].
    + exfalso.
      destruct (rows st) as [|r rs] eqn:Hrows; [contradiction|].
      destruct (maxIdFrom_ge (List.map snapshotRow (r :: rs)) 0) as [_ Hall].
      specialize (Hall (snapshotRow r) (or_introl eq_refl)).
      apply Forall_inv in Hpos.
      change (r_id (snapshotRow r)) with (rowId r) in Hall. lia.
    + apply List.in_map_iff in Hs. destruct Hs as (r & <- & Hr).
      exists r. split; [exact Hr |]. rewrite Heq. reflexivity.
Qed.

(** The round trip on a page whose rounds were reordered, checked and
    edited. *)
Lemma save_load_round_trip_witness :
  roundTrip demoDefaults
    (run [OpMoveUp 3; OpClickDone 1; OpEdit 2 None (Some 20)] demoPage).
Proof.
  apply save_load_round_trip.
  - vm_compute. discriminate.
  - reflexivity.
  - vm_compute. repeat constructor.
Defined.

(** C5: what a save writes.  The write goes to the one slot [STORAGE_KEY]
    and its value is the array of round objects; no other slot changes, so
    no schema-version tag is recorded anywhere in the storage. *)
Theorem saveRoundsToStorage_writes_only_the_rounds st :
  localStorage (exec saveRoundsToStorage st) =
    (if storageWritable st
     then <[STORAGE_KEY := JsonText (ArrayOf (List.map RoundEntry
                                       (List.map snapshotRow (rows st))))]>
            (localStorage st)
     else localStorage st)
  /\ (forall k, k <> STORAGE_KEY ->
        localStorage (exec saveRoundsToStorage st) !! k = localStorage st !! k).
Proof.
  destruct (storageWritable st) eqn:Hw.
  - rewrite saveRoundsToStorage_writable by exact Hw.
    cbn [localStorage set_localStorage]. split; [reflexivity |].
    intros k Hk. apply lookup_insert_ne. congruence.
  - rewrite saveRoundsToStorage_full by exact Hw. split; reflexivity.
Qed.

(** On the demo page the storage holds, after a save, the array of the
    five rounds under [STORAGE_KEY] and nothing else. *)
Example demoPage_storage_after_save :
  localStorage (exec saveRoundsToStorage demoPage) =
  {[ STORAGE_KEY := JSON_stringify demoDefaults ]}.
Proof. reflexivity. Qed.

(** C9: [loadRoundsFromStorage] always returns to its caller; it returns
    [false] with the page untouched when there is no item, when the item
    is empty, not an array or an empty array, and when its text does not
    parse; the page load then keeps the default rounds. *)
Theorem loadRoundsFromStorage_fails_closed st :
  (exists b st', loadRoundsFromStorage st = Normal b st')
  /\ (noSnapshot (localStorage st !! STORAGE_KEY) = true ->
      loadRoundsFromStorage st = Normal false st)
  /\ (localStorage st !! STORAGE_KEY = Some BadText ->
      loadRoundsFromStorage st = Normal false st)
  /\ (forall defaults stored writable,
        noSnapshot (stored !! STORAGE_KEY) = true
        \/ stored !! STORAGE_KEY = Some BadText ->
        rows (pageLoad defaults stored writable) = List.map rowOfRound defaults).
Proof.
  split; [apply loadRoundsFromStorage_total |].
  split; [apply loadRoundsFromStorage_noSnapshot |].
  split.
  - intros H. unfold loadRoundsFromStorage, try_catch, bind, getItem.
    rewrite H. reflexivity.
  - intros defaults stored writable [H | H].
    + rewrite pageLoad_noSnapshot by exact H.
      rewrite updateProgress_rows. reflexivity.
    + unfold pageLoad, exec, DOMContentLoaded, bind at 1.
      unfold loadRoundsFromStorage, try_catch, bind, getItem.
      cbn [localStorage freshPage]. rewrite H. cbn.
      rewrite updateProgress_rows. reflexivity.
Qed.

(** The body of the [try] does throw: on a text that does not parse, and
    on a [null] element after the table has been cleared; the [catch]
    turns both into [false]. *)
Example loadRoundsFromStorage_null_entry :
  let stored := {[ STORAGE_KEY :=
                     JsonText (ArrayOf [RoundEntry (mkSavedRound 7 0 30 true); NullEntry]) ]} in
  let st := freshPage demoDefaults stored true in
  loadRoundsFromStorage st = Normal false (set_rows [rowOfRound (mkSavedRound 7 0 30 true)] st)
  /\ List.map rowId (rows (pageLoad demoDefaults stored true)) = [7]
  /\ nextRowId (pageLoad demoDefaults stored true) = 8.
Proof. repeat split. Qed.

(** ** Rows and timers as maps *)

Lemma findRow_Some i rs r : findRow i rs = Some r -> In r rs /\ rowId r = i.
Proof.
  induction rs as [|a rs IH]; simpl; [discriminate |].
  destruct (Z.eqb_spec (rowId a) i) as [E | N].
  - intros [= <-]. split; [now left | exact E].
  - intros H. destruct (IH H). split; [now right | assumption].
Qed.

Lemma findRow_None i rs : findRow i rs = None <-> ~ In i (List.map rowId rs).
Proof.
  induction rs as [|a rs IH]; simpl.
  - split; [intros _ [] | reflexivity].
  - destruct (Z.eqb_spec (rowId a) i) as [E | N].
    + split; [discriminate | intros H; exfalso; apply H; now left].
    + rewrite IH. split; [intros H [E | I]; [contradiction | now apply H] | intros H I; apply H; now right].
Qed.

Lemma findRow_In i rs : In i (List.map rowId rs) -> exists r, findRow i rs = Some r.
Proof.
  intros H. destruct (findRow i rs) as [r|] eqn:E; [now exists r |].
  apply findRow_None in E. contradiction.
Qed.

Section UpdateRow.
Variable f : Row -> Row.
Hypothesis f_keeps_id : forall r, rowId (f r) = rowId r.

Lemma updateRow_ids i rs : List.map rowId (updateRow i f rs) = List.map rowId rs.
Proof.
  induction rs as [|a rs IH]; simpl; [reflexivity |].
  destruct (rowId a =? i); simpl; [now rewrite f_keeps_id | now rewrite IH].
Qed.

Lemma findRow_updateRow i j rs :
  findRow j (updateRow i f rs) =
  if j =? i then option_map f (findRow j rs) else findRow j rs.
Proof.
  induction rs as [|a rs IH]; simpl.
  - now destruct (j =? i).
  - destruct (Z.eqb_spec (rowId a) i) as [E | N]; simpl.
    + rewrite f_keeps_id.
      destruct (Z.eqb_spec (rowId a) j) as [E' | N'].
      * subst. now rewrite Z.eqb_refl.
      * destruct (Z.eqb_spec j i); [congruence | reflexivity].
    + destruct (Z.eqb_spec (rowId a) j) as [E' | N'].
      * destruct (Z.eqb_spec j i); [congruence | reflexivity].
      * exact IH.
Qed.

Lemma In_updateRow i rs r' :
  In r' (updateRow i f rs) ->
  In r' rs \/ exists r, In r rs /\ rowId r = i /\ r' = f r.
Proof.
  induction rs as [|a rs IH]; simpl; [tauto |].
  destruct (Z.eqb_spec (rowId a) i) as [E | N]; simpl.
  - intros [<- | H]; [right; exists a; auto | left; now right].
  - intros [<- | H]; [left; now left |].
    destruct (IH H) as [H' | (r & H1 & H2 & H3)]; [left; now right |].
    right. exists r. auto.
Qed.
End UpdateRow.

Lemma getTimer_setTimer i j t ts :
  getTimer j (setTimer i t ts) = if j =? i then Some t else getTimer j ts.
Proof.
  induction ts as [|[k t'] ts IH]; simpl.
  - rewrite (Z.eqb_sym i j). reflexivity.
  - destruct (Z.eqb_spec k i) as [E | N]; simpl.
    + subst k. rewrite (Z.eqb_sym i j). now destruct (j =? i).
    + destruct (Z.eqb_spec k j) as [E' | N'].
      * destruct (Z.eqb_spec j i); [congruence | reflexivity].
      * exact IH.
Qed.

Lemma getTimer_deleteTimer i j ts :
  getTimer j (deleteTimer i ts) = if j =? i then None else getTimer j ts.
Proof.
  unfold deleteTimer.
  induction ts as [|[k t'] ts IH]; simpl.
  - now destruct (j =? i).
  - destruct (Z.eqb_spec k i) as [E | N]; simpl.
    + subst k. rewrite IH. destruct (Z.eqb_spec i j) as [E' | N'].
      * subst. now rewrite Z.eqb_refl.
      * reflexivity.
    + destruct (Z.eqb_spec k j) as [E' | N'].
      * destruct (Z.eqb_spec j i); [congruence | reflexivity].
      * exact IH.
Qed.

(** ** What the view updates leave alone *)

Lemma saveRoundsToStorage_shape st :
  exists ls, exec saveRoundsToStorage st = set_localStorage ls st.
Proof.
  destruct (storageWritable st) eqn:Hw.
  - eexists. now apply saveRoundsToStorage_writable.
  - exists (localStorage st). rewrite saveRoundsToStorage_full by exact Hw.
    now destruct st.
Qed.

Lemma updateProgress_shape st :
  exists p c, updateProgress st = set_celebrations c (set_progressText p st).
Proof.
  exists (progressText (updateProgress st)), (celebrations (updateProgress st)).
  unfold updateProgress. destruct (_ && _); destruct st; reflexivity.
Qed.

Lemma updateGlobalTimerDisplay_shape st :
  exists g, updateGlobalTimerDisplay st = set_globalDisplay g st.
Proof.
  unfold updateGlobalTimerDisplay.
  destruct (runningTimers (timers st)); [eexists; reflexivity |].
  destruct (findRow _ _); [eexists; reflexivity |].
  exists (globalDisplay st). now destruct st.
Qed.

(** ** Checkboxes *)

Lemma toggleDone_unchecked st i row :
  findRow i (rows st) = Some row ->
  exec (toggleDone i false) st =
  exec saveRoundsToStorage (updateProgress (modRow i (with_completed false) st)).
Proof.
  intros H. unfold exec at 1, toggleDone. rewrite H.
  unfold bind, lift. rewrite saveRoundsToStorage_returns. reflexivity.
Qed.

Lemma toggleDone_checked st i row :
  findRow i (rows st) = Some row ->
  exec (toggleDone i true) st =
  exec saveRoundsToStorage
    (updateProgress
       (scrollToNextUnchecked i (pauseTimer i (modRow i (with_completed true) st)))).
Proof.
  intros H. unfold exec at 1, toggleDone. rewrite H.
  unfold bind, lift. rewrite saveRoundsToStorage_returns. reflexivity.
Qed.

(** C10: unchecking the checkbox of an existing round clears the round's
    checked flag and its completed class and nothing else in the table;
    the timers, the intervals, the scroll position and the aggregator are
    as before; the progress is recomputed and the rounds are saved, the
    same two final steps as when the box is checked. *)
Theorem unchecking_changes_only_the_flag st i row :
  findRow i (rows st) = Some row ->
  checked row = true ->
  let unchecked := fun r => with_completed false (with_checked false r) in
  let st' := exec (clickDone i) st in
  rows st' = updateRow i unchecked (rows st)
  /\ findRow i (rows st') = Some (unchecked row)
  /\ (forall j, j <> i -> findRow j (rows st') = findRow j (rows st))
  /\ timers st' = timers st
  /\ intervals st' = intervals st
  /\ scrolled st' = scrolled st
  /\ globalDisplay st' = globalDisplay st
  /\ st' = exec saveRoundsToStorage (updateProgress (modRow i unchecked st))
  /\ exec (toggleDone i true) st =
     exec saveRoundsToStorage
       (updateProgress
          (scrollToNextUnchecked i (pauseTimer i (modRow i (with_completed true) st)))).
Proof.
  intros Hrow Hchecked unchecked st'.
  assert (Hst' : st' = exec saveRoundsToStorage
                         (updateProgress (modRow i unchecked st))).
  { subst st'. unfold exec at 1, clickDone. rewrite Hrow, Hchecked.
    cbn [negb].
    pose proof (toggleDone_unchecked (modRow i (with_checked false) st) i
                  (with_checked false row)) as Ht.
    unfold exec at 1 in Ht. rewrite Ht.
    - f_equal. f_equal. unfold modRow, set_rows; cbn. f_equal.
      clear. induction (rows st) as [|a rs IH]; cbn; [reflexivity |].
      destruct (Z.eqb_spec (rowId a) i) as [E | N]; cbn.
      + rewrite E, Z.eqb_refl. reflexivity.
      + destruct (Z.eqb_spec (rowId a) i); [contradiction | now rewrite IH].
    - unfold modRow; cbn. rewrite findRow_updateRow by reflexivity.
      rewrite Z.eqb_refl, Hrow. reflexivity. }
  assert (Hrows : rows st' = updateRow i unchecked (rows st)).
  { rewrite Hst'.
    destruct (updateProgress_shape (modRow i unchecked st)) as (p & c & ->).
    destruct (saveRoundsToStorage_shape
                (set_celebrations c (set_progressText p (modRow i unchecked st))))
      as (ls & ->).
    reflexivity. }
  split; [exact Hrows |].
  split.
  { rewrite Hrows, findRow_updateRow by reflexivity.
    rewrite Z.eqb_refl, Hrow. reflexivity. }
  split.
  { intros j Hj. rewrite Hrows, findRow_updateRow by reflexivity.
    destruct (Z.eqb_spec j i); [contradiction | reflexivity]. }
  assert (Hframe : timers st' = timers st /\ intervals st' = intervals st
                   /\ scrolled st' = scrolled st
                   /\ globalDisplay st' = globalDisplay st).
  { rewrite Hst'.
    destruct (updateProgress_shape (modRow i unchecked st)) as (p & c & ->).
    destruct (saveRoundsToStorage_shape
                (set_celebrations c (set_progressText p (modRow i unchecked st))))
      as (ls & ->).
    repeat split. }
  destruct Hframe as (Ht & Hi & Hs & Hg).
  repeat (split; [assumption |]).
  now apply toggleDone_checked with (row := row).
Qed.

(** Round 3 of the page on which every round is checked gets unchecked. *)
Lemma unchecking_changes_only_the_flag_witness :
  findRow 3 (rows allDonePage)
    = Some (mkRow 3 (Some 0) (Some 15) true true false false freshDisplay)
  /\ List.map checked (rows (exec (clickDone 3) allDonePage))
     = [true; true; false; true; true]
  /\ List.map completed (rows (exec (clickDone 3) allDonePage))
     = [true; true; false; true; true]
  /\ timers (exec (clickDone 3) allDonePage) = timers allDonePage
  /\ intervals (exec (clickDone 3) allDonePage) = intervals allDonePage
  /\ scrolled (exec (clickDone 3) allDonePage) = scrolled allDonePage.
Proof.
  pose proof (unchecking_changes_only_the_flag allDonePage 3
                (mkRow 3 (Some 0) (Some 15) true true false false freshDisplay)
                eq_refl eq_refl) as H.
  cbv zeta in H. destruct H as (Hrows & _ & _ & Ht & Hi & Hs & _).
  split; [vm_compute; reflexivity |].
  rewrite Hrows.
  split; [vm_compute; reflexivity |].
  split; [vm_compute; reflexivity |].
  split; [exact Ht |]. split; [exact Hi | exact Hs].
Defined.

(** ** The frame of the timer engine *)

Lemma timerFrame_refl st : timerFrame st st.
Proof. repeat split. Qed.

Lemma updateRow_core i f rs :
  (forall r, rowCore (f r) = rowCore r) ->
  List.map rowCore (updateRow i f rs) = List.map rowCore rs.
Proof.
  intros Hf. induction rs as [|a rs IH]; simpl; [reflexivity |].
  destruct (rowId a =? i); simpl; [now rewrite Hf | now rewrite IH].
Qed.

Lemma timerFrame_modRow st0 st i f :
  (forall r, rowCore (f r) = rowCore r) ->
  timerFrame st0 st -> timerFrame st0 (modRow i f st).
Proof.
  intros Hf (H1 & H). split; [| exact H].
  unfold modRow; cbn. now rewrite updateRow_core.
Qed.

Lemma timerFrame_set_timers st0 st ts :
  timerFrame st0 st -> timerFrame st0 (set_timers ts st).
Proof. intros H. exact H. Qed.

Lemma timerFrame_modTimer st0 st i f :
  timerFrame st0 st -> timerFrame st0 (modTimer i f st).
Proof. intros H. unfold modTimer. now destruct (getTimer i (timers st)). Qed.

Lemma timerFrame_set_intervals st0 st iv n :
  timerFrame st0 st -> timerFrame st0 (set_intervals iv n st).
Proof. intros H. exact H. Qed.

Lemma timerFrame_clearInterval st0 st h :
  timerFrame st0 st -> timerFrame st0 (clearInterval h st).
Proof. intros H. exact H. Qed.

Lemma timerFrame_updateGlobalTimerDisplay st0 st :
  timerFrame st0 st -> timerFrame st0 (updateGlobalTimerDisplay st).
Proof.
  intros H. destruct (updateGlobalTimerDisplay_shape st) as [g ->]. exact H.
Qed.

Lemma timerFrame_updateTimerDisplay st0 st i :
  timerFrame st0 st -> timerFrame st0 (updateTimerDisplay i st).
Proof.
  intros H. unfold updateTimerDisplay.
  destruct (findRow i (rows st)); [| exact H].
  destruct (getTimer i (timers st)); [| exact H].
  now apply timerFrame_modRow.
Qed.

Ltac timer_frame :=
  repeat first
    [ assumption
    | apply timerFrame_refl
    | apply timerFrame_updateGlobalTimerDisplay
    | apply timerFrame_updateTimerDisplay
    | apply timerFrame_modTimer
    | apply timerFrame_set_timers
    | apply timerFrame_set_intervals
    | apply timerFrame_clearInterval
    | apply timerFrame_modRow; [intros; reflexivity |]
    | match goal with
      | |- timerFrame _ (if ?b then _ else _) => destruct b
      | |- timerFrame _ (match ?x with _ => _ end) => destruct x
      end ].

Lemma timerFrame_timerFinished st0 st i :
  timerFrame st0 st -> timerFrame st0 (timerFinished i st).
Proof. intros H. unfold timerFinished. timer_frame. Qed.

Lemma timerFrame_tick st0 st i :
  timerFrame st0 st -> timerFrame st0 (tick i st).
Proof.
  intros H. unfold tick.
  destruct (getTimer i (timers st)); [| exact H].
  cbv zeta. apply timerFrame_updateGlobalTimerDisplay.
  destruct (_ <=? 0); [apply timerFrame_timerFinished |]; timer_frame.
Qed.

Lemma timerFrame_fire st0 st h :
  timerFrame st0 st -> timerFrame st0 (fire h st).
Proof.
  intros H. unfold fire. destruct (List.find _ _); [| exact H].
  now apply timerFrame_tick.
Qed.

Lemma timerFrame_startTimer st0 st i :
  timerFrame st0 st -> timerFrame st0 (startTimer i st).
Proof. intros H. unfold startTimer. cbv zeta. timer_frame. Qed.

Lemma timerFrame_pauseTimer st0 st i :
  timerFrame st0 st -> timerFrame st0 (pauseTimer i st).
Proof. intros H. unfold pauseTimer. cbv zeta. timer_frame. Qed.

Lemma timerFrame_resetTimer st0 st i :
  timerFrame st0 st -> timerFrame st0 (resetTimer i st).
Proof. intros H. unfold resetTimer. cbv zeta. timer_frame. Qed.

Lemma timerFrame_resetAll rs : forall st0 st,
  timerFrame st0 st ->
  timerFrame st0 (fold_left (fun s row => resetTimer (rowId row) s) rs st).
Proof.
  induction rs as [|a rs IH]; intros st0 st H; simpl; [exact H |].
  apply IH. now apply timerFrame_resetTimer.
Qed.

(** ** Projections of the view updates *)

Lemma rows_saveRoundsToStorage st : rows (exec saveRoundsToStorage st) = rows st.
Proof. destruct (saveRoundsToStorage_shape st) as [ls ->]; reflexivity. Qed.

Lemma timers_saveRoundsToStorage st : timers (exec saveRoundsToStorage st) = timers st.
Proof. destruct (saveRoundsToStorage_shape st) as [ls ->]; reflexivity. Qed.

Lemma intervals_saveRoundsToStorage st : intervals (exec saveRoundsToStorage st) = intervals st.
Proof. destruct (saveRoundsToStorage_shape st) as [ls ->]; reflexivity. Qed.

Lemma nextIntervalId_saveRoundsToStorage st : nextIntervalId (exec saveRoundsToStorage st) = nextIntervalId st.
Proof. destruct (saveRoundsToStorage_shape st) as [ls ->]; reflexivity. Qed.

Lemma nextRowId_saveRoundsToStorage st : nextRowId (exec saveRoundsToStorage st) = nextRowId st.
Proof. destruct (saveRoundsToStorage_shape st) as [ls ->]; reflexivity. Qed.

Lemma celebrations_saveRoundsToStorage st : celebrations (exec saveRoundsToStorage st) = celebrations st.
Proof. destruct (saveRoundsToStorage_shape st) as [ls ->]; reflexivity. Qed.

Lemma scrolled_saveRoundsToStorage st : scrolled (exec saveRoundsToStorage st) = scrolled st.
Proof. destruct (saveRoundsToStorage_shape st) as [ls ->]; reflexivity. Qed.

Lemma globalDisplay_saveRoundsToStorage st : globalDisplay (exec saveRoundsToStorage st) = globalDisplay st.
Proof. destruct (saveRoundsToStorage_shape st) as [ls ->]; reflexivity. Qed.

Lemma progressText_saveRoundsToStorage st : progressText (exec saveRoundsToStorage st) = progressText st.
Proof. destruct (saveRoundsToStorage_shape st) as [ls ->]; reflexivity. Qed.

Lemma storageWritable_saveRoundsToStorage st : storageWritable (exec saveRoundsToStorage st) = storageWritable st.
Proof. destruct (saveRoundsToStorage_shape st) as [ls ->]; reflexivity. Qed.

Lemma rows_updateGlobalTimerDisplay st : rows (updateGlobalTimerDisplay st) = rows st.
Proof. destruct (updateGlobalTimerDisplay_shape st) as [g ->]; reflexivity. Qed.

Lemma timers_updateGlobalTimerDisplay st : timers (updateGlobalTimerDisplay st) = timers st.
Proof. destruct (updateGlobalTimerDisplay_shape st) as [g ->]; reflexivity. Qed.

Lemma intervals_updateGlobalTimerDisplay st : intervals (updateGlobalTimerDisplay st) = intervals st.
Proof. destruct (updateGlobalTimerDisplay_shape st) as [g ->]; reflexivity. Qed.

Lemma nextIntervalId_updateGlobalTimerDisplay st : nextIntervalId (updateGlobalTimerDisplay st) = nextIntervalId st.
Proof. destruct (updateGlobalTimerDisplay_shape st) as [g ->]; reflexivity. Qed.

Lemma nextRowId_updateGlobalTimerDisplay st : nextRowId (updateGlobalTimerDisplay st) = nextRowId st.
Proof. destruct (updateGlobalTimerDisplay_shape st) as [g ->]; reflexivity. Qed.

Lemma celebrations_updateGlobalTimerDisplay st : celebrations (updateGlobalTimerDisplay st) = celebrations st.
Proof. destruct (updateGlobalTimerDisplay_shape st) as [g ->]; reflexivity. Qed.

Lemma scrolled_updateGlobalTimerDisplay st : scrolled (updateGlobalTimerDisplay st) = scrolled st.
Proof. destruct (updateGlobalTimerDisplay_shape st) as [g ->]; reflexivity. Qed.

Lemma localStorage_updateGlobalTimerDisplay st : localStorage (updateGlobalTimerDisplay st) = localStorage st.
Proof. destruct (updateGlobalTimerDisplay_shape st) as [g ->]; reflexivity. Qed.

Lemma progressText_updateGlobalTimerDisplay st : progressText (updateGlobalTimerDisplay st) = progressText st.
Proof. destruct (updateGlobalTimerDisplay_shape st) as [g ->]; reflexivity. Qed.

Lemma storageWritable_updateGlobalTimerDisplay st : storageWritable (updateGlobalTimerDisplay st) = storageWritable st.
Proof. destruct (updateGlobalTimerDisplay_shape st) as [g ->]; reflexivity. Qed.

Lemma timers_updateProgress st : timers (updateProgress st) = timers st.
Proof. destruct (updateProgress_shape st) as (p & c & ->); reflexivity. Qed.

Lemma intervals_updateProgress st : intervals (updateProgress st) = intervals st.
Proof. destruct (updateProgress_shape st) as (p & c & ->); reflexivity. Qed.

Lemma nextIntervalId_updateProgress st : nextIntervalId (updateProgress st) = nextIntervalId st.
Proof. destruct (updateProgress_shape st) as (p & c & ->); reflexivity. Qed.

Lemma scrolled_updateProgress st : scrolled (updateProgress st) = scrolled st.
Proof. destruct (updateProgress_shape st) as (p & c & ->); reflexivity. Qed.

Lemma localStorage_updateProgress st : localStorage (updateProgress st) = localStorage st.
Proof. destruct (updateProgress_shape st) as (p & c & ->); reflexivity. Qed.

Lemma globalDisplay_updateProgress st : globalDisplay (updateProgress st) = globalDisplay st.
Proof. destruct (updateProgress_shape st) as (p & c & ->); reflexivity. Qed.

Lemma storageWritable_updateProgress st : storageWritable (updateProgress st) = storageWritable st.
Proof. destruct (updateProgress_shape st) as (p & c & ->); reflexivity. Qed.

Lemma rows_scrollToNextUnchecked i st : rows (scrollToNextUnchecked i st) = rows st.
Proof. unfold scrollToNextUnchecked. now destruct (nextUnchecked _ _ _). Qed.

Lemma timers_scrollToNextUnchecked i st : timers (scrollToNextUnchecked i st) = timers st.
Proof. unfold scrollToNextUnchecked. now destruct (nextUnchecked _ _ _). Qed.

Lemma intervals_scrollToNextUnchecked i st :
  intervals (scrollToNextUnchecked i st) = intervals st.
Proof. unfold scrollToNextUnchecked. now destruct (nextUnchecked _ _ _). Qed.

Lemma nextRowId_scrollToNextUnchecked i st :
  nextRowId (scrollToNextUnchecked i st) = nextRowId st.
Proof. unfold scrollToNextUnchecked. now destruct (nextUnchecked _ _ _). Qed.

Lemma celebrations_scrollToNextUnchecked i st :
  celebrations (scrollToNextUnchecked i st) = celebrations st.
Proof. unfold scrollToNextUnchecked. now destruct (nextUnchecked _ _ _). Qed.

Lemma celebrations_updateProgress st :
  celebrations (updateProgress st) =
  if fullyComplete st then S (celebrations st) else celebrations st.
Proof.
  unfold updateProgress, fullyComplete, allCompleted.
  now destruct (_ && _).
Qed.

Create Rewrite HintDb view.

#[local] Hint Rewrite
  rows_saveRoundsToStorage
  timers_saveRoundsToStorage
  intervals_saveRoundsToStorage
  nextIntervalId_saveRoundsToStorage
  nextRowId_saveRoundsToStorage
  celebrations_saveRoundsToStorage
  scrolled_saveRoundsToStorage
  globalDisplay_saveRoundsToStorage
  progressText_saveRoundsToStorage
  storageWritable_saveRoundsToStorage
  rows_updateGlobalTimerDisplay
  timers_updateGlobalTimerDisplay
  intervals_updateGlobalTimerDisplay
  nextIntervalId_updateGlobalTimerDisplay
  nextRowId_updateGlobalTimerDisplay
  celebrations_updateGlobalTimerDisplay
  scrolled_updateGlobalTimerDisplay
  localStorage_updateGlobalTimerDisplay
  progressText_updateGlobalTimerDisplay
  storageWritable_updateGlobalTimerDisplay
  timers_updateProgress
  intervals_updateProgress
  nextIntervalId_updateProgress
  scrolled_updateProgress
  localStorage_updateProgress
  globalDisplay_updateProgress
  storageWritable_updateProgress
  rows_scrollToNextUnchecked
  timers_scrollToNextUnchecked
  intervals_scrollToNextUnchecked
  nextRowId_scrollToNextUnchecked
  celebrations_scrollToNextUnchecked
  updateProgress_rows
  updateProgress_nextRowId
  : view.

(** ** The handlers as compositions *)

Lemma timerFrame_timerDropped st0 st i :
  timerFrame st0 st -> timerFrame st0 (timerDropped i st).
Proof. intros H. unfold timerDropped. timer_frame. Qed.

Lemma rows_timerDropped i st : rows (timerDropped i st) = rows st.
Proof.
  unfold timerDropped. destruct (getTimer i (timers st)) as [t|]; [| reflexivity].
  now destruct (intervalId t).
Qed.

Lemma deleteRow_exec i st :
  exec (deleteRow true i) st =
  exec saveRoundsToStorage
    (updateGlobalTimerDisplay
       (updateProgress (set_rows (removeRow i (rows st)) (timerDropped i st)))).
Proof.
  unfold exec at 1, deleteRow. cbn [negb].
  fold (timerDropped i st).
  unfold bind, lift. rewrite saveRoundsToStorage_returns.
  now rewrite rows_timerDropped.
Qed.

Lemma String_eqb_empty s : String.eqb s "" = false <-> s <> "".
Proof. destruct (String.eqb_spec s ""); split; congruence. Qed.

Lemma findRow_app_new i rs r :
  rowId r = i -> exists r', findRow i (rs ++ [r]) = Some r' /\ rowId r' = i.
Proof.
  intros Hr.
  destruct (findRow_In i (rs ++ [r])) as [r' Hr'].
  - rewrite List.map_app. apply List.in_or_app. right. now left.
  - exists r'. split; [exact Hr' |]. now apply findRow_Some in Hr'.
Qed.

Lemma addNewRound_exec form st :
  validForm form ->
  let i := nextRowId st in
  let newRow := mkRow i (Some (orZero (newTimerMin form)))
                      (Some (orZero (newTimerSec form)))
                      false false false false freshDisplay in
  let st' := exec saveRoundsToStorage
               (updateProgress (appendRow newRow (set_nextRowId (i + 1) st))) in
  exec (addNewRound form) st = set_scrolled (scrolled st' ++ [i]) st'.
Proof.
  intros [Hn Hp] i newRow st'.
  unfold exec at 1, addNewRound.
  apply String_eqb_empty in Hn, Hp. rewrite Hn, Hp.
  fold i. fold newRow.
  unfold bind, lift. rewrite saveRoundsToStorage_returns. fold st'.
  destruct (findRow_app_new i (rows st) newRow eq_refl) as (r' & Hr' & Hid).
  assert (Hrows : rows st' = rows st ++ [newRow]).
  { subst st'. autorewrite with view. reflexivity. }
  rewrite Hrows, Hr'. unfold scrollIntoView. now rewrite Hid.
Qed.

Lemma addNewRound_rejected form st :
  ~ validForm form -> exec (addNewRound form) st = st.
Proof.
  intros H. unfold exec, addNewRound.
  destruct (String.eqb_spec (newGameName form) ""); [reflexivity |].
  destruct (String.eqb_spec (newPrompt form) ""); [reflexivity |].
  exfalso. apply H. now split.
Qed.

Lemma updateRow_updateRow i f g rs :
  (forall r, rowId (g r) = rowId r) ->
  updateRow i f (updateRow i g rs) = updateRow i (fun r => f (g r)) rs.
Proof.
  intros Hg. induction rs as [|a rs IH]; simpl; [reflexivity |].
  destruct (Z.eqb_spec (rowId a) i) as [E | N]; simpl.
  - now rewrite Hg, E, Z.eqb_refl.
  - destruct (Z.eqb_spec (rowId a) i); [contradiction | now rewrite IH].
Qed.

Lemma clickDone_exec i st row :
  findRow i (rows st) = Some row ->
  exec (clickDone i) st =
  if checked row
  then exec saveRoundsToStorage
         (updateProgress
            (modRow i (fun r => with_completed false (with_checked false r)) st))
  else exec saveRoundsToStorage
         (updateProgress
            (scrollToNextUnchecked i
               (pauseTimer i
                  (modRow i (fun r => with_completed true (with_checked true r)) st)))).
Proof.
  intros Hrow. unfold exec at 1, clickDone. rewrite Hrow.
  assert (Hfound : findRow i (rows (modRow i (with_checked (negb (checked row))) st))
                   = Some (with_checked (negb (checked row)) row)).
  { unfold modRow; cbn. rewrite findRow_updateRow by reflexivity.
    now rewrite Z.eqb_refl, Hrow. }
  assert (Hmod : forall b c,
             modRow i (with_completed c) (modRow i (with_checked b) st)
             = modRow i (fun r => with_completed c (with_checked b r)) st).
  { intros b c. unfold modRow, set_rows; cbn. f_equal.
    now apply updateRow_updateRow. }
  destruct (checked row); cbn [negb] in *.
  - pose proof (toggleDone_unchecked _ _ _ Hfound) as Ht.
    unfold exec at 1 in Ht. rewrite Ht, Hmod. reflexivity.
  - pose proof (toggleDone_checked _ _ _ Hfound) as Ht.
    unfold exec at 1 in Ht. rewrite Ht, Hmod. reflexivity.
Qed.

Lemma clickDone_no_row i st :
  findRow i (rows st) = None -> exec (clickDone i) st = st.
Proof. intros H. unfold exec, clickDone. now rewrite H. Qed.

Lemma moveRowUp_exec i st :
  exec (moveRowUp i) st = st
  \/ exec (moveRowUp i) st =
     exec saveRoundsToStorage (set_rows (insertBeforePrevious i (rows st)) st).
Proof.
  unfold exec at 1 2, moveRowUp.
  destruct (findRow i (rows st)); [| now left].
  destruct (noPreviousSibling i (rows st)); [now left |].
  right. unfold bind, lift. now rewrite saveRoundsToStorage_returns.
Qed.

Lemma moveRowDown_exec i st :
  exec (moveRowDown i) st = st
  \/ exec (moveRowDown i) st =
     exec saveRoundsToStorage (set_rows (insertNextBefore i (rows st)) st).
Proof.
  unfold exec at 1 2, moveRowDown.
  destruct (findRow i (rows st)); [| now left].
  destruct (noNextSibling i (rows st)); [now left |].
  right. unfold bind, lift. now rewrite saveRoundsToStorage_returns.
Qed.

Lemma resetAllRounds_exec st :
  exec (resetAllRounds true) st =
  let st1 := fold_left (fun s row => resetTimer (rowId row) s) (rows st) st in
  exec saveRoundsToStorage
    (updateProgress
       (set_rows (List.map (fun r => with_completed false (with_checked false r))
                           (rows st1)) st1)).
Proof.
  unfold exec at 1, resetAllRounds. cbn [negb].
  unfold bind, lift. now rewrite saveRoundsToStorage_returns.
Qed.

(** ** Progress and celebration *)

(** The count of checked boxes and the count of rows. *)
Lemma allCompleted_counts rs rs' :
  length (List.filter checked rs') = length (List.filter checked rs) ->
  length rs' = length rs ->
  allCompleted rs' = allCompleted rs.
Proof. intros H1 H2. unfold allCompleted. now rewrite H1, H2. Qed.

Lemma filter_checked_map rs rs' :
  List.map checked rs' = List.map checked rs ->
  length (List.filter checked rs') = length (List.filter checked rs).
Proof.
  revert rs'. induction rs as [|a rs IH]; intros [|a' rs']; simpl; try discriminate.
  - reflexivity.
  - intros [= Ha Hrs]. rewrite Ha. destruct (checked a); simpl; now rewrite (IH rs').
Qed.

Lemma allCompleted_map_checked rs rs' :
  List.map checked rs' = List.map checked rs -> allCompleted rs' = allCompleted rs.
Proof.
  intros H. apply allCompleted_counts.
  - now apply filter_checked_map.
  - rewrite <- (List.length_map checked rs'), H. apply List.length_map.
Qed.

Lemma rowCore_checked rs rs' :
  List.map rowCore rs' = List.map rowCore rs ->
  List.map checked rs' = List.map checked rs.
Proof.
  intros H.
  assert (E : forall l, List.map checked l =
                        List.map (fun c => snd (fst c)) (List.map rowCore l)).
  { intros l. rewrite List.map_map. reflexivity. }
  now rewrite !E, H.
Qed.

Lemma timerFrame_fullyComplete st st' :
  timerFrame st st' -> fullyComplete st' = fullyComplete st.
Proof.
  intros (H & _). apply allCompleted_map_checked. now apply rowCore_checked.
Qed.

Lemma insertBeforePrevious_counts i rs :
  length (List.filter checked (insertBeforePrevious i rs)) = length (List.filter checked rs)
  /\ length (insertBeforePrevious i rs) = length rs.
Proof.
  induction rs as [|a tl IH]; [now split |].
  cbn [insertBeforePrevious].
  destruct (rowId a =? i); [now split |].
  destruct tl as [|b rest]; [now split |].
  destruct (rowId b =? i).
  - cbn. destruct (checked a), (checked b); now split.
  - destruct IH as [IH1 IH2].
    cbn [List.filter length]. rewrite IH2.
    destruct (checked a); cbn [length]; rewrite IH1; now split.
Qed.

Lemma insertNextBefore_counts i rs :
  length (List.filter checked (insertNextBefore i rs)) = length (List.filter checked rs)
  /\ length (insertNextBefore i rs) = length rs.
Proof.
  induction rs as [|a tl IH]; [now split |].
  cbn [insertNextBefore].
  destruct (rowId a =? i).
  - destruct tl as [|b rest]; [now split |].
    cbn. destruct (checked a), (checked b); now split.
  - destruct IH as [IH1 IH2].
    cbn [List.filter length]. rewrite IH2.
    destruct (checked a); cbn [length]; rewrite IH1; now split.
Qed.

Lemma updateRow_inputs_checked i m s rs :
  List.map checked (updateRow i (with_inputs m s) rs) = List.map checked rs.
Proof.
  induction rs as [|a rs IH]; simpl; [reflexivity |].
  destruct (rowId a =? i); simpl; [reflexivity | now rewrite IH].
Qed.

(** An operation that does not recompute the progress does not change
    whether the page is fully complete. *)
Lemma fullyComplete_without_recompute o st :
  recomputesProgress o st = false -> fullyComplete (step o st) = fullyComplete st.
Proof.
  destruct o as [i | h | i | i | i | c i | form | i | i | i | c | c | i m s];
    cbn [recomputesProgress step]; intros Hre.
  - apply timerFrame_fullyComplete, timerFrame_startTimer, timerFrame_refl.
  - apply timerFrame_fullyComplete, timerFrame_fire, timerFrame_refl.
  - apply timerFrame_fullyComplete, timerFrame_pauseTimer, timerFrame_refl.
  - apply timerFrame_fullyComplete, timerFrame_resetTimer, timerFrame_refl.
  - apply timerFrame_fullyComplete, timerFrame_timerFinished, timerFrame_refl.
  - subst c. reflexivity.
  - rewrite addNewRound_rejected; [reflexivity |].
    intros [Hn Hp]. apply String_eqb_empty in Hn, Hp. now rewrite Hn, Hp in Hre.
  - destruct (findRow i (rows st)) eqn:E; [discriminate |].
    now rewrite clickDone_no_row.
  - destruct (moveRowUp_exec i st) as [-> | ->]; [reflexivity |].
    unfold fullyComplete. autorewrite with view. cbn [rows set_rows].
    apply allCompleted_counts; apply insertBeforePrevious_counts.
  - destruct (moveRowDown_exec i st) as [-> | ->]; [reflexivity |].
    unfold fullyComplete. autorewrite with view. cbn [rows set_rows].
    apply allCompleted_counts; apply insertNextBefore_counts.
  - subst c. reflexivity.
  - unfold clearSavedRounds. now destruct c.
  - unfold fullyComplete, modRow. cbn [rows set_rows].
    apply allCompleted_map_checked, updateRow_inputs_checked.
Qed.

Lemma celebrations_step o st :
  celebrations (step o st) =
  if recomputesProgress o st && fullyComplete (step o st)
  then S (celebrations st) else celebrations st.
Proof.
  destruct o as [i | h | i | i | i | c i | form | i | i | i | c | c | i m s];
    cbn [recomputesProgress step andb].
  - apply (timerFrame_startTimer st st i (timerFrame_refl st)).
  - apply (timerFrame_fire st st h (timerFrame_refl st)).
  - apply (timerFrame_pauseTimer st st i (timerFrame_refl st)).
  - apply (timerFrame_resetTimer st st i (timerFrame_refl st)).
  - apply (timerFrame_timerFinished st st i (timerFrame_refl st)).
  - destruct c; [| reflexivity]. cbn [andb].
    rewrite deleteRow_exec. unfold fullyComplete at 1.
    autorewrite with view. rewrite celebrations_updateProgress.
    unfold fullyComplete. cbn [rows set_rows celebrations set_rows].
    change (celebrations (set_rows (removeRow i (rows st)) (timerDropped i st)))
      with (celebrations (timerDropped i st)).
    now rewrite (proj1 (proj2 (proj2 (proj2 (proj2 (proj2
                  (timerFrame_timerDropped st st i (timerFrame_refl st)))))))).
  - destruct (String.eqb_spec (newGameName form) "") as [En | Nn]; cbn [negb andb].
    { rewrite addNewRound_rejected; [reflexivity | intros [H _]; contradiction]. }
    destruct (String.eqb_spec (newPrompt form) "") as [Ep | Np]; cbn [negb andb].
    { rewrite addNewRound_rejected; [reflexivity | intros [_ H]; contradiction]. }
    rewrite addNewRound_exec by (split; assumption). cbv zeta.
    unfold fullyComplete at 1. cbn [rows celebrations set_scrolled].
    autorewrite with view. rewrite celebrations_updateProgress.
    reflexivity.
  - destruct (findRow i (rows st)) as [row|] eqn:E; cbn [andb].
    2: { now rewrite clickDone_no_row. }
    rewrite (clickDone_exec i st row E). unfold fullyComplete at 1.
    destruct (checked row); autorewrite with view;
      rewrite celebrations_updateProgress; unfold fullyComplete;
      autorewrite with view; [reflexivity |].
    change (celebrations (modRow i (fun r => with_completed true (with_checked true r)) st))
      with (celebrations st).
    now rewrite (proj1 (proj2 (proj2 (proj2 (proj2 (proj2
                  (timerFrame_pauseTimer _ _ i (timerFrame_refl _)))))))).
  - destruct (moveRowUp_exec i st) as [-> | ->]; [reflexivity |].
    now autorewrite with view.
  - destruct (moveRowDown_exec i st) as [-> | ->]; [reflexivity |].
    now autorewrite with view.
  - destruct c; [| reflexivity]. cbn [andb].
    rewrite resetAllRounds_exec. cbv zeta. unfold fullyComplete at 1.
    autorewrite with view. rewrite celebrations_updateProgress.
    unfold fullyComplete. cbn [rows set_rows celebrations].
    change (celebrations (set_rows ?x ?y)) with (celebrations y).
    now rewrite (proj1 (proj2 (proj2 (proj2 (proj2 (proj2
                  (timerFrame_resetAll (rows st) st st (timerFrame_refl st)))))))).
  - unfold clearSavedRounds. now destruct c.
  - reflexivity.
Qed.

(** C6, as the specification states it, fails: on the page where all five
    rounds are checked, deleting a round recomputes the progress and
    celebrates again, although the page was fully complete before. *)
Lemma celebration_repeats_when_already_complete :
  fullyComplete allDonePage = true
  /\ celebrations (updateProgress allDonePage) = S (celebrations allDonePage)
  /\ ~ celebratesOnlyOnTransition (OpDelete true 1) allDonePage.
Proof.
  split; [vm_compute; reflexivity |].
  split; [vm_compute; reflexivity |].
  intros H.
  assert (Hne : celebrations (step (OpDelete true 1) allDonePage)
                <> celebrations allDonePage).
  { vm_compute. discriminate. }
  destruct (H Hne) as [Hpre _].
  vm_compute in Hpre. discriminate Hpre.
Qed.

(** C6 (amended): the celebration has no memory.  Every recompute of the
    progress that finds all rounds completed, and at least one round,
    triggers it once, whatever the page was before; an operation triggers
    it at most once, exactly when it recomputes the progress and leaves
    the page fully complete; in particular every transition into full
    completion triggers it exactly once. *)
Theorem celebration_on_every_complete_recompute :
  (forall st,
      celebrations (updateProgress st) =
      if fullyComplete st then S (celebrations st) else celebrations st)
  /\ (forall o st,
         celebrations (step o st) =
         if recomputesProgress o st && fullyComplete (step o st)
         then S (celebrations st) else celebrations st)
  /\ (forall o st,
         fullyComplete st = false ->
         fullyComplete (step o st) = true ->
         celebrations (step o st) = S (celebrations st)).
Proof.
  split; [exact celebrations_updateProgress |].
  split; [exact celebrations_step |].
  intros o st Hpre Hpost.
  rewrite celebrations_step, Hpost.
  destruct (recomputesProgress o st) eqn:Hre; [reflexivity |].
  rewrite (fullyComplete_without_recompute o st Hre) in Hpost. congruence.
Qed.

(** ** The aggregator *)

Lemma getTimer_In k t ts : getTimer k ts = Some t -> In (k, t) ts.
Proof.
  induction ts as [|[k' t'] ts IH]; simpl; [discriminate |].
  destruct (Z.eqb_spec k' k) as [-> | N].
  - intros [= ->]. now left.
  - intros H. right. now apply IH.
Qed.

Lemma In_getTimer k t ts : In (k, t) ts -> exists t', getTimer k ts = Some t'.
Proof.
  induction ts as [|[k' t'] ts IH]; simpl; [contradiction |].
  destruct (Z.eqb_spec k' k) as [-> | N].
  - intros _. now exists t'.
  - intros [[= E _] | H]; [contradiction | now apply IH].
Qed.

Lemma timersHaveRowsb_sound st : timersHaveRowsb st = true -> timersHaveRows st.
Proof.
  unfold timersHaveRowsb, timersHaveRows. rewrite forallb_forall.
  intros H k t Hk. specialize (H (k, t) (getTimer_In _ _ _ Hk)). cbn in H.
  destruct (findRow k (rows st)); [discriminate | discriminate H].
Qed.

Lemma In_insertByKey e x l : In e (insertByKey x l) <-> e = x \/ In e l.
Proof.
  induction l as [|a l IH]; simpl.
  - intuition congruence.
  - destruct (fst x <=? fst a); simpl; [intuition congruence |].
    rewrite IH. intuition congruence.
Qed.

Lemma In_sortByKey e l : In e (sortByKey l) <-> In e l.
Proof.
  induction l as [|a l IH]; simpl; [reflexivity |].
  rewrite In_insertByKey, IH. intuition congruence.
Qed.

Lemma In_Object_entries e ts : In e (Object_entries ts) <-> In e ts.
Proof.
  unfold Object_entries. rewrite List.in_app_iff, In_sortByKey, !List.filter_In.
  destruct (isArrayIndex (fst e)); simpl; intuition congruence.
Qed.

Lemma insertByKey_sorted x l :
  StronglySorted (fun a b => fst a <= fst b) l ->
  StronglySorted (fun a b => fst a <= fst b) (insertByKey x l).
Proof.
  induction 1 as [|a l Hl IH Ha]; simpl.
  - constructor; constructor.
  - destruct (Z.leb_spec (fst x) (fst a)).
    + constructor; [constructor; assumption |].
      constructor; [assumption |].
      eapply List.Forall_impl; [| exact Ha]. cbn. intros; lia.
    + constructor; [exact IH |].
      apply List.Forall_forall. intros e He. apply (proj1 (In_insertByKey _ _ _)) in He.
      destruct He as [-> | He]; [lia |].
      rewrite List.Forall_forall in Ha. now apply Ha.
Qed.

Lemma sortByKey_sorted l : StronglySorted (fun a b => fst a <= fst b) (sortByKey l).
Proof.
  induction l as [|a l IH]; simpl; [constructor | now apply insertByKey_sorted].
Qed.

Lemma StronglySorted_weaken {A} (R R' : A -> A -> Prop) (P : A -> Prop) l :
  (forall a b, P a -> P b -> R a b -> R' a b) ->
  Forall P l -> StronglySorted R l -> StronglySorted R' l.
Proof.
  intros HR HP. induction 1 as [|a l Hl IH Ha]; constructor.
  - apply IH. now inversion HP.
  - inversion HP as [|? ? Pa Pl]; subst.
    rewrite List.Forall_forall in *. intros x Hx. apply HR; auto.
Qed.

Lemma StronglySorted_filter {A} (R : A -> A -> Prop) f l :
  StronglySorted R l -> StronglySorted R (List.filter f l).
Proof.
  induction 1 as [|a l Hl IH Ha]; simpl; [constructor |].
  destruct (f a); [| exact IH].
  constructor; [exact IH |].
  rewrite List.Forall_forall in *. intros x Hx. apply List.filter_In in Hx.
  now apply Ha.
Qed.

Lemma StronglySorted_map {A B} (R : B -> B -> Prop) (g : A -> B) l :
  StronglySorted (fun a b => R (g a) (g b)) l -> StronglySorted R (List.map g l).
Proof.
  induction 1 as [|a l Hl IH Ha]; simpl; constructor; [exact IH |].
  rewrite List.Forall_forall in *. intros y Hy.
  apply List.in_map_iff in Hy. destruct Hy as (x & <- & Hx). now apply Ha.
Qed.

Lemma StronglySorted_append {A} (R : A -> A -> Prop) l1 l2 :
  StronglySorted R l1 -> StronglySorted R l2 ->
  (forall a b, In a l1 -> In b l2 -> R a b) ->
  StronglySorted R (l1 ++ l2).
Proof.
  intros H1 H2 H12. induction H1 as [|a l Hl IH Ha]; simpl; [exact H2 |].
  constructor.
  - apply IH. intros x y Hx Hy. apply H12; [now right | exact Hy].
  - apply List.Forall_forall. intros x Hx. apply List.in_app_iff in Hx.
    destruct Hx as [Hx | Hx].
    + rewrite List.Forall_forall in Ha. now apply Ha.
    + apply H12; [now left | exact Hx].
Qed.

Lemma StronglySorted_later {A} (R : A -> A -> Prop) l1 u l2 :
  StronglySorted R (l1 ++ u :: l2) -> forall x, In x l2 -> R u x.
Proof.
  induction l1 as [|a l1 IH]; simpl; intros H x Hx.
  - inversion H as [|? ? _ Hu]; subst. rewrite List.Forall_forall in Hu. now apply Hu.
  - inversion H; subst. now apply IH.
Qed.

(** [Object.entries(timers)] lists array-index keys first, in ascending
    order. *)
Lemma Object_entries_order ts :
  StronglySorted (fun a b => keyBefore (fst a) (fst b)) (Object_entries ts).
Proof.
  unfold Object_entries. apply StronglySorted_append.
  - apply (StronglySorted_weaken (fun a b => fst a <= fst b) _
             (fun e => isArrayIndex (fst e) = true)).
    + intros a b Ha _ Hab _. split; assumption.
    + apply List.Forall_forall. intros e He. apply (proj1 (In_sortByKey _ _)) in He.
      apply List.filter_In in He. apply He.
    + apply sortByKey_sorted.
  - assert (H : Forall (fun e => isArrayIndex (fst e) = false)
                  (List.filter (fun e => negb (isArrayIndex (fst e))) ts)).
    { apply List.Forall_forall. intros e He. apply List.filter_In in He.
      destruct He as [_ He]. now destruct (isArrayIndex (fst e)). }
    induction H as [|a l Ha Hl IH]; constructor; [exact IH |].
    eapply List.Forall_impl; [| exact Hl]. cbn. intros b Hb Hb'. congruence.
  - intros a b _ Hb Hb'. apply List.filter_In in Hb. destruct Hb as [_ Hb].
    rewrite Hb' in Hb. discriminate.
Qed.

Lemma runningTimers_order ts :
  StronglySorted (fun a b => keyBefore (t_id a) (t_id b)) (runningTimers ts).
Proof.
  unfold runningTimers. apply StronglySorted_map. cbn.
  apply StronglySorted_filter, Object_entries_order.
Qed.

Lemma In_runningTimers x ts :
  In x (runningTimers ts) <->
  exists t, In (t_id x, t) ts /\ isRunning t = true
            /\ 0 < remainingSeconds t /\ seconds x = remainingSeconds t.
Proof.
  unfold runningTimers. rewrite List.in_map_iff. split.
  - intros ([k t] & <- & H). apply List.filter_In in H. destruct H as [Hin Hf].
    apply (proj1 (In_Object_entries _ _)) in Hin. cbn in *.
    apply andb_true_iff in Hf. destruct Hf as [Hr Hp].
    apply Z.ltb_lt in Hp.
    exists t. split; [exact Hin | split; [exact Hr | split; [exact Hp | reflexivity]]].
  - intros (t & Hin & Hr & Hp & Hs). exists (t_id x, t). split.
    + destruct x; cbn in *. now subst.
    + apply List.filter_In. split; [now apply (proj2 (In_Object_entries _ _)) |].
      cbn. rewrite Hr. cbn. lia.
Qed.

(** The reduction returns the first element with the least seconds. *)
Lemma fold_min_first rest : forall pre m p1 p2,
  pre = p1 ++ m :: p2 ->
  (forall x, In x p1 -> seconds m < seconds x) ->
  (forall x, In x p2 -> seconds m <= seconds x) ->
  exists l1 l2,
    pre ++ rest = l1 ++ reduceMin m rest :: l2
    /\ (forall x, In x l1 -> seconds (reduceMin m rest) < seconds x)
    /\ (forall x, In x l2 -> seconds (reduceMin m rest) <= seconds x).
Proof.
  unfold reduceMin.
  induction rest as [|t rest IH]; intros pre m p1 p2 Hpre H1 H2; simpl.
  - exists p1, p2. rewrite app_nil_r. auto.
  - destruct (Z.ltb_spec (seconds t) (seconds m)) as [Hlt | Hge].
    + destruct (IH (pre ++ [t]) t pre []) as (l1 & l2 & E & Hl1 & Hl2).
      * reflexivity.
      * intros x Hx. subst pre. apply List.in_app_iff in Hx.
        destruct Hx as [Hx | [<- | Hx]]; [specialize (H1 x Hx) | | specialize (H2 x Hx)]; lia.
      * intros x [].
      * exists l1, l2. rewrite <- List.app_assoc in E. auto.
    + destruct (IH (pre ++ [t]) m p1 (p2 ++ [t])) as (l1 & l2 & E & Hl1 & Hl2).
      * subst pre. now rewrite <- List.app_assoc.
      * exact H1.
      * intros x Hx. apply List.in_app_iff in Hx.
        destruct Hx as [Hx | [<- | []]]; [now apply H2 | lia].
      * exists l1, l2. rewrite <- List.app_assoc in E. auto.
Qed.

Lemma reduceMin_first first rest :
  exists l1 l2,
    first :: rest = l1 ++ reduceMin first rest :: l2
    /\ (forall x, In x l1 -> seconds (reduceMin first rest) < seconds x)
    /\ (forall x, In x l2 -> seconds (reduceMin first rest) <= seconds x).
Proof.
  apply (fold_min_first rest [first] first [] []); [reflexivity | |]; intros x [].
Qed.

(** C4, as the specification states it, fails: with round 3 moved above
    round 2 and both 15-second timers running, round 3 is listed (and was
    started) first, yet the aggregator reports round 2, whose key comes
    first among the properties of [timers]. *)
Lemma aggregator_tie_ignores_round_order :
  List.map rowId (rows tiedPage) = [1; 3; 2; 4; 5]
  /\ runningTimers (timers tiedPage) = [mkRunning 2 15; mkRunning 3 15]
  /\ globalTextInRoundOrder tiedPage = ActiveTimer 3 0 15
  /\ g_text (globalDisplay (updateGlobalTimerDisplay tiedPage)) = ActiveTimer 2 0 15
  /\ g_text (globalDisplay (updateGlobalTimerDisplay tiedPage))
     <> globalTextInRoundOrder tiedPage.
Proof.
  split; [vm_compute; reflexivity |].
  split; [vm_compute; reflexivity |].
  split; [vm_compute; reflexivity |].
  split; [vm_compute; reflexivity |].
  vm_compute. discriminate.
Qed.

(** C4 (amended): the aggregator keeps the timers that are running with
    time left; with none it shows "No active timer"; otherwise it shows a
    kept timer with the least remaining seconds, and among those with the
    same seconds the one that comes first in the own-property order of
    [timers]: for ids that are array indices, the one with the smallest
    id, whatever the display order of the rounds. *)
Theorem aggregator_selects_least_seconds_then_least_id st :
  timersHaveRows st ->
  (forall x, In x (runningTimers (timers st)) <->
             exists t, In (t_id x, t) (timers st) /\ isRunning t = true
                       /\ 0 < remainingSeconds t /\ seconds x = remainingSeconds t)
  /\ match runningTimers (timers st) with
     | [] => globalDisplay (updateGlobalTimerDisplay st) = mkGlobal NoActiveTimer "#58a6ff"
     | _ :: _ =>
         exists u,
           In u (runningTimers (timers st))
           /\ globalDisplay (updateGlobalTimerDisplay st) =
              mkGlobal (ActiveTimer (t_id u) (seconds u / 60) (Z.rem (seconds u) 60))
                       (urgencyColor (seconds u))
           /\ (forall x, In x (runningTimers (timers st)) -> seconds u <= seconds x)
           /\ (forall x, In x (runningTimers (timers st)) ->
                         seconds x = seconds u ->
                         isArrayIndex (t_id x) = true ->
                         isArrayIndex (t_id u) = true /\ t_id u <= t_id x)
     end.
Proof.
  intros Hrows. split; [intros x; apply In_runningTimers |].
  unfold updateGlobalTimerDisplay.
  pose proof (runningTimers_order (timers st)) as Hord.
  pose proof (fun x => proj1 (In_runningTimers x (timers st))) as Hmem.
  destruct (runningTimers (timers st)) as [|first rest]; [reflexivity |].
  destruct (reduceMin_first first rest) as (l1 & l2 & E & Hl1 & Hl2).
  set (u := reduceMin first rest) in *.
  assert (Hu : In u (first :: rest)).
  { rewrite E. apply List.in_or_app. right. now left. }
  exists u. split; [exact Hu |]. split.
  - destruct (Hmem u Hu) as (t & Hin & _).
    destruct (In_getTimer _ _ _ Hin) as [t' Ht'].
    destruct (findRow (t_id u) (rows st)) eqn:Hrow; [reflexivity |].
    exfalso. exact (Hrows _ _ Ht' Hrow).
  - split.
    + intros x Hx. rewrite E in Hx. apply List.in_app_iff in Hx.
      destruct Hx as [Hx | [<- | Hx]];
        [specialize (Hl1 x Hx) | | specialize (Hl2 x Hx)]; lia.
    + intros x Hx Heq Hidx. rewrite E in Hx. apply List.in_app_iff in Hx.
      destruct Hx as [Hx | [<- | Hx]].
      * specialize (Hl1 x Hx). lia.
      * split; [exact Hidx | lia].
      * rewrite E in Hord.
        exact (StronglySorted_later _ l1 u l2 Hord x Hx Hidx).
Qed.

(** On the page with rounds 2 and 3 tied at 15 seconds, round 2 is shown. *)
Lemma aggregator_selects_least_seconds_then_least_id_witness :
  timersHaveRows tiedPage
  /\ exists u,
       In u (runningTimers (timers tiedPage))
       /\ globalDisplay (updateGlobalTimerDisplay tiedPage) =
          mkGlobal (ActiveTimer (t_id u) (seconds u / 60) (Z.rem (seconds u) 60))
                   (urgencyColor (seconds u))
       /\ (forall x, In x (runningTimers (timers tiedPage)) ->
                     seconds x = seconds u ->
                     isArrayIndex (t_id x) = true ->
                     isArrayIndex (t_id u) = true /\ t_id u <= t_id x).
Proof.
  assert (Hrows : timersHaveRows tiedPage).
  { apply timersHaveRowsb_sound. vm_compute. reflexivity. }
  split; [exact Hrows |].
  pose proof (aggregator_selects_least_seconds_then_least_id tiedPage Hrows) as [_ H].
  assert (E : runningTimers (timers tiedPage) = [mkRunning 2 15; mkRunning 3 15]).
  { vm_compute. reflexivity. }
  rewrite E in *.
  destruct H as (u & Hu & Hd & _ & Htie).
  exists u. split; [exact Hu |]. split; [exact Hd | exact Htie].
Defined.

(** ** The timer engine, case by case *)

Lemma setTimer_setTimer i a b ts : setTimer i a (setTimer i b ts) = setTimer i a ts.
Proof.
  induction ts as [|[k t] ts IH]; simpl.
  - now rewrite Z.eqb_refl.
  - destruct (Z.eqb_spec k i) as [E | N]; simpl.
    + subst. now rewrite Z.eqb_refl.
    + destruct (Z.eqb_spec k i); [contradiction | now rewrite IH].
Qed.

Lemma setTimer_same i t ts : getTimer i ts = Some t -> setTimer i t ts = ts.
Proof.
  induction ts as [|[k t'] ts IH]; simpl; [discriminate |].
  destruct (Z.eqb_spec k i) as [E | N].
  - now intros [= ->].
  - intros H. now rewrite IH.
Qed.

Lemma updateRow_absent i f rs : findRow i rs = None -> updateRow i f rs = rs.
Proof.
  induction rs as [|a rs IH]; simpl; [reflexivity |].
  destruct (rowId a =? i); [discriminate |].
  intros H. now rewrite IH.
Qed.

Lemma engineState_same st :
  engineState (rows st) (timers st) (intervals st) (nextIntervalId st) st = st.
Proof. now destruct st. Qed.

Lemma modTimer_known i f t st :
  getTimer i (timers st) = Some t ->
  modTimer i f st = set_timers (setTimer i (f t) (timers st)) st.
Proof. intros H. unfold modTimer. now rewrite H. Qed.

Lemma updateTimerDisplay_known i t st :
  getTimer i (timers st) = Some t ->
  updateTimerDisplay i st = modRow i (showClock (remainingSeconds t)) st.
Proof.
  intros H. unfold updateTimerDisplay. rewrite H.
  destruct (findRow i (rows st)) eqn:E; [reflexivity |].
  unfold modRow. rewrite updateRow_absent by exact E. now destruct st.
Qed.

Lemma pauseTimer_eq i t row st :
  getTimer i (timers st) = Some t ->
  findRow i (rows st) = Some row ->
  pauseTimer i st =
  updateGlobalTimerDisplay
    (engineState (updateRow i rowPaused (rows st))
                 (setTimer i (mkTimer None (remainingSeconds t) false) (timers st))
                 (clearedIntervals (intervalId t) (intervals st))
                 (nextIntervalId st) st).
Proof.
  intros Ht Hrow. unfold pauseTimer. rewrite Ht, Hrow. f_equal.
  destruct (intervalId t) as [h|] eqn:Eh.
  - rewrite (modTimer_known i _ t (clearInterval h st) Ht).
    erewrite modTimer_known.
    2: { cbn. rewrite getTimer_setTimer, Z.eqb_refl. reflexivity. }
    cbn. rewrite setTimer_setTimer. reflexivity.
  - rewrite (modTimer_known i _ t st Ht).
    cbn. rewrite Eh. destruct st; reflexivity.
Qed.

Lemma pauseTimer_noop i st :
  getTimer i (timers st) = None \/ findRow i (rows st) = None ->
  pauseTimer i st = st.
Proof.
  intros [H | H]; unfold pauseTimer; rewrite H; [reflexivity |].
  now destruct (getTimer i (timers st)).
Qed.

Lemma resetTimer_eq i row st :
  findRow i (rows st) = Some row ->
  resetTimer i st =
  updateGlobalTimerDisplay
    (engineState (updateRow i rowReset (rows st))
                 (setTimer i (mkTimer None 0 false) (timers st))
                 (clearedIntervals
                    (match getTimer i (timers st) with
                     | Some t => intervalId t
                     | None => None
                     end) (intervals st))
                 (nextIntervalId st) st).
Proof.
  intros Hrow. unfold resetTimer. rewrite Hrow. f_equal.
  destruct (getTimer i (timers st)) as [t|]; [destruct (intervalId t) |]; reflexivity.
Qed.

Lemma timerFinished_eq i t row st :
  getTimer i (timers st) = Some t ->
  findRow i (rows st) = Some row ->
  timerFinished i st =
  updateGlobalTimerDisplay
    (engineState (updateRow i rowFinished (rows st))
                 (setTimer i (mkTimer None 0 false) (timers st))
                 (clearedIntervals (intervalId t) (intervals st))
                 (nextIntervalId st) st).
Proof.
  intros Ht Hrow. unfold timerFinished. rewrite Ht, Hrow. f_equal.
  destruct (intervalId t) as [h|] eqn:Eh.
  - rewrite (modTimer_known i _ t (clearInterval h st) Ht). reflexivity.
  - rewrite (modTimer_known i _ t st Ht). reflexivity.
Qed.

Lemma timerFinished_noop i st :
  getTimer i (timers st) = None \/ findRow i (rows st) = None ->
  timerFinished i st = st.
Proof.
  intros [H | H]; unfold timerFinished; rewrite H; [| reflexivity].
  now destruct (findRow i (rows st)).
Qed.

Lemma updateRow_finished_after i f rs :
  (forall r, rowId (f r) = rowId r) ->
  (forall r, rowFinished (f r) = rowFinished r) ->
  updateRow i rowFinished (updateRow i f rs) = updateRow i rowFinished rs.
Proof.
  intros Hid Hf. rewrite updateRow_updateRow by exact Hid.
  induction rs as [|a rs IH]; simpl; [reflexivity |].
  destruct (rowId a =? i); [now rewrite Hf | now rewrite IH].
Qed.

(** A tick that leaves time on the clock. *)
Lemma tick_running i t st :
  getTimer i (timers st) = Some t ->
  0 < remainingSeconds t - 1 ->
  tick i st =
  updateGlobalTimerDisplay
    (engineState (updateRow i (rowTicked (remainingSeconds t - 1)) (rows st))
                 (setTimer i (mkTimer (intervalId t) (remainingSeconds t - 1) (isRunning t))
                           (timers st))
                 (intervals st) (nextIntervalId st) st).
Proof.
  intros Ht Hpos. unfold tick. rewrite Ht. cbv zeta.
  destruct (Z.leb_spec (remainingSeconds t - 1) 0); [lia |].
  f_equal.
  rewrite (modTimer_known i _ t st Ht).
  erewrite updateTimerDisplay_known.
  2: { cbn. rewrite getTimer_setTimer, Z.eqb_refl. reflexivity. }
  unfold modRow, engineState. cbn.
  rewrite updateRow_updateRow by reflexivity. reflexivity.
Qed.

Lemma updateGlobalTimerDisplay_idem st :
  updateGlobalTimerDisplay (updateGlobalTimerDisplay st) = updateGlobalTimerDisplay st.
Proof.
  unfold updateGlobalTimerDisplay at 2.
  destruct (runningTimers (timers st)) as [|first rest] eqn:Er.
  - unfold updateGlobalTimerDisplay. cbn [timers set_globalDisplay]. now rewrite Er.
  - destruct (findRow (t_id (reduceMin first rest)) (rows st)) eqn:Ef.
    + unfold updateGlobalTimerDisplay. cbn [timers rows set_globalDisplay].
      now rewrite Er, Ef.
    + unfold updateGlobalTimerDisplay. now rewrite Er, Ef.
Qed.

(** The tick that uses up the time. *)
Lemma tick_expires i t row st :
  getTimer i (timers st) = Some t ->
  findRow i (rows st) = Some row ->
  remainingSeconds t - 1 <= 0 ->
  tick i st =
  updateGlobalTimerDisplay
    (engineState (updateRow i rowFinished (rows st))
                 (setTimer i (mkTimer None 0 false) (timers st))
                 (clearedIntervals (intervalId t) (intervals st))
                 (nextIntervalId st) st).
Proof.
  intros Ht Hrow Hle. unfold tick. rewrite Ht. cbv zeta.
  destruct (Z.leb_spec (remainingSeconds t - 1) 0); [| lia].
  rewrite (modTimer_known i _ t st Ht).
  set (t1 := mkTimer (intervalId t) (remainingSeconds t - 1) (isRunning t)).
  set (st1 := set_timers (setTimer i t1 (timers st)) st).
  assert (Ht1 : getTimer i (timers st1) = Some t1).
  { subst st1. cbn. now rewrite getTimer_setTimer, Z.eqb_refl. }
  rewrite (updateTimerDisplay_known i t1 st1 Ht1).
  set (X := modRow i (with_display (tickClasses (remainingSeconds t - 1)))
              (modRow i (showClock (remainingSeconds t1)) st1)).
  assert (HtX : getTimer i (timers X) = Some t1) by exact Ht1.
  assert (HrX : findRow i (rows X)
                = Some (with_display (tickClasses (remainingSeconds t - 1))
                          (showClock (remainingSeconds t1) row))).
  { subst X st1. cbn. rewrite !findRow_updateRow by reflexivity.
    now rewrite Z.eqb_refl, Hrow. }
  rewrite (timerFinished_eq i t1 _ X HtX HrX).
  rewrite updateGlobalTimerDisplay_idem. f_equal.
  subst X st1. unfold engineState, modRow. cbn.
  rewrite setTimer_setTimer.
  rewrite updateRow_finished_after by reflexivity.
  rewrite updateRow_finished_after by reflexivity.
  reflexivity.
Qed.

(** A tick for a timer whose row is gone: the decrement stays. *)
Lemma tick_without_row i t st :
  getTimer i (timers st) = Some t ->
  findRow i (rows st) = None ->
  tick i st =
  updateGlobalTimerDisplay
    (set_timers
       (setTimer i (mkTimer (intervalId t) (remainingSeconds t - 1) (isRunning t))
                 (timers st)) st).
Proof.
  intros Ht Hrow. unfold tick. rewrite Ht. cbv zeta.
  rewrite (modTimer_known i _ t st Ht).
  set (t1 := mkTimer (intervalId t) (remainingSeconds t - 1) (isRunning t)).
  set (st1 := set_timers (setTimer i t1 (timers st)) st).
  assert (E1 : updateTimerDisplay i st1 = st1).
  { unfold updateTimerDisplay. subst st1. cbn [rows set_timers]. now rewrite Hrow. }
  rewrite E1.
  assert (E2 : forall f, modRow i f st1 = st1).
  { intros f. unfold modRow. subst st1. cbn [rows set_timers].
    rewrite updateRow_absent by exact Hrow. now destruct st. }
  rewrite E2.
  destruct (_ <=? 0); [| reflexivity].
  rewrite timerFinished_noop by (right; exact Hrow). reflexivity.
Qed.

Lemma tick_noop i st : getTimer i (timers st) = None -> tick i st = st.
Proof. intros H. unfold tick. now rewrite H. Qed.

(** [startTimer] on a row whose timer is not running. *)
Lemma startTimer_eq i row st :
  findRow i (rows st) = Some row ->
  match getTimer i (timers st) with
  | Some t => isRunning t
  | None => false
  end = false ->
  let t0 := timerAtStart row (getTimer i (timers st)) in
  startTimer i st =
  if remainingSeconds t0 <=? 0
  then engineState (updateRow i (with_display (set_text SetTime)) (rows st))
                   (setTimer i t0 (timers st))
                   (intervals st) (nextIntervalId st) st
  else set_timers
         (setTimer i (mkTimer (Some (nextIntervalId st)) (remainingSeconds t0) true)
                   (timers st))
         (set_intervals ((nextIntervalId st, i) :: intervals st)
                        (Pos.succ (nextIntervalId st))
            (updateGlobalTimerDisplay
               (engineState
                  (updateRow i (fun r => showClock (remainingSeconds t0) (rowStarted r))
                             (rows st))
                  (setTimer i (mkTimer (intervalId t0) (remainingSeconds t0) true)
                            (timers st))
                  (intervals st) (nextIntervalId st) st))).
Proof.
  intros Hrow Hnot t0. unfold startTimer. rewrite Hrow, Hnot. cbv zeta.
  set (st1 := if match getTimer i (timers st) with
                 | Some t => remainingSeconds t =? 0
                 | None => true
                 end
              then set_timers (setTimer i (mkTimer None (getTimerSeconds row) false)
                                        (timers st)) st
              else st).
  assert (Hst1 : st1 = set_timers (setTimer i t0 (timers st)) st).
  { subst st1 t0. unfold timerAtStart.
    destruct (getTimer i (timers st)) as [t|] eqn:Et; [| reflexivity].
    destruct (remainingSeconds t =? 0); [reflexivity |].
    rewrite setTimer_same by exact Et. now destruct st. }
  assert (Ht0 : getTimer i (timers st1) = Some t0).
  { rewrite Hst1. cbn. now rewrite getTimer_setTimer, Z.eqb_refl. }
  rewrite Ht0.
  destruct (remainingSeconds t0 <=? 0).
  - rewrite Hst1. reflexivity.
  - set (st2 := modRow i rowStarted st1).
    rewrite (modTimer_known i _ t0 st2 Ht0).
    set (t1 := mkTimer (intervalId t0) (remainingSeconds t0) true).
    set (st3 := set_timers (setTimer i t1 (timers st2)) st2).
    assert (Ht1 : getTimer i (timers st3) = Some t1).
    { subst st3. cbn. now rewrite getTimer_setTimer, Z.eqb_refl. }
    rewrite (updateTimerDisplay_known i t1 st3 Ht1).
    set (st4 := modRow i (showClock (remainingSeconds t1)) st3).
    assert (E4 : st4 = engineState
                   (updateRow i (fun r => showClock (remainingSeconds t0) (rowStarted r))
                              (rows st))
                   (setTimer i t1 (timers st))
                   (intervals st) (nextIntervalId st) st).
    { subst st4 st3 st2. rewrite Hst1. unfold modRow, engineState. cbn.
      rewrite setTimer_setTimer.
      rewrite updateRow_updateRow by reflexivity. reflexivity. }
    rewrite E4.
    set (core := engineState _ _ _ _ st).
    destruct (updateGlobalTimerDisplay_shape core) as [g Hg].
    erewrite modTimer_known.
    2: { rewrite Hg. subst core. cbn. rewrite getTimer_setTimer, Z.eqb_refl. reflexivity. }
    rewrite Hg. subst core. unfold engineState. cbn.
    rewrite setTimer_setTimer. reflexivity.
Qed.

Lemma startTimer_noop i st :
  findRow i (rows st) = None
  \/ (exists t, getTimer i (timers st) = Some t /\ isRunning t = true) ->
  startTimer i st = st.
Proof.
  intros [H | (t & Ht & Hr)]; unfold startTimer.
  - now rewrite H.
  - rewrite Ht, Hr. now destruct (findRow i (rows st)).
Qed.

(** ** Counting down *)

Lemma findRow_updateRow_exists i j f rs row :
  (forall r, rowId (f r) = rowId r) ->
  findRow j rs = Some row -> exists row', findRow j (updateRow i f rs) = Some row'.
Proof.
  intros Hf H. rewrite findRow_updateRow by exact Hf. rewrite H.
  destruct (j =? i); cbn; eauto.
Qed.

Lemma startTimer_counts i row d st :
  findRow i (rows st) = Some row ->
  getTimerSeconds row = d ->
  0 < d ->
  timerIdle i st ->
  countingDown i (nextIntervalId st) d (startTimer i st).
Proof.
  intros Hrow Hd Hpos Hidle. unfold timerIdle in Hidle.
  assert (Hnot : match getTimer i (timers st) with
                 | Some t => isRunning t
                 | None => false
                 end = false).
  { destruct (getTimer i (timers st)); [apply Hidle | reflexivity]. }
  assert (Ht0 : timerAtStart row (getTimer i (timers st)) = mkTimer None d false).
  { unfold timerAtStart. destruct (getTimer i (timers st)) as [t|].
    - destruct Hidle as [-> _]. cbn. now rewrite Hd.
    - now rewrite Hd. }
  pose proof (startTimer_eq i row st Hrow Hnot) as E. cbv zeta in E.
  rewrite Ht0 in E. cbn [remainingSeconds intervalId] in E.
  destruct (Z.leb_spec d 0); [lia |].
  rewrite E. unfold countingDown. cbn [timers intervals rows set_timers set_intervals].
  split; [now rewrite getTimer_setTimer, Z.eqb_refl |].
  split; [cbn; now rewrite Pos.eqb_refl |].
  rewrite rows_updateGlobalTimerDisplay. cbn [engineState rows set_rows].
  now apply findRow_updateRow_exists with (row := row).
Qed.








(** ** Row ids along a session *)

Lemma insertBeforePrevious_perm i rs : Permutation (insertBeforePrevious i rs) rs.
Proof.
  induction rs as [|a tl IH]; [constructor |].
  cbn [insertBeforePrevious].
  destruct (rowId a =? i); [apply Permutation_refl |].
  destruct tl as [|b rest]; [apply Permutation_refl |].
  destruct (rowId b =? i); [apply perm_swap | now apply perm_skip].
Qed.

Lemma insertNextBefore_perm i rs : Permutation (insertNextBefore i rs) rs.
Proof.
  induction rs as [|a tl IH]; [constructor |].
  cbn [insertNextBefore].
  destruct (rowId a =? i).
  - destruct tl as [|b rest]; [apply Permutation_refl | apply perm_swap].
  - now apply perm_skip.
Qed.

Lemma removeRow_ids_In i x rs :
  In x (List.map rowId (removeRow i rs)) -> In x (List.map rowId rs).
Proof.
  induction rs as [|a rs IH]; simpl; [tauto |].
  destruct (rowId a =? i); simpl; [now right | intros [H | H]; auto].
Qed.

Lemma removeRow_ids_NoDup i rs :
  List.NoDup (List.map rowId rs) -> List.NoDup (List.map rowId (removeRow i rs)).
Proof.
  induction rs as [|a rs IH]; simpl; [trivial |].
  intros H. inversion H as [|? ? Hn Hd]; subst.
  destruct (rowId a =? i); [exact Hd |].
  simpl. constructor; [| now apply IH].
  intros Hin. apply Hn. now apply removeRow_ids_In in Hin.
Qed.

Lemma rowCore_ids rs rs' :
  List.map rowCore rs' = List.map rowCore rs -> List.map rowId rs' = List.map rowId rs.
Proof.
  intros H.
  assert (E : forall l, List.map rowId l =
                        List.map (fun c => fst (fst (fst (fst c)))) (List.map rowCore l)).
  { intros l. rewrite List.map_map. reflexivity. }
  now rewrite !E, H.
Qed.

Lemma timerFrame_ids st st' :
  timerFrame st st' ->
  List.map rowId (rows st') = List.map rowId (rows st) /\ nextRowId st' = nextRowId st.
Proof. intros (H & Hn & _). split; [now apply rowCore_ids | exact Hn]. Qed.

(** How an operation changes the list of row ids and the counter: the ids
    are permuted, or one row is removed, with the counter unchanged; or
    the counter's value is appended as a new id and the counter moves
    up by one. *)
Lemma ids_step o st :
  (nextRowId (step o st) = nextRowId st
   /\ (Permutation (List.map rowId (rows (step o st))) (List.map rowId (rows st))
       \/ exists i, List.map rowId (rows (step o st))
                    = List.map rowId (removeRow i (rows st))))
  \/ (nextRowId (step o st) = nextRowId st + 1
      /\ List.map rowId (rows (step o st)) = List.map rowId (rows st) ++ [nextRowId st]).
Proof.
  assert (Hframe : forall st', timerFrame st st' ->
            nextRowId st' = nextRowId st
            /\ (Permutation (List.map rowId (rows st')) (List.map rowId (rows st))
                \/ exists i, List.map rowId (rows st')
                             = List.map rowId (removeRow i (rows st)))).
  { intros st' H. destruct (timerFrame_ids _ _ H) as [H1 H2].
    split; [exact H2 | left; now rewrite H1]. }
  assert (Hsame : nextRowId st = nextRowId st
            /\ (Permutation (List.map rowId (rows st)) (List.map rowId (rows st))
                \/ exists i, List.map rowId (rows st)
                             = List.map rowId (removeRow i (rows st)))).
  { split; [reflexivity | left; apply Permutation_refl]. }
  destruct o as [i | h | i | i | i | c i | form | i | i | i | c | c | i m s];
    cbn [step].
  - left. apply Hframe, timerFrame_startTimer, timerFrame_refl.
  - left. apply Hframe, timerFrame_fire, timerFrame_refl.
  - left. apply Hframe, timerFrame_pauseTimer, timerFrame_refl.
  - left. apply Hframe, timerFrame_resetTimer, timerFrame_refl.
  - left. apply Hframe, timerFrame_timerFinished, timerFrame_refl.
  - left. destruct c; [| exact Hsame].
    rewrite deleteRow_exec. autorewrite with view. cbn [rows nextRowId set_rows].
    split.
    + apply (timerFrame_timerDropped st st i (timerFrame_refl st)).
    + right. now exists i.
  - destruct (String.eqb_spec (newGameName form) "") as [En | Nn].
    { left. rewrite addNewRound_rejected; [exact Hsame | intros [H _]; contradiction]. }
    destruct (String.eqb_spec (newPrompt form) "") as [Ep | Np].
    { left. rewrite addNewRound_rejected; [exact Hsame | intros [_ H]; contradiction]. }
    right. rewrite addNewRound_exec by (split; assumption). cbv zeta.
    cbn [rows nextRowId set_scrolled]. autorewrite with view.
    cbn [rows nextRowId appendRow set_rows set_nextRowId].
    split; [reflexivity |]. rewrite List.map_app. reflexivity.
  - left. destruct (findRow i (rows st)) as [row|] eqn:E.
    2: { rewrite clickDone_no_row by exact E. exact Hsame. }
    rewrite (clickDone_exec i st row E).
    destruct (checked row); autorewrite with view.
    + cbn [modRow rows nextRowId set_rows]. split; [reflexivity |].
      left. now rewrite updateRow_ids.
    + destruct (timerFrame_ids _ _
                  (timerFrame_pauseTimer
                     (modRow i (fun r => with_completed true (with_checked true r)) st)
                     _ i (timerFrame_refl _))) as [H1 H2].
      rewrite H1, H2. cbn [modRow rows nextRowId set_rows]. split; [reflexivity |].
      left. now rewrite updateRow_ids.
  - left. destruct (moveRowUp_exec i st) as [-> | ->]; [exact Hsame |].
    autorewrite with view. cbn [rows nextRowId set_rows]. split; [reflexivity |].
    left. apply Permutation_map, insertBeforePrevious_perm.
  - left. destruct (moveRowDown_exec i st) as [-> | ->]; [exact Hsame |].
    autorewrite with view. cbn [rows nextRowId set_rows]. split; [reflexivity |].
    left. apply Permutation_map, insertNextBefore_perm.
  - left. destruct c; [| exact Hsame].
    rewrite resetAllRounds_exec. cbv zeta. autorewrite with view.
    cbn [rows nextRowId set_rows].
    destruct (timerFrame_ids _ _
                (timerFrame_resetAll (rows st) st st (timerFrame_refl st))) as [H1 H2].
    split; [exact H2 |]. left. rewrite List.map_map.
    rewrite (List.map_ext _ rowId) by reflexivity. now rewrite H1.
  - left. unfold clearSavedRounds. destruct c; exact Hsame.
  - left. cbn [modRow rows nextRowId set_rows]. split; [reflexivity |].
    left. now rewrite updateRow_ids.
Qed.

Lemma nextRowId_step o st : nextRowId st <= nextRowId (step o st).
Proof. destruct (ids_step o st) as [[-> _] | [-> _]]; lia. Qed.

Lemma nextRowId_run ops : forall st, nextRowId st <= nextRowId (run ops st).
Proof.
  unfold run. induction ops as [|o ops IH]; intros st; cbn; [lia |].
  specialize (IH (step o st)). pose proof (nextRowId_step o st). lia.
Qed.

Lemma ids_below_step o st :
  (forall x, In x (List.map rowId (rows st)) -> x < nextRowId st) ->
  forall x, In x (List.map rowId (rows (step o st))) -> x < nextRowId (step o st).
Proof.
  intros H x Hx.
  destruct (ids_step o st) as [[-> [Hp | [i Hi]]] | [-> Hadd]].
  - apply H. eapply Permutation_in; [exact Hp | exact Hx].
  - rewrite Hi in Hx. apply H. now apply removeRow_ids_In in Hx.
  - rewrite Hadd in Hx. apply List.in_app_iff in Hx.
    destruct Hx as [Hx | [<- | []]]; [specialize (H x Hx) |]; lia.
Qed.

Lemma ids_below_run ops : forall st,
  (forall x, In x (List.map rowId (rows st)) -> x < nextRowId st) ->
  forall x, In x (List.map rowId (rows (run ops st))) -> x < nextRowId (run ops st).
Proof.
  unfold run. induction ops as [|o ops IH]; intros st H; cbn; [exact H |].
  apply IH. now apply ids_below_step.
Qed.

Lemma NoDup_ids_step o st :
  (forall x, In x (List.map rowId (rows st)) -> x < nextRowId st) ->
  List.NoDup (List.map rowId (rows st)) ->
  List.NoDup (List.map rowId (rows (step o st))).
Proof.
  intros Hlt Hnd.
  destruct (ids_step o st) as [[_ [Hp | [i Hi]]] | [_ Hadd]].
  - eapply Permutation_NoDup; [apply Permutation_sym; exact Hp | exact Hnd].
  - rewrite Hi. now apply removeRow_ids_NoDup.
  - rewrite Hadd. apply List.NoDup_app; [exact Hnd | constructor; [intros [] | constructor] |].
    intros x Hx [<- | []]. specialize (Hlt _ Hx). lia.
Qed.

(** The row ids after the page has loaded are below the counter. *)
Lemma maxRowId_ge_from rs : forall m,
  m <= fold_left (fun maxId row => if maxId <? rowId row then rowId row else maxId) rs m
  /\ forall r, In r rs ->
       rowId r <= fold_left (fun maxId row => if maxId <? rowId row then rowId row else maxId) rs m.
Proof.
  induction rs as [|a rs IH]; intros m; simpl.
  - split; [lia | contradiction].
  - destruct (IH (if m <? rowId a then rowId a else m)) as [Hm Hin].
    split.
    + destruct (Z.ltb_spec m (rowId a)); lia.
    + intros r [<- | Hr]; [| now apply Hin].
      destruct (Z.ltb_spec m (rowId a)); lia.
Qed.

Lemma rebuildRows_cases es : forall m st,
  (exists rounds, es = List.map RoundEntry rounds)
  \/ exists st', rebuildRows es m st = Thrown st'.
Proof.
  induction es as [|[|round] es IH]; intros m st.
  - left. now exists [].
  - right. now exists st.
  - cbn [rebuildRows]. unfold bind at 1, lift at 1.
    destruct (IH (if m <? r_id round then r_id round else m)
                 (appendRow (rowOfRound round) st)) as [[rounds ->] | [st' E]].
    + left. now exists (round :: rounds).
    + right. exists st'. exact E.
Qed.

Lemma loadRoundsFromStorage_true st st' :
  loadRoundsFromStorage st = Normal true st' ->
  exists rounds,
    rounds <> []
    /\ localStorage st !! STORAGE_KEY = Some (JSON_stringify rounds)
    /\ st' = set_nextRowId (maxIdFrom rounds 0 + 1)
               (set_rows (List.map rowOfRound rounds) st).
Proof.
  intros H.
  destruct (localStorage st !! STORAGE_KEY) as [[| |[|es]]|] eqn:Els;
    try (unfold loadRoundsFromStorage, try_catch, bind, getItem in H;
         rewrite Els in H; cbn in H; discriminate H).
  destruct es as [|e es].
  { unfold loadRoundsFromStorage, try_catch, bind, getItem in H.
    rewrite Els in H. cbn in H. discriminate H. }
  destruct (rebuildRows_cases (e :: es) 0 (set_rows [] st)) as [[rounds E] | [st1 E]].
  - exists rounds.
    assert (Hne : rounds <> []) by (intros ->; discriminate E).
    split; [exact Hne |]. split; [now rewrite E |].
    rewrite E in Els.
    rewrite (loadRoundsFromStorage_rounds st rounds Hne Els) in H.
    now injection H as <-.
  - unfold loadRoundsFromStorage, try_catch, bind, getItem in H.
    rewrite Els in H. cbn [JSON_parse ret] in H. unfold lift at 1 in H.
    rewrite E in H. discriminate H.
Qed.

Lemma pageLoad_eq defaults stored writable :
  pageLoad defaults stored writable =
  match loadRoundsFromStorage (freshPage defaults stored writable) with
  | Normal true st' => updateProgress st'
  | Normal false st' => updateProgress (set_nextRowId (maxRowId (rows st') + 1) st')
  | Thrown st' => st'
  end.
Proof.
  unfold pageLoad, exec, DOMContentLoaded. unfold bind at 1.
  destruct (loadRoundsFromStorage (freshPage defaults stored writable)) as [[|] st'|st'];
    reflexivity.
Qed.

Lemma pageLoad_ids_below defaults stored writable :
  forall x, In x (List.map rowId (rows (pageLoad defaults stored writable))) ->
            x < nextRowId (pageLoad defaults stored writable).
Proof.
  intros x. rewrite pageLoad_eq.
  destruct (loadRoundsFromStorage_total (freshPage defaults stored writable))
    as (b & st' & E).
  rewrite E. destruct b; rewrite updateProgress_rows, updateProgress_nextRowId.
  - apply loadRoundsFromStorage_true in E. destruct E as (rounds & _ & _ & ->).
    cbn [rows nextRowId set_nextRowId set_rows]. rewrite List.map_map.
    intros Hx. apply List.in_map_iff in Hx. destruct Hx as (r & <- & Hr).
    destruct (maxIdFrom_ge rounds 0) as [_ H]. specialize (H r Hr).
    change (rowId (rowOfRound r)) with (r_id r). lia.
  - cbn [rows nextRowId set_nextRowId].
    intros Hx. apply List.in_map_iff in Hx. destruct Hx as (r & <- & Hr).
    destruct (maxRowId_ge_from (rows st') 0) as [_ H]. specialize (H r Hr).
    unfold maxRowId. lia.
Qed.

Lemma rows_after_add form st :
  validForm form ->
  rows (step (OpAdd form) st) =
  rows st ++ [mkRow (nextRowId st) (Some (orZero (newTimerMin form)))
                    (Some (orZero (newTimerSec form)))
                    false false false false freshDisplay].
Proof.
  intros Hv. cbn [step]. rewrite addNewRound_exec by exact Hv. cbv zeta.
  cbn [rows set_scrolled]. autorewrite with view. reflexivity.
Qed.

(** C8: after a snapshot whose highest id is [M] (not negative) has been
    loaded, the counter is [M + 1] and the next round added gets the id
    [M + 1]; and in a session, whatever operations are run, a round
    that is added gets the current value of the counter as its id, which
    is above the id of every round that was in the table at any earlier
    moment of the session. *)
Theorem ids_never_reused :
  (forall defaults stored writable rounds M form,
      stored !! STORAGE_KEY = Some (JSON_stringify rounds) ->
      In M (List.map r_id rounds) ->
      (forall r, In r rounds -> r_id r <= M) ->
      0 <= M ->
      validForm form ->
      nextRowId (pageLoad defaults stored writable) = M + 1
      /\ List.map rowId (rows (step (OpAdd form) (pageLoad defaults stored writable)))
         = List.map r_id rounds ++ [M + 1])
  /\ (forall defaults stored writable ops1 ops2 form r,
         validForm form ->
         In r (rows (run ops1 (pageLoad defaults stored writable))) ->
         let st2 := run ops2 (run ops1 (pageLoad defaults stored writable)) in
         List.map rowId (rows (step (OpAdd form) st2))
         = List.map rowId (rows st2) ++ [nextRowId st2]
         /\ rowId r < nextRowId st2).
Proof.
  split.
  - intros defaults stored writable rounds M form Hls HM Hmax H0 Hv.
    assert (Hne : rounds <> []) by (intros ->; destruct HM).
    assert (Hmaxid : maxIdFrom rounds 0 = M).
    { destruct (maxIdFrom_ge rounds 0) as [Hz Hall].
      apply List.in_map_iff in HM. destruct HM as (r & <- & Hr).
      specialize (Hall r Hr).
      destruct (maxIdFrom_attained rounds 0) as [E | (r' & Hr' & E)].
      - lia.
      - specialize (Hmax r' Hr'). lia. }
    assert (Hnext : nextRowId (pageLoad defaults stored writable) = M + 1).
    { rewrite (pageLoad_rounds _ _ _ rounds Hne Hls), updateProgress_nextRowId.
      cbn [nextRowId set_nextRowId]. now rewrite Hmaxid. }
    split; [exact Hnext |].
    rewrite rows_after_add by exact Hv. rewrite List.map_app, Hnext.
    cbn [List.map rowId]. f_equal.
    rewrite (pageLoad_rounds _ _ _ rounds Hne Hls), updateProgress_rows.
    cbn [rows set_nextRowId set_rows]. rewrite List.map_map. reflexivity.
  - intros defaults stored writable ops1 ops2 form r Hv Hr st2. split.
    + rewrite rows_after_add by exact Hv. now rewrite List.map_app.
    + pose proof (ids_below_run ops1 _ (pageLoad_ids_below defaults stored writable)
                    (rowId r) (List.in_map rowId _ _ Hr)) as H1.
      pose proof (nextRowId_run ops2 (run ops1 (pageLoad defaults stored writable))) as H2.
      subst st2. lia.
Qed.

(** A saved page with highest id 5 is reloaded and a round added: it gets
    id 6; after round 6 is deleted the next round gets id 7. *)
Lemma ids_never_reused_witness :
  let form := mkForm "Charades" "Act it out" (Some 1) None in
  let stored := localStorage (exec saveRoundsToStorage demoPage) in
  nextRowId (pageLoad [] stored true) = 6
  /\ List.map rowId (rows (step (OpAdd form) (pageLoad [] stored true)))
     = [1; 2; 3; 4; 5; 6]
  /\ List.map rowId
       (rows (step (OpAdd form)
                (run [OpDelete true 6] (run [OpAdd form] (pageLoad [] stored true)))))
     = [1; 2; 3; 4; 5; 7].
Proof.
  cbv zeta.
  destruct ids_never_reused as [Hload Hsession].
  assert (Hv : validForm (mkForm "Charades" "Act it out" (Some 1) None)).
  { split; discriminate. }
  destruct (Hload [] (localStorage (exec saveRoundsToStorage demoPage)) true demoDefaults 5
              (mkForm "Charades" "Act it out" (Some 1) None)) as [Hn Hrows].
  - vm_compute. reflexivity.
  - vm_compute. tauto.
  - intros r Hr. vm_compute in Hr.
    repeat (destruct Hr as [<- | Hr]; [vm_compute; discriminate |]). destruct Hr.
  - lia.
  - exact Hv.
  - split; [exact Hn |]. split; [exact Hrows |].
    destruct (Hsession [] (localStorage (exec saveRoundsToStorage demoPage)) true
                [OpAdd (mkForm "Charades" "Act it out" (Some 1) None)]
                [OpDelete true 6]
                (mkForm "Charades" "Act it out" (Some 1) None)
                (mkRow 6 (Some 1) (Some 0) false false false false freshDisplay)
                Hv) as [Hadd _].
    + vm_compute. tauto.
    + rewrite Hadd. vm_compute. reflexivity.
Defined.

(** ** The page after loading *)

Lemma rebuildRows_appends es : forall m st,
  exists rounds,
    match rebuildRows es m st with
    | Normal _ st' | Thrown st' =>
        st' = set_rows (rows st ++ List.map rowOfRound rounds) st
    end.
Proof.
  induction es as [|[|round] es IH]; intros m st.
  - exists []. cbn. rewrite app_nil_r. now destruct st.
  - exists []. cbn. rewrite app_nil_r. now destruct st.
  - cbn [rebuildRows]. unfold bind at 1, lift at 1. cbv beta iota zeta.
    destruct (IH (if m <? r_id round then r_id round else m)
                 (appendRow (rowOfRound round) st)) as [rounds H].
    exists (round :: rounds).
    destruct (rebuildRows es _ _) as [m' st'|st']; subst st';
      unfold appendRow, set_rows; cbn; now rewrite <- app_assoc.
Qed.

Lemma loadRoundsFromStorage_effect st :
  match loadRoundsFromStorage st with
  | Normal _ st' | Thrown st' =>
      timers st' = timers st /\ intervals st' = intervals st
      /\ (rows st' = rows st \/ exists rounds, rows st' = List.map rowOfRound rounds)
  end.
Proof.
  unfold loadRoundsFromStorage, try_catch, bind, getItem.
  destruct (localStorage st !! STORAGE_KEY) as [[| |[|es]]|];
    try (cbn; split; [reflexivity | split; [reflexivity | now left]]).
  destruct es as [|e es];
    [cbn; split; [reflexivity | split; [reflexivity | now left]] |].
  cbn [JSON_parse ret]. cbv beta iota. unfold lift at 1. cbv beta iota.
  destruct (rebuildRows_appends (e :: es) 0 (set_rows [] st)) as [rounds H].
  destruct (rebuildRows (e :: es) 0 (set_rows [] st)) as [m st'|st'];
    subst st'; cbn; (split; [reflexivity |]); (split; [reflexivity |]);
    right; now exists rounds.
Qed.

Lemma pageLoad_fresh defaults stored writable :
  timers (pageLoad defaults stored writable) = []
  /\ intervals (pageLoad defaults stored writable) = []
  /\ exists rounds, rows (pageLoad defaults stored writable) = List.map rowOfRound rounds.
Proof.
  rewrite pageLoad_eq.
  pose proof (loadRoundsFromStorage_effect (freshPage defaults stored writable)) as H.
  assert (Hfresh : forall st',
            rows st' = rows (freshPage defaults stored writable)
            \/ (exists rounds, rows st' = List.map rowOfRound rounds) ->
            exists rounds, rows st' = List.map rowOfRound rounds).
  { intros st' [E | E]; [exists defaults; exact E | exact E]. }
  destruct (loadRoundsFromStorage (freshPage defaults stored writable)) as [[|] st'|st'];
    destruct H as (Ht & Hi & Hr);
    autorewrite with view; cbn [timers intervals rows set_nextRowId];
    rewrite ?updateProgress_rows; cbn [rows set_nextRowId];
    (split; [exact Ht |]); (split; [exact Hi |]); now apply Hfresh.
Qed.

(** ** The timer invariant *)

Lemma timersAll_setTimer (P : Timer -> Prop) i x ts :
  timersAll P ts -> P x -> timersAll P (setTimer i x ts).
Proof.
  intros H Hx k t. rewrite getTimer_setTimer.
  destruct (k =? i); [now intros [= <-] | apply H].
Qed.

Lemma timersAll_deleteTimer (P : Timer -> Prop) i ts :
  timersAll P ts -> timersAll P (deleteTimer i ts).
Proof.
  intros H k t. rewrite getTimer_deleteTimer.
  destruct (k =? i); [discriminate | apply H].
Qed.

Lemma timers_timerDropped i st :
  timers (timerDropped i st) = deleteTimer i (timers st).
Proof.
  unfold timerDropped. destruct (getTimer i (timers st)) as [t|] eqn:E.
  - now destruct (intervalId t).
  - clear -E. unfold deleteTimer. induction (timers st) as [|[k t] ts IH]; [reflexivity |].
    cbn in *. destruct (Z.eqb_spec k i); [discriminate |]. cbn. now rewrite <- IH.
Qed.

Lemma timersHaveRows_ids st :
  timersHaveRows st <->
  forall k t, getTimer k (timers st) = Some t -> In k (List.map rowId (rows st)).
Proof.
  unfold timersHaveRows. split; intros H k t Hk; specialize (H k t Hk).
  - destruct (findRow k (rows st)) as [r|] eqn:E; [| contradiction].
    apply findRow_Some in E. destruct E as [Hin <-]. now apply List.in_map.
  - intros E. apply findRow_None in E. contradiction.
Qed.

Lemma Forall_rowCore (Q : Row -> Prop) rs rs' :
  (forall r r', rowCore r = rowCore r' -> Q r -> Q r') ->
  List.map rowCore rs' = List.map rowCore rs ->
  Forall Q rs -> Forall Q rs'.
Proof.
  intros HQ. revert rs'. induction rs as [|a rs IH]; intros [|a' rs'] E HF;
    try discriminate; [constructor |].
  simpl in E.
  assert (Ea : rowCore a = rowCore a') by congruence.
  assert (Ers : List.map rowCore rs' = List.map rowCore rs) by congruence.
  inversion HF; subst.
  constructor; [now apply (HQ a) | now apply IH].
Qed.

Lemma inputsNonNegative_core rs rs' :
  List.map rowCore rs' = List.map rowCore rs ->
  inputsNonNegative rs -> inputsNonNegative rs'.
Proof.
  apply Forall_rowCore. intros r r' E. unfold getTimerSeconds, rowCore in *.
  assert (E1 : timer_min r = timer_min r') by congruence.
  assert (E2 : timer_sec r = timer_sec r') by congruence.
  now rewrite E1, E2.
Qed.

(** What one step of the engine does to the [timers] object. *)
Lemma engine_timers o st :
  match o with
  | OpStart _ | OpFire _ | OpPause _ | OpReset _ | OpFinish _ => True
  | _ => False
  end ->
  timersHaveRows st ->
  timers (step o st) = timers st
  \/ exists i x, In i (List.map rowId (rows st))
                 /\ timers (step o st) = setTimer i x (timers st)
                 /\ timerWritten i x st.
Proof.
  intros Ho Hrows.
  assert (Hin : forall i row, findRow i (rows st) = Some row ->
                              In i (List.map rowId (rows st))).
  { intros i row H. apply findRow_Some in H. destruct H as [H <-].
    now apply List.in_map. }
  destruct o as [i | h | i | i | i | c i | form | i | i | i | c | c | i m s];
    try contradiction; cbn [step].
  - (* start *)
    destruct (findRow i (rows st)) as [row|] eqn:Hrow.
    2: { left. rewrite startTimer_noop; [reflexivity | now left]. }
    destruct (match getTimer i (timers st) with
              | Some t => isRunning t
              | None => false
              end) eqn:Hrun.
    { left. rewrite startTimer_noop; [reflexivity |].
      right. destruct (getTimer i (timers st)) as [t|]; [| discriminate].
      now exists t. }
    right. pose proof (startTimer_eq i row st Hrow Hrun) as E. cbv zeta in E.
    rewrite E. clear E.
    destruct (Z.leb_spec (remainingSeconds (timerAtStart row (getTimer i (timers st)))) 0)
      as [Hle | Hgt].
    + exists i, (timerAtStart row (getTimer i (timers st))).
      split; [now apply (Hin i row) |]. split; [reflexivity |].
      unfold timerAtStart in *.
      destruct (getTimer i (timers st)) as [t|] eqn:Et.
      * destruct (remainingSeconds t =? 0).
        -- right; right; right. exists row.
           split; [now apply findRow_Some in Hrow |]. now split.
        -- right; left. exists t. auto.
      * right; right; right. exists row.
        split; [now apply findRow_Some in Hrow |]. now split.
    + eexists i, _. split; [now apply (Hin i row) |].
      split; [reflexivity |]. right; right; left. eexists _, _. split; [reflexivity | lia].
  - (* fire *)
    unfold fire. destruct (List.find _ (intervals st)) as [[h' j]|]; [| now left].
    cbn [snd].
    destruct (getTimer j (timers st)) as [t|] eqn:Et.
    2: { left. now rewrite tick_noop. }
    destruct (findRow j (rows st)) as [row|] eqn:Hrow.
    2: { exfalso. exact (Hrows j t Et Hrow). }
    right. destruct (Z.leb_spec (remainingSeconds t - 1) 0) as [Hle | Hgt].
    + rewrite (tick_expires j t row st Et Hrow Hle).
      rewrite timers_updateGlobalTimerDisplay. cbn [engineState timers set_rows set_timers].
      eexists j, _. split; [now apply (Hin j row) |]. split; [reflexivity | now left].
    + rewrite (tick_running j t st Et Hgt).
      rewrite timers_updateGlobalTimerDisplay. cbn [engineState timers set_rows set_timers].
      eexists j, _. split; [now apply (Hin j row) |]. split; [reflexivity |].
      right; left. exists t. split; [exact Et |]. right; left. now split.
  - (* pause *)
    destruct (getTimer i (timers st)) as [t|] eqn:Et.
    2: { left. rewrite pauseTimer_noop; [reflexivity | now left]. }
    destruct (findRow i (rows st)) as [row|] eqn:Hrow.
    2: { left. rewrite pauseTimer_noop; [reflexivity | now right]. }
    right. rewrite (pauseTimer_eq i t row st Et Hrow).
    rewrite timers_updateGlobalTimerDisplay. cbn [engineState timers set_rows set_timers].
    eexists i, _. split; [now apply (Hin i row) |]. split; [reflexivity |].
    right; left. exists t. split; [exact Et |]. now left.
  - (* reset *)
    destruct (findRow i (rows st)) as [row|] eqn:Hrow.
    2: { left. unfold resetTimer. now rewrite Hrow. }
    right. rewrite (resetTimer_eq i row st Hrow).
    rewrite timers_updateGlobalTimerDisplay. cbn [engineState timers set_rows set_timers].
    eexists i, _. split; [now apply (Hin i row) |]. split; [reflexivity | now left].
  - (* finish *)
    destruct (getTimer i (timers st)) as [t|] eqn:Et.
    2: { left. rewrite timerFinished_noop; [reflexivity | now left]. }
    destruct (findRow i (rows st)) as [row|] eqn:Hrow.
    2: { left. rewrite timerFinished_noop; [reflexivity | now right]. }
    right. rewrite (timerFinished_eq i t row st Et Hrow).
    rewrite timers_updateGlobalTimerDisplay. cbn [engineState timers set_rows set_timers].
    eexists i, _. split; [now apply (Hin i row) |]. split; [reflexivity | now left].
Qed.

Lemma findRow_removeRow i k rs :
  k <> i -> findRow k (removeRow i rs) = findRow k rs.
Proof.
  intros Hk. induction rs as [|a rs IH]; simpl; [reflexivity |].
  destruct (Z.eqb_spec (rowId a) i) as [E | N].
  - destruct (Z.eqb_spec (rowId a) k); [congruence | reflexivity].
  - simpl. now rewrite IH.
Qed.

Lemma Forall_removeRow (Q : Row -> Prop) i rs :
  Forall Q rs -> Forall Q (removeRow i rs).
Proof.
  induction 1 as [|a rs Ha Hrs IH]; simpl; [constructor |].
  destruct (rowId a =? i); [exact Hrs | now constructor].
Qed.

Lemma Forall_updateRow (Q : Row -> Prop) i f rs :
  (forall r, Q r -> Q (f r)) -> Forall Q rs -> Forall Q (updateRow i f rs).
Proof.
  intros Hf. induction 1 as [|a rs Ha Hrs IH]; simpl; [constructor |].
  destruct (rowId a =? i); constructor; auto.
Qed.

Section SessionInvariant.
Variable P : Timer -> Prop.
Variable Q : Row -> Prop.
Hypothesis Q_inputs :
  forall r r', timer_min r = timer_min r' -> timer_sec r = timer_sec r' -> Q r -> Q r'.
Hypothesis P_zero : P (mkTimer None 0 false).
Hypothesis P_pause : forall t, P t -> P (mkTimer None (remainingSeconds t) false).
Hypothesis P_tick :
  forall t, P t -> 0 < remainingSeconds t - 1 ->
            P (mkTimer (intervalId t) (remainingSeconds t - 1) (isRunning t)).
Hypothesis P_run : forall h r, 0 < r -> P (mkTimer (Some h) r true).
Hypothesis P_init :
  forall row, Q row -> getTimerSeconds row <= 0 ->
              P (mkTimer None (getTimerSeconds row) false).

Lemma sessionInv_same st st' :
  List.map rowCore (rows st') = List.map rowCore (rows st) ->
  timers st' = timers st ->
  sessionInv P Q st -> sessionInv P Q st'.
Proof.
  intros Hr Ht (H1 & H2 & H3). split; [| split].
  - apply timersHaveRows_ids. rewrite Ht, (rowCore_ids _ _ Hr).
    now apply timersHaveRows_ids.
  - revert H2. apply Forall_rowCore; [| exact Hr].
    intros r r' E. unfold rowCore in E. apply Q_inputs; congruence.
  - now rewrite Ht.
Qed.

Lemma sessionInv_engine o st :
  match o with
  | OpStart _ | OpFire _ | OpPause _ | OpReset _ | OpFinish _ => True
  | _ => False
  end ->
  timerFrame st (step o st) ->
  sessionInv P Q st -> sessionInv P Q (step o st).
Proof.
  intros Ho (Hcore & _) (H1 & H2 & H3).
  destruct (engine_timers o st Ho H1) as [E | (i & x & Hi & E & Hw)].
  - now apply (sessionInv_same st).
  - split; [| split].
    + apply timersHaveRows_ids. rewrite E, (rowCore_ids _ _ Hcore).
      intros k t. rewrite getTimer_setTimer.
      destruct (Z.eqb_spec k i) as [-> | N]; [intros _; exact Hi |].
      now apply timersHaveRows_ids.
    + revert H2. apply Forall_rowCore; [| exact Hcore].
      intros r r' E'. unfold rowCore in E'. apply Q_inputs; congruence.
    + rewrite E. apply timersAll_setTimer; [exact H3 |].
      destruct Hw as [-> | [(t & Ht & [-> | [[-> Hpos] | ->]]) | [(h & r & -> & Hr)
                               | (row & Hrow & Hle & ->)]]].
      * exact P_zero.
      * apply P_pause. exact (H3 i t Ht).
      * apply P_tick; [exact (H3 i t Ht) | exact Hpos].
      * exact (H3 i t Ht).
      * now apply P_run.
      * apply P_init; [| exact Hle].
        rewrite List.Forall_forall in H2. now apply H2.
Qed.

Lemma sessionInv_resetAll rs : forall st,
  sessionInv P Q st ->
  sessionInv P Q (fold_left (fun s row => resetTimer (rowId row) s) rs st).
Proof.
  induction rs as [|a rs IH]; intros st H; simpl; [exact H |].
  apply IH. apply (sessionInv_engine (OpReset (rowId a)) st I); [| exact H].
  apply timerFrame_resetTimer, timerFrame_refl.
Qed.

Lemma sessionInv_modRow i f st :
  (forall r, rowId (f r) = rowId r) ->
  (forall r, Q r -> Q (f r)) ->
  sessionInv P Q st -> sessionInv P Q (modRow i f st).
Proof.
  intros Hid HQ (H1 & H2 & H3). split; [| split].
  - apply timersHaveRows_ids. cbn [modRow rows timers set_rows].
    rewrite updateRow_ids by exact Hid. now apply timersHaveRows_ids.
  - cbn [modRow rows set_rows]. now apply Forall_updateRow.
  - exact H3.
Qed.

Lemma sessionInv_perm rs st :
  Permutation rs (rows st) ->
  sessionInv P Q st -> sessionInv P Q (set_rows rs st).
Proof.
  intros Hp (H1 & H2 & H3). split; [| split].
  - apply timersHaveRows_ids. cbn [rows timers set_rows].
    intros k t Hk. apply (Permutation_in k (Permutation_sym (Permutation_map rowId Hp))).
    revert k t Hk. now apply timersHaveRows_ids.
  - cbn [rows set_rows]. rewrite List.Forall_forall in *.
    intros r Hr. apply H2. eapply Permutation_in; [exact Hp | exact Hr].
  - exact H3.
Qed.

(** Every operation keeps the invariant. *)
Lemma sessionInv_step o st :
  opKeeps Q o -> sessionInv P Q st -> sessionInv P Q (step o st).
Proof.
  intros Hok Hinv.
  assert (Hview : forall st1 st2,
            rows st2 = rows st1 -> timers st2 = timers st1 ->
            sessionInv P Q st1 -> sessionInv P Q st2).
  { intros st1 st2 Hr Ht. apply sessionInv_same; [now rewrite Hr | exact Ht]. }
  destruct o as [i | h | i | i | i | c i | form | i | i | i | c | c | i m s].
  - apply sessionInv_engine; [exact I | | exact Hinv].
    apply timerFrame_startTimer, timerFrame_refl.
  - apply sessionInv_engine; [exact I | | exact Hinv].
    apply timerFrame_fire, timerFrame_refl.
  - apply sessionInv_engine; [exact I | | exact Hinv].
    apply timerFrame_pauseTimer, timerFrame_refl.
  - apply sessionInv_engine; [exact I | | exact Hinv].
    apply timerFrame_resetTimer, timerFrame_refl.
  - apply sessionInv_engine; [exact I | | exact Hinv].
    apply timerFrame_timerFinished, timerFrame_refl.
  - cbn [step]. destruct c; [| exact Hinv]. rewrite deleteRow_exec.
    apply (Hview (set_rows (removeRow i (rows st)) (timerDropped i st)));
      [now autorewrite with view | now autorewrite with view |].
    destruct Hinv as (H1 & H2 & H3). split; [| split].
    + intros k t. cbn [rows timers set_rows]. rewrite timers_timerDropped.
      rewrite getTimer_deleteTimer.
      destruct (Z.eqb_spec k i) as [-> | N]; [discriminate |].
      intros Hk. rewrite findRow_removeRow by exact N. exact (H1 k t Hk).
    + cbn [rows set_rows]. now apply Forall_removeRow.
    + cbn [timers set_rows]. rewrite timers_timerDropped.
      now apply timersAll_deleteTimer.
  - cbn [step].
    destruct (String.eqb_spec (newGameName form) "") as [En | Nn].
    { rewrite addNewRound_rejected; [exact Hinv | intros [H _]; contradiction]. }
    destruct (String.eqb_spec (newPrompt form) "") as [Ep | Np].
    { rewrite addNewRound_rejected; [exact Hinv | intros [_ H]; contradiction]. }
    rewrite addNewRound_exec by (split; assumption). cbv zeta.
    match goal with
    | |- sessionInv P Q (set_scrolled _ (exec saveRoundsToStorage (updateProgress ?x))) =>
        apply (Hview x); [cbn [rows set_scrolled]; now autorewrite with view
                         | cbn [timers set_scrolled]; now autorewrite with view |]
    end.
    destruct Hinv as (H1 & H2 & H3). split; [| split].
    + apply timersHaveRows_ids. cbn [rows timers appendRow set_rows set_nextRowId].
      intros k t Hk. rewrite List.map_app. apply List.in_or_app. left.
      revert k t Hk. now apply timersHaveRows_ids.
    + cbn [rows appendRow set_rows set_nextRowId].
      apply List.Forall_app. split; [exact H2 |]. constructor; [apply Hok | constructor].
    + exact H3.
  - cbn [step]. destruct (findRow i (rows st)) as [row|] eqn:E.
    2: { now rewrite clickDone_no_row. }
    rewrite (clickDone_exec i st row E). destruct (checked row).
    + apply (Hview (modRow i (fun r => with_completed false (with_checked false r)) st));
        [now autorewrite with view | now autorewrite with view |].
      apply sessionInv_modRow; [reflexivity | | exact Hinv].
      intros r. now apply Q_inputs.
    + apply (Hview (pauseTimer i
               (modRow i (fun r => with_completed true (with_checked true r)) st)));
        [now autorewrite with view | now autorewrite with view |].
      apply (sessionInv_engine (OpPause i) _ I);
        [apply timerFrame_pauseTimer, timerFrame_refl |].
      apply sessionInv_modRow; [reflexivity | | exact Hinv].
      intros r. now apply Q_inputs.
  - cbn [step]. destruct (moveRowUp_exec i st) as [-> | ->]; [exact Hinv |].
    apply (Hview (set_rows (insertBeforePrevious i (rows st)) st));
      [now autorewrite with view | now autorewrite with view |].
    apply sessionInv_perm; [apply insertBeforePrevious_perm | exact Hinv].
  - cbn [step]. destruct (moveRowDown_exec i st) as [-> | ->]; [exact Hinv |].
    apply (Hview (set_rows (insertNextBefore i (rows st)) st));
      [now autorewrite with view | now autorewrite with view |].
    apply sessionInv_perm; [apply insertNextBefore_perm | exact Hinv].
  - cbn [step]. destruct c; [| exact Hinv]. rewrite resetAllRounds_exec. cbv zeta.
    set (st1 := fold_left (fun s row => resetTimer (rowId row) s) (rows st) st).
    apply (Hview (set_rows (List.map (fun r => with_completed false (with_checked false r))
                                     (rows st1)) st1));
      [now autorewrite with view | now autorewrite with view |].
    destruct (sessionInv_resetAll (rows st) st Hinv) as (H1 & H2 & H3). fold st1 in H1, H2, H3.
    split; [| split].
    + apply timersHaveRows_ids. cbn [rows timers set_rows].
      rewrite List.map_map. rewrite (List.map_ext _ rowId) by reflexivity.
      now apply timersHaveRows_ids.
    + cbn [rows set_rows]. apply List.Forall_map.
      eapply List.Forall_impl; [| exact H2]. intros r. now apply Q_inputs.
    + exact H3.
  - cbn [step]. unfold clearSavedRounds. destruct c; [| exact Hinv].
    now apply (Hview st).
  - cbn [step]. apply sessionInv_modRow; [reflexivity | | exact Hinv].
    intros r _. apply Hok.
Qed.

Lemma sessionInv_run ops : forall st,
  Forall (opKeeps Q) ops -> sessionInv P Q st -> sessionInv P Q (run ops st).
Proof.
  unfold run. induction ops as [|o ops IH]; intros st Hok H; cbn; [exact H |].
  inversion Hok; subst. apply IH; [assumption |]. now apply sessionInv_step.
Qed.
End SessionInvariant.

Lemma sessionInv_pageLoad (P : Timer -> Prop) (Q : Row -> Prop) defaults stored writable :
  Forall Q (rows (pageLoad defaults stored writable)) ->
  sessionInv P Q (pageLoad defaults stored writable).
Proof.
  intros HQ. destruct (pageLoad_fresh defaults stored writable) as (Ht & _ & _).
  split; [| split; [exact HQ |]].
  - intros k t. rewrite Ht. discriminate.
  - intros k t. rewrite Ht. discriminate.
Qed.

Lemma configuresNonNegative_keeps o :
  configuresNonNegative o = true -> opKeeps (fun r => 0 <= getTimerSeconds r) o.
Proof.
  destruct o; cbn; trivial; intros H; apply Z.leb_le in H; intros; exact H.
Qed.

Lemma opKeeps_any ops : Forall (opKeeps (fun _ => True)) ops.
Proof.
  induction ops as [|o ops IH]; constructor; [| exact IH].
  destruct o; cbn; trivial.
Qed.

(** C3, as the specification states it, fails: nothing rejects a negative
    number in a timer field.  With [-1] typed into the minutes of round 1,
    start stores [-60] in the timer before its [<= 0] guard; the next save
    persists the field, so that after a reload a single start, with nothing
    typed, leaves the same negative timer. *)
Lemma negative_field_gives_negative_timer :
  getTimer 1 (timers (run [OpEdit 1 (Some (-1)) (Some 0); OpStart 1] demoPage))
  = Some (mkTimer None (-60) false)
  /\ getTimer 1
       (timers
          (run [OpStart 1]
             (pageLoad demoDefaults
                (localStorage
                   (run [OpEdit 1 (Some (-1)) (Some 0); OpClickDone 2] demoPage))
                true)))
     = Some (mkTimer None (-60) false)
  /\ ~ timersAll timerSound
         (timers (run [OpEdit 1 (Some (-1)) (Some 0); OpStart 1] demoPage))
  /\ ~ timersAll timerSound
         (timers
            (run [OpStart 1]
               (pageLoad demoDefaults
                  (localStorage
                     (run [OpEdit 1 (Some (-1)) (Some 0); OpClickDone 2] demoPage))
                  true))).
Proof.
  assert (H1 : getTimer 1
                 (timers (run [OpEdit 1 (Some (-1)) (Some 0); OpStart 1] demoPage))
               = Some (mkTimer None (-60) false)) by (vm_compute; reflexivity).
  assert (H2 : getTimer 1
                 (timers
                    (run [OpStart 1]
                       (pageLoad demoDefaults
                          (localStorage
                             (run [OpEdit 1 (Some (-1)) (Some 0); OpClickDone 2] demoPage))
                          true)))
               = Some (mkTimer None (-60) false)) by (vm_compute; reflexivity).
  split; [exact H1 |]. split; [exact H2 |]. split.
  - intros H. destruct (H 1 _ H1) as [Hneg _]. cbn in Hneg. lia.
  - intros H. destruct (H 1 _ H2) as [Hneg _]. cbn in Hneg. lia.
Qed.

(** C3 (amended): in every state reached from a page load by any sequence
    of operations (start, tick, pause, reset, finish and delete among
    them), a timer with [remainingSeconds = 0] is not running and a
    running timer has [remainingSeconds > 0]; every timer has
    [remainingSeconds >= 0] provided that no negative duration is
    configured: none in the rows of the loaded page and none typed into a
    timer field or into the form afterwards. *)
Theorem timers_stay_sound defaults stored writable ops k t :
  getTimer k (timers (run ops (pageLoad defaults stored writable))) = Some t ->
  (remainingSeconds t = 0 -> isRunning t = false)
  /\ (isRunning t = true -> 0 < remainingSeconds t)
  /\ (Forall (fun r => 0 <= getTimerSeconds r) (rows (pageLoad defaults stored writable)) ->
      Forall (fun o => configuresNonNegative o = true) ops ->
      0 <= remainingSeconds t).
Proof.
  intros Ht.
  assert (Hany : sessionInv
                   (fun t => (remainingSeconds t = 0 -> isRunning t = false)
                             /\ (isRunning t = true -> 0 < remainingSeconds t))
                   (fun _ => True)
                   (run ops (pageLoad defaults stored writable))).
  { apply sessionInv_run.
    - trivial.
    - split; [reflexivity | discriminate].
    - intros t0 _. split; [reflexivity | discriminate].
    - intros t0 [_ Hrun] Hpos. cbn [remainingSeconds isRunning]. split; [lia |].
      intros _. exact Hpos.
    - intros h r Hr. cbn [remainingSeconds isRunning]. split; [lia |].
      intros _. exact Hr.
    - intros row _ _. split; [reflexivity | discriminate].
    - apply opKeeps_any.
    - apply sessionInv_pageLoad. apply List.Forall_forall. trivial. }
  destruct Hany as (_ & _ & Hall). destruct (Hall k t Ht) as [Hzero Hrun].
  split; [exact Hzero |]. split; [exact Hrun |].
  intros Hrows Hops.
  assert (Hinv : sessionInv timerSound (fun r => 0 <= getTimerSeconds r)
                   (run ops (pageLoad defaults stored writable))).
  { apply sessionInv_run.
    - intros r r' Em Es. unfold getTimerSeconds. now rewrite Em, Es.
    - split; [cbn; lia | reflexivity].
    - intros t0 [H0 _]. split; [exact H0 | reflexivity].
    - intros t0 _ Hpos. unfold timerSound. cbn [remainingSeconds isRunning]. split; lia.
    - intros h r Hr. unfold timerSound. cbn [remainingSeconds isRunning]. split; lia.
    - intros row H0 Hle. split; [exact H0 | reflexivity].
    - eapply List.Forall_impl; [| exact Hops]. apply configuresNonNegative_keeps.
    - now apply sessionInv_pageLoad. }
  destruct Hinv as (_ & _ & H). exact (proj1 (H k t Ht)).
Qed.

(** A session on the demo page that starts, ticks, pauses, resets,
    finishes and deletes: the timer of round 2, paused after one tick,
    holds 14 seconds; and one in which [-1] is typed into the minutes of
    round 1 before its start: the timer holds [-60] seconds, not
    running. *)
Lemma timers_stay_sound_witness :
  (getTimer 2
     (timers (run [OpStart 2; OpFire 1; OpPause 2; OpStart 1; OpFire 2; OpFinish 1;
                   OpReset 4; OpDelete true 3] demoPage))
   = Some (mkTimer None 14 false)
   /\ Forall (fun r => 0 <= getTimerSeconds r) (rows demoPage)
   /\ 0 <= 14)
  /\ (getTimer 1 (timers (run [OpEdit 1 (Some (-1)) (Some 0); OpStart 1] demoPage))
      = Some (mkTimer None (-60) false)
      /\ (-60 = 0 -> false = false)
      /\ (false = true -> 0 < -60)).
Proof.
  assert (H1 : Forall (fun r => 0 <= getTimerSeconds r) (rows demoPage)).
  { vm_compute. repeat constructor; discriminate. }
  assert (H2 : Forall (fun o => configuresNonNegative o = true)
                 [OpStart 2; OpFire 1; OpPause 2; OpStart 1; OpFire 2; OpFinish 1;
                  OpReset 4; OpDelete true 3]).
  { repeat constructor. }
  assert (H3 : getTimer 2
                 (timers (run [OpStart 2; OpFire 1; OpPause 2; OpStart 1; OpFire 2;
                               OpFinish 1; OpReset 4; OpDelete true 3] demoPage))
               = Some (mkTimer None 14 false)).
  { vm_compute. reflexivity. }
  assert (H4 : getTimer 1
                 (timers (run [OpEdit 1 (Some (-1)) (Some 0); OpStart 1] demoPage))
               = Some (mkTimer None (-60) false)).
  { vm_compute. reflexivity. }
  split.
  - split; [exact H3 |]. split; [exact H1 |].
    exact (proj2 (proj2 (timers_stay_sound demoDefaults ∅ true _ 2 _ H3)) H1 H2).
  - split; [exact H4 |].
    pose proof (timers_stay_sound demoDefaults ∅ true _ 1 _ H4) as (Hz & Hr & _).
    split; [exact Hz | exact Hr].
Defined.

(** ** Displays and timers along a session *)

Lemma In_updateRow_NoDup i G rs row row' :
  (forall r, rowId (G r) = rowId r) ->
  List.NoDup (List.map rowId rs) ->
  findRow i rs = Some row ->
  In row' (updateRow i G rs) ->
  row' = G row \/ (In row' rs /\ rowId row' <> i).
Proof.
  intros HG. induction rs as [|a rs IH]; simpl; [discriminate |].
  intros Hnd Hf Hin. inversion Hnd as [|? ? Hna Hnd']; subst.
  destruct (Z.eqb_spec (rowId a) i) as [E | N].
  - injection Hf as <-. destruct Hin as [<- | Hin]; [now left |].
    right. split; [now right |]. intros E'. apply Hna. rewrite E, <- E'.
    now apply List.in_map.
  - destruct Hin as [<- | Hin]; [right; split; [now left | exact N] |].
    destruct (IH Hnd' Hf Hin) as [-> | [H1 H2]]; [now left |].
    right. split; [now right | exact H2].
Qed.

Lemma In_removeRow_NoDup i rs row' :
  List.NoDup (List.map rowId rs) ->
  In row' (removeRow i rs) -> In row' rs /\ rowId row' <> i.
Proof.
  induction rs as [|a rs IH]; simpl; [tauto |].
  intros Hnd Hin. inversion Hnd as [|? ? Hna Hnd']; subst.
  destruct (Z.eqb_spec (rowId a) i) as [E | N].
  - split; [now right |]. intros E'. apply Hna. rewrite E, <- E'.
    now apply List.in_map.
  - destruct Hin as [<- | Hin]; [split; [now left | exact N] |].
    destruct (IH Hnd' Hin). split; [now right | assumption].
Qed.

Lemma In_clearedIntervals e o iv : In e (clearedIntervals o iv) -> In e iv.
Proof.
  destruct o as [h|]; cbn; [| trivial]. intros H. now apply List.filter_In in H.
Qed.

Lemma clearedIntervals_gone h j iv : ~ In (h, j) (clearedIntervals (Some h) iv).
Proof.
  cbn. intros H. apply List.filter_In in H. destruct H as [_ H]. cbn in H.
  now rewrite Pos.eqb_refl in H.
Qed.

(** The engine writes the row, the timer and the intervals of row [i]
    and keeps the invariant, provided the new intervals of [i] carry the
    handle of the new timer and the new display agrees with it. *)
Lemma displayInv_engine st st' i row G x :
  displayInv st ->
  findRow i (rows st) = Some row ->
  (forall r, rowCore (G r) = rowCore r) ->
  rows st' = updateRow i G (rows st) ->
  timers st' = setTimer i x (timers st) ->
  nextRowId st' = nextRowId st ->
  (forall h j, In (h, j) (intervals st') ->
               (j = i /\ exists r, x = mkTimer (Some h) r true)
               \/ (j <> i /\ In (h, j) (intervals st))) ->
  classesOK (display (G row)) (Some x) ->
  displayInv st'.
Proof.
  intros (Hnd & Hlt & Hrows & Hiv & Hcl) Hrow HG Er Et En Hiv' Hx.
  assert (Hid : forall r, rowId (G r) = rowId r).
  { intros r. specialize (HG r). unfold rowCore in HG. congruence. }
  assert (Hids : List.map rowId (rows st') = List.map rowId (rows st)).
  { rewrite Er. now apply updateRow_ids. }
  split; [| split; [| split; [| split]]].
  - now rewrite Hids.
  - now rewrite Hids, En.
  - apply timersHaveRows_ids. rewrite Hids, Et. intros k t.
    rewrite getTimer_setTimer. destruct (Z.eqb_spec k i) as [-> | N].
    + intros _. apply findRow_Some in Hrow. destruct Hrow as [H <-].
      now apply List.in_map.
    + revert k t N. intros k t _. revert k t. now apply timersHaveRows_ids.
  - intros h j Hin. rewrite Et, getTimer_setTimer.
    destruct (Hiv' h j Hin) as [[-> (r & ->)] | [N Hold]].
    + rewrite Z.eqb_refl. now exists r.
    + destruct (Z.eqb_spec j i); [contradiction | now apply Hiv].
  - intros row' Hin. rewrite Er in Hin. rewrite Et, getTimer_setTimer.
    destruct (In_updateRow_NoDup i G (rows st) row row' Hid Hnd Hrow Hin)
      as [-> | [Hold N]].
    + rewrite Hid. apply findRow_Some in Hrow. destruct Hrow as [_ ->].
      now rewrite Z.eqb_refl.
    + destruct (Z.eqb_spec (rowId row') i); [contradiction | now apply Hcl].
Qed.

(** A state that differs only outside rows, timers, intervals and the
    counter keeps the invariant. *)
Lemma displayInv_view st st' :
  rows st' = rows st -> timers st' = timers st ->
  intervals st' = intervals st -> nextRowId st' = nextRowId st ->
  displayInv st -> displayInv st'.
Proof.
  intros Er Et Ei En H.
  unfold displayInv, timersHaveRows, intervalsRun, rowsClassesOK in *.
  rewrite Er, Et, Ei, En. exact H.
Qed.

(** No interval of a timer that is not running. *)
Lemma intervalsRun_not_running st h i :
  intervalsRun st ->
  match getTimer i (timers st) with
  | Some t => isRunning t
  | None => false
  end = false ->
  ~ In (h, i) (intervals st).
Proof.
  intros Hiv Hnot Hin. destruct (Hiv h i Hin) as [r E]. rewrite E in Hnot. discriminate.
Qed.

Ltac engine_fields :=
  rewrite ?rows_updateGlobalTimerDisplay, ?timers_updateGlobalTimerDisplay,
    ?intervals_updateGlobalTimerDisplay, ?nextRowId_updateGlobalTimerDisplay;
  cbn [engineState rows timers intervals nextRowId
       set_rows set_timers set_intervals];
  rewrite ?rows_updateGlobalTimerDisplay, ?timers_updateGlobalTimerDisplay,
    ?intervals_updateGlobalTimerDisplay, ?nextRowId_updateGlobalTimerDisplay;
  cbn [engineState rows timers intervals nextRowId
       set_rows set_timers set_intervals].

Lemma displayInv_row_classes st i row :
  displayInv st -> findRow i (rows st) = Some row ->
  classesOK (display row) (getTimer i (timers st)).
Proof.
  intros (_ & _ & _ & _ & Hcl) Hrow. apply findRow_Some in Hrow.
  destruct Hrow as [Hin <-]. now apply Hcl.
Qed.

(** Stopping the timer of a row: the zeroed or paused timer, with the
    recorded interval cleared. *)
Lemma displayInv_stopped st st' i row G x :
  displayInv st ->
  findRow i (rows st) = Some row ->
  (forall r, rowCore (G r) = rowCore r) ->
  rows st' = updateRow i G (rows st) ->
  timers st' = setTimer i x (timers st) ->
  nextRowId st' = nextRowId st ->
  intervals st' = clearedIntervals
                    (match getTimer i (timers st) with
                     | Some t => intervalId t
                     | None => None
                     end) (intervals st) ->
  classesOK (display (G row)) (Some x) ->
  displayInv st'.
Proof.
  intros Hinv Hrow HG Er Et En Ei Hx.
  apply (displayInv_engine st st' i row G x Hinv Hrow HG Er Et En); [| exact Hx].
  intros h j Hin. right. rewrite Ei in Hin.
  destruct Hinv as (_ & _ & _ & Hiv & _).
  destruct (Z.eqb_spec j i) as [-> | N].
  - exfalso. destruct (Hiv h i (In_clearedIntervals _ _ _ Hin)) as [r E].
    rewrite E in Hin. cbn [intervalId] in Hin.
    exact (clearedIntervals_gone h i _ Hin).
  - split; [exact N | exact (In_clearedIntervals _ _ _ Hin)].
Qed.

Lemma displayInv_startTimer i st : displayInv st -> displayInv (startTimer i st).
Proof.
  intros Hinv.
  destruct (findRow i (rows st)) as [row|] eqn:Hrow.
  2: { rewrite startTimer_noop; [exact Hinv | now left]. }
  destruct (match getTimer i (timers st) with
            | Some t => isRunning t
            | None => false
            end) eqn:Hrun.
  { rewrite startTimer_noop; [exact Hinv |].
    right. destruct (getTimer i (timers st)) as [t|]; [| discriminate]. now exists t. }
  pose proof (startTimer_eq i row st Hrow Hrun) as E. cbv zeta in E. rewrite E. clear E.
  pose proof (displayInv_row_classes st i row Hinv Hrow) as [Hwd Hfin].
  assert (Hiv : intervalsRun st) by apply Hinv.
  assert (Hkeep : forall t, getTimer i (timers st) = Some t ->
                            remainingSeconds t <> 0 ->
                            timerAtStart row (getTimer i (timers st)) = t).
  { intros t Et Hne. rewrite Et. cbn. now destruct (Z.eqb_spec (remainingSeconds t) 0). }
  destruct (Z.leb_spec (remainingSeconds (timerAtStart row (getTimer i (timers st)))) 0)
    as [Hle | Hgt].
  - apply (displayInv_engine st _ i row (with_display (set_text SetTime))
             (timerAtStart row (getTimer i (timers st))) Hinv Hrow);
      try reflexivity.
    + intros h j Hin. right. split; [| exact Hin].
      intros ->. exact (intervalsRun_not_running st h i Hiv Hrun Hin).
    + split; cbn.
      * intros Hw. destruct (Hwd Hw) as (t & Et & Hr).
        exists t. split; [| exact Hr]. f_equal. apply Hkeep; [exact Et | lia].
      * intros Hf t [= <-]. unfold timerAtStart.
        destruct (getTimer i (timers st)) as [t'|]; [| reflexivity].
        destruct (remainingSeconds t' =? 0); [reflexivity | exact Hrun].
  - eapply (displayInv_engine st _ i row
              (fun r => showClock _ (rowStarted r))
              (mkTimer (Some (nextIntervalId st)) _ true) Hinv Hrow).
    + reflexivity.
    + engine_fields. reflexivity.
    + reflexivity.
    + engine_fields. reflexivity.
    + cbn [intervals set_timers set_intervals]. intros h j [[= <- <-] | Hin].
      * left. split; [reflexivity |]. eexists. reflexivity.
      * right. split; [| exact Hin].
        intros ->. exact (intervalsRun_not_running st h i Hiv Hrun Hin).
    + split; cbn.
      * intros Hw. destruct (Hwd Hw) as (t & Et & Hr).
        eexists. split; [reflexivity |]. cbn.
        rewrite (Hkeep t Et) by lia. exact Hr.
      * discriminate.
Qed.

Lemma classesOK_ticked d t secs :
  secs = remainingSeconds t - 1 ->
  0 < secs ->
  classesOK d (Some t) ->
  classesOK (tickClasses secs (set_text (Clock (secs / 60) (Z.rem secs 60)) d))
            (Some (mkTimer (intervalId t) secs (isRunning t))).
Proof.
  intros Hs Hpos [Hwd Hfin]. unfold tickClasses.
  destruct (Z.leb_spec secs 10); destruct (Z.ltb_spec 0 secs); cbn [andb]; try lia.
  - split; cbn.
    + intros _. eexists. split; [reflexivity |]. cbn. lia.
    + intros Hf t' [= <-]. cbn. now apply Hfin.
  - destruct (Z.leb_spec secs 30); destruct (Z.ltb_spec 10 secs); cbn [andb]; try lia.
    + split; cbn.
      * intros _. eexists. split; [reflexivity |]. cbn. lia.
      * intros Hf t' [= <-]. cbn. now apply Hfin.
    + split; cbn.
      * intros Hw. destruct (Hwd Hw) as (t' & [= <-] & Hr). lia.
      * intros Hf t' [= <-]. cbn. now apply Hfin.
Qed.

Lemma displayInv_tick j st : displayInv st -> displayInv (tick j st).
Proof.
  intros Hinv.
  destruct (getTimer j (timers st)) as [t|] eqn:Et.
  2: { now rewrite tick_noop. }
  destruct (findRow j (rows st)) as [row|] eqn:Hrow.
  2: { exfalso. destruct Hinv as (_ & _ & Hr & _). exact (Hr j t Et Hrow). }
  pose proof (displayInv_row_classes st j row Hinv Hrow) as Hcl. rewrite Et in Hcl.
  destruct (Z.leb_spec (remainingSeconds t - 1) 0) as [Hle | Hgt].
  - rewrite (tick_expires j t row st Et Hrow Hle).
    apply (displayInv_stopped st _ j row rowFinished (mkTimer None 0 false) Hinv Hrow);
      try (engine_fields; reflexivity).
    + engine_fields. now rewrite Et.
    + split; cbn; [intros [H | H]; discriminate H | now intros _ t' [= <-]].
  - rewrite (tick_running j t st Et Hgt).
    apply (displayInv_engine st _ j row (rowTicked (remainingSeconds t - 1))
             (mkTimer (intervalId t) (remainingSeconds t - 1) (isRunning t)) Hinv Hrow);
      try (engine_fields; reflexivity).
    + engine_fields. intros h k Hin.
      destruct (Z.eqb_spec k j) as [-> | N]; [left | right; now split].
      split; [reflexivity |].
      destruct Hinv as (_ & _ & _ & Hiv & _). destruct (Hiv h j Hin) as [r E].
      rewrite Et in E. injection E as ->. cbn. eexists. reflexivity.
    + now apply classesOK_ticked.
Qed.

Lemma displayInv_fire h st : displayInv st -> displayInv (fire h st).
Proof.
  intros Hinv. unfold fire. destruct (List.find _ _); [| exact Hinv].
  now apply displayInv_tick.
Qed.

Lemma displayInv_pauseTimer i st : displayInv st -> displayInv (pauseTimer i st).
Proof.
  intros Hinv.
  destruct (getTimer i (timers st)) as [t|] eqn:Et.
  2: { rewrite pauseTimer_noop; [exact Hinv | now left]. }
  destruct (findRow i (rows st)) as [row|] eqn:Hrow.
  2: { rewrite pauseTimer_noop; [exact Hinv | now right]. }
  pose proof (displayInv_row_classes st i row Hinv Hrow) as [Hwd Hfin]. rewrite Et in *.
  rewrite (pauseTimer_eq i t row st Et Hrow).
  apply (displayInv_stopped st _ i row rowPaused
           (mkTimer None (remainingSeconds t) false) Hinv Hrow);
    try (engine_fields; reflexivity).
  - engine_fields. now rewrite Et.
  - split; cbn.
    + intros Hw. destruct (Hwd Hw) as (t' & [= <-] & Hr).
      eexists. split; [reflexivity | exact Hr].
    + now intros _ t' [= <-].
Qed.

Lemma displayInv_resetTimer i st : displayInv st -> displayInv (resetTimer i st).
Proof.
  intros Hinv.
  destruct (findRow i (rows st)) as [row|] eqn:Hrow.
  2: { unfold resetTimer. now rewrite Hrow. }
  rewrite (resetTimer_eq i row st Hrow).
  apply (displayInv_stopped st _ i row rowReset (mkTimer None 0 false) Hinv Hrow);
    try (engine_fields; reflexivity).
  split; cbn; [intros [H | H]; discriminate H | now intros _ t' [= <-]].
Qed.

Lemma displayInv_timerFinished i st : displayInv st -> displayInv (timerFinished i st).
Proof.
  intros Hinv.
  destruct (getTimer i (timers st)) as [t|] eqn:Et.
  2: { rewrite timerFinished_noop; [exact Hinv | now left]. }
  destruct (findRow i (rows st)) as [row|] eqn:Hrow.
  2: { rewrite timerFinished_noop; [exact Hinv | now right]. }
  rewrite (timerFinished_eq i t row st Et Hrow).
  apply (displayInv_stopped st _ i row rowFinished (mkTimer None 0 false) Hinv Hrow);
    try (engine_fields; reflexivity).
  - engine_fields. now rewrite Et.
  - split; cbn; [intros [H | H]; discriminate H | now intros _ t' [= <-]].
Qed.

Lemma displayInv_resetAll rs : forall st,
  displayInv st ->
  displayInv (fold_left (fun s row => resetTimer (rowId row) s) rs st).
Proof.
  induction rs as [|a rs IH]; intros st H; simpl; [exact H |].
  apply IH. now apply displayInv_resetTimer.
Qed.

(** Replacing the rows by rows with the same ids and the same displays. *)
Lemma displayInv_rows st rs' :
  Permutation (List.map rowId rs') (List.map rowId (rows st)) ->
  (forall r', In r' rs' ->
              exists r, In r (rows st) /\ rowId r' = rowId r /\ display r' = display r) ->
  displayInv st -> displayInv (set_rows rs' st).
Proof.
  intros Hp Hd (Hnd & Hlt & Hrows & Hiv & Hcl).
  split; [| split; [| split; [| split]]]; cbn [rows timers intervals nextRowId set_rows].
  - eapply Permutation_NoDup; [apply Permutation_sym; exact Hp | exact Hnd].
  - intros x Hx. apply Hlt. eapply Permutation_in; [exact Hp | exact Hx].
  - apply timersHaveRows_ids. cbn [rows timers set_rows]. intros k t Hk.
    eapply Permutation_in; [apply Permutation_sym; exact Hp |].
    revert k t Hk. now apply timersHaveRows_ids.
  - exact Hiv.
  - intros r' Hr'. destruct (Hd r' Hr') as (r & Hr & Eid & Ed).
    rewrite Eid, Ed. now apply Hcl.
Qed.

Lemma displayInv_modRow i f st :
  (forall r, rowId (f r) = rowId r) ->
  (forall r, display (f r) = display r) ->
  displayInv st -> displayInv (modRow i f st).
Proof.
  intros Hid Hdis. unfold modRow. apply displayInv_rows.
  - rewrite updateRow_ids by exact Hid. apply Permutation_refl.
  - intros r' Hr'. destruct (In_updateRow f i (rows st) r' Hr') as [H | (r & H & _ & ->)].
    + now exists r'.
    + exists r. auto.
Qed.

Lemma displayInv_step o st : displayInv st -> displayInv (step o st).
Proof.
  intros Hinv.
  assert (Hview : forall st1 st2,
            rows st2 = rows st1 -> timers st2 = timers st1 ->
            intervals st2 = intervals st1 -> nextRowId st2 = nextRowId st1 ->
            displayInv st1 -> displayInv st2).
  { intros st1 st2. apply displayInv_view. }
  destruct o as [i | h | i | i | i | c i | form | i | i | i | c | c | i m s]; cbn [step].
  - now apply displayInv_startTimer.
  - now apply displayInv_fire.
  - now apply displayInv_pauseTimer.
  - now apply displayInv_resetTimer.
  - now apply displayInv_timerFinished.
  - destruct c; [| exact Hinv]. rewrite deleteRow_exec.
    apply (Hview (set_rows (removeRow i (rows st)) (timerDropped i st)));
      try (now autorewrite with view).
    destruct Hinv as (Hnd & Hlt & Hrows & Hiv & Hcl).
    assert (Hnext : nextRowId (timerDropped i st) = nextRowId st).
    { apply (timerFrame_timerDropped st st i (timerFrame_refl st)). }
    assert (Hint : intervals (timerDropped i st)
                   = clearedIntervals (match getTimer i (timers st) with
                                       | Some t => intervalId t
                                       | None => None
                                       end) (intervals st)).
    { unfold timerDropped. destruct (getTimer i (timers st)) as [t|]; [| reflexivity].
      now destruct (intervalId t). }
    split; [| split; [| split; [| split]]];
      cbn [rows timers intervals nextRowId set_rows].
    + now apply removeRow_ids_NoDup.
    + intros x Hx. rewrite Hnext. apply Hlt. now apply removeRow_ids_In in Hx.
    + intros k t. cbn [rows timers set_rows]. rewrite timers_timerDropped.
      rewrite getTimer_deleteTimer.
      destruct (Z.eqb_spec k i) as [-> | N]; [discriminate |].
      intros Hk. rewrite findRow_removeRow by exact N. exact (Hrows k t Hk).
    + intros h j Hin. cbn [timers intervals set_rows] in *.
      rewrite Hint in Hin. rewrite timers_timerDropped, getTimer_deleteTimer.
      destruct (Z.eqb_spec j i) as [-> | N].
      * exfalso. destruct (Hiv h i (In_clearedIntervals _ _ _ Hin)) as [r E].
        rewrite E in Hin. exact (clearedIntervals_gone h i _ Hin).
      * apply Hiv. exact (In_clearedIntervals _ _ _ Hin).
    + intros row' Hin. cbn [rows timers set_rows] in *.
      destruct (In_removeRow_NoDup i (rows st) row' Hnd Hin) as [Hold N].
      rewrite timers_timerDropped, getTimer_deleteTimer.
      destruct (Z.eqb_spec (rowId row') i); [contradiction | now apply Hcl].
  - destruct (String.eqb_spec (newGameName form) "") as [En | Nn].
    { rewrite addNewRound_rejected; [exact Hinv | intros [H _]; contradiction]. }
    destruct (String.eqb_spec (newPrompt form) "") as [Ep | Np].
    { rewrite addNewRound_rejected; [exact Hinv | intros [_ H]; contradiction]. }
    rewrite addNewRound_exec by (split; assumption). cbv zeta.
    match goal with
    | |- displayInv (set_scrolled _ (exec saveRoundsToStorage (updateProgress ?x))) =>
        apply (Hview x); try (cbn [rows timers intervals nextRowId set_scrolled];
                              now autorewrite with view)
    end.
    destruct Hinv as (Hnd & Hlt & Hrows & Hiv & Hcl).
    split; [| split; [| split; [| split]]];
      cbn [rows timers intervals nextRowId appendRow set_rows set_nextRowId].
    + rewrite List.map_app. apply List.NoDup_app;
        [exact Hnd | constructor; [intros [] | constructor] |].
      intros x Hx [<- | []]. specialize (Hlt _ Hx). cbn [rowId] in Hlt. lia.
    + intros x Hx. rewrite List.map_app in Hx. apply List.in_app_iff in Hx.
      destruct Hx as [Hx | [<- | []]]; [specialize (Hlt _ Hx) | cbn [rowId]]; lia.
    + apply timersHaveRows_ids.
      cbn [rows timers intervals nextRowId appendRow set_rows set_nextRowId].
      intros k t Hk. rewrite List.map_app. apply List.in_or_app. left.
      revert k t Hk. now apply timersHaveRows_ids.
    + exact Hiv.
    + intros row' Hin. apply List.in_app_iff in Hin.
      destruct Hin as [Hin | [<- | []]]; [now apply Hcl |].
      split; cbn; [intros [H | H]; discriminate H | discriminate].
  - destruct (findRow i (rows st)) as [row|] eqn:E.
    2: { now rewrite clickDone_no_row. }
    rewrite (clickDone_exec i st row E). destruct (checked row).
    + apply (Hview (modRow i (fun r => with_completed false (with_checked false r)) st));
        try (now autorewrite with view).
      now apply displayInv_modRow.
    + apply (Hview (pauseTimer i
               (modRow i (fun r => with_completed true (with_checked true r)) st)));
        try (now autorewrite with view).
      apply displayInv_pauseTimer. now apply displayInv_modRow.
  - destruct (moveRowUp_exec i st) as [-> | ->]; [exact Hinv |].
    apply (Hview (set_rows (insertBeforePrevious i (rows st)) st));
      try (now autorewrite with view).
    apply displayInv_rows; [apply Permutation_map, insertBeforePrevious_perm | | exact Hinv].
    intros r' Hr'. exists r'. split; [| now split].
    eapply Permutation_in; [apply insertBeforePrevious_perm | exact Hr'].
  - destruct (moveRowDown_exec i st) as [-> | ->]; [exact Hinv |].
    apply (Hview (set_rows (insertNextBefore i (rows st)) st));
      try (now autorewrite with view).
    apply displayInv_rows; [apply Permutation_map, insertNextBefore_perm | | exact Hinv].
    intros r' Hr'. exists r'. split; [| now split].
    eapply Permutation_in; [apply insertNextBefore_perm | exact Hr'].
  - destruct c; [| exact Hinv]. rewrite resetAllRounds_exec. cbv zeta.
    set (st1 := fold_left (fun s row => resetTimer (rowId row) s) (rows st) st).
    apply (Hview (set_rows (List.map (fun r => with_completed false (with_checked false r))
                                     (rows st1)) st1));
      try (now autorewrite with view).
    apply displayInv_rows; [| | now apply displayInv_resetAll].
    + rewrite List.map_map. rewrite (List.map_ext _ rowId) by reflexivity.
      apply Permutation_refl.
    + intros r' Hr'. apply List.in_map_iff in Hr'. destruct Hr' as (r & <- & Hr).
      exists r. auto.
  - unfold clearSavedRounds. destruct c; [| exact Hinv].
    now apply (Hview st).
  - now apply displayInv_modRow.
Qed.

Lemma displayInv_run ops : forall st, displayInv st -> displayInv (run ops st).
Proof.
  unfold run. induction ops as [|o ops IH]; intros st H; cbn; [exact H |].
  apply IH. now apply displayInv_step.
Qed.

Lemma displayInv_pageLoad defaults stored writable :
  List.NoDup (List.map rowId (rows (pageLoad defaults stored writable))) ->
  displayInv (pageLoad defaults stored writable).
Proof.
  intros Hnd.
  destruct (pageLoad_fresh defaults stored writable) as (Ht & Hi & rounds & Hr).
  split; [exact Hnd |]. split; [apply pageLoad_ids_below |].
  split; [| split].
  - intros k t. rewrite Ht. discriminate.
  - intros h j. rewrite Hi. intros [].
  - intros row Hin. rewrite Hr in Hin. apply List.in_map_iff in Hin.
    destruct Hin as (r & <- & _).
    split; cbn; [intros [H | H]; discriminate H | discriminate].
Qed.

(** C7: in a session on a page whose row ids are distinct, whenever an
    interval fires, the display of its row shows afterwards the tier of
    the timer's remaining seconds: no urgency class above 30 seconds,
    [warning] alone from 11 to 30, [danger] alone from 1 to 10,
    [finished] alone at 0; so 31 is normal, 30 and 11 are warning, 10 is
    danger and 0 is expired. *)
Theorem urgency_after_every_tick defaults stored writable ops h e :
  List.NoDup (List.map rowId (rows (pageLoad defaults stored writable))) ->
  List.find (fun e => Pos.eqb (fst e) h)
            (intervals (run ops (pageLoad defaults stored writable))) = Some e ->
  (exists row t,
      findRow (snd e) (rows (fire h (run ops (pageLoad defaults stored writable))))
      = Some row
      /\ getTimer (snd e) (timers (fire h (run ops (pageLoad defaults stored writable))))
         = Some t
      /\ displayTier (display row) = Some (tierOf (remainingSeconds t)))
  /\ tierOf 31 = Normal_tier /\ tierOf 30 = Warning_tier /\ tierOf 11 = Warning_tier
  /\ tierOf 10 = Danger_tier /\ tierOf 0 = Expired_tier.
Proof.
  intros Hnd Hfind. split; [| repeat split].
  set (st := run ops (pageLoad defaults stored writable)) in *.
  assert (Hinv : displayInv st).
  { apply displayInv_run. now apply displayInv_pageLoad. }
  unfold fire. rewrite Hfind.
  apply List.find_some in Hfind. destruct Hfind as [Hin Hh].
  destruct e as [h' j]. cbn [fst snd] in *. apply Pos.eqb_eq in Hh. subst h'.
  pose proof Hinv as (_ & _ & Hrows & Hiv & _).
  destruct (Hiv h j Hin) as [r Et].
  destruct (findRow j (rows st)) as [row|] eqn:Hrow.
  2: { exfalso. exact (Hrows j _ Et Hrow). }
  pose proof (displayInv_row_classes st j row Hinv Hrow) as [Hwd Hfin].
  rewrite Et in Hwd, Hfin.
  assert (Hnf : finished (display row) = false).
  { destruct (finished (display row)); [| reflexivity].
    specialize (Hfin eq_refl _ eq_refl). discriminate Hfin. }
  destruct (Z.leb_spec (r - 1) 0) as [Hle | Hgt].
  - rewrite (tick_expires j _ row st Et Hrow) by exact Hle.
    exists (rowFinished row), (mkTimer None 0 false).
    engine_fields. rewrite findRow_updateRow by reflexivity.
    rewrite getTimer_setTimer, Z.eqb_refl, Hrow. repeat split.
  - rewrite (tick_running j _ st Et) by exact Hgt.
    exists (rowTicked (r - 1) row), (mkTimer (Some h) (r - 1) true).
    engine_fields. rewrite findRow_updateRow by reflexivity.
    rewrite getTimer_setTimer, Z.eqb_refl, Hrow.
    split; [reflexivity |]. split; [reflexivity |].
    cbn [remainingSeconds rowTicked with_display display showClock].
    unfold tickClasses, tierOf, displayTier.
    destruct (Z.leb_spec (r - 1) 10); destruct (Z.ltb_spec 0 (r - 1));
      cbn [andb]; try lia.
    + cbn. rewrite Hnf.
      destruct (Z.ltb_spec 30 (r - 1)); [lia |].
      destruct (Z.leb_spec 11 (r - 1)); [lia |].
      destruct (Z.leb_spec 1 (r - 1)); [reflexivity | lia].
    + destruct (Z.leb_spec (r - 1) 30); destruct (Z.ltb_spec 10 (r - 1));
        cbn [andb]; try lia.
      * cbn. rewrite Hnf.
        destruct (Z.ltb_spec 30 (r - 1)); [lia |].
        destruct (Z.leb_spec 11 (r - 1)); [reflexivity | lia].
      * cbn. rewrite Hnf.
        destruct (Z.ltb_spec 30 (r - 1)); [| lia].
        destruct (warning (display row)) eqn:Ew.
        { destruct (Hwd (or_introl eq_refl)) as (t' & [= <-] & Hr). cbn in Hr. lia. }
        destruct (danger (display row)) eqn:Ed.
        { destruct (Hwd (or_intror eq_refl)) as (t' & [= <-] & Hr). cbn in Hr. lia. }
        reflexivity.
Qed.

(** Round 5 of the demo page, 45 seconds: the fifteenth tick brings it to
    30 seconds and the display turns to warning. *)
Lemma urgency_after_every_tick_witness :
  let ops := OpStart 5 :: List.repeat (OpFire 1) 14 in
  List.NoDup (List.map rowId (rows demoPage))
  /\ List.find (fun e => Pos.eqb (fst e) 1) (intervals (run ops demoPage)) = Some (1%positive, 5)
  /\ getTimer 5 (timers (fire 1 (run ops demoPage))) = Some (mkTimer (Some 1%positive) 30 true)
  /\ exists row t,
       findRow 5 (rows (fire 1 (run ops demoPage))) = Some row
       /\ getTimer 5 (timers (fire 1 (run ops demoPage))) = Some t
       /\ displayTier (display row) = Some (tierOf (remainingSeconds t)).
Proof.
  cbv zeta.
  assert (Hnd : List.NoDup (List.map rowId (rows demoPage))).
  { vm_compute. repeat constructor; cbn; intuition discriminate. }
  assert (Hfind : List.find (fun e => Pos.eqb (fst e) 1)
                    (intervals (run (OpStart 5 :: List.repeat (OpFire 1) 14) demoPage))
                  = Some (1%positive, 5)).
  { vm_compute. reflexivity. }
  split; [exact Hnd |]. split; [exact Hfind |].
  split; [vm_compute; reflexivity |].
  exact (proj1 (urgency_after_every_tick demoDefaults ∅ true
                  (OpStart 5 :: List.repeat (OpFire 1) 14) 1%positive (1%positive, 5)
                  Hnd Hfind)).
Defined.

(** * Further properties of the script *)

(** ** Escaping *)

Lemma append_cons a (x y : string) :
  String.append (String a x) y = String a (String.append x y).
Proof. reflexivity. Qed.

Lemma string_append_assoc (x y z : string) :
  String.append x (String.append y z) = String.append (String.append x y) z.
Proof.
  induction x as [|a x IH]; [reflexivity |].
  rewrite !append_cons. f_equal. exact IH.
Qed.

Lemma replaceAll_app c by_ s1 s2 :
  replaceAll c by_ (String.append s1 s2)
  = String.append (replaceAll c by_ s1) (replaceAll c by_ s2).
Proof.
  induction s1 as [|a s1 IH]; [reflexivity |].
  rewrite append_cons. cbn [replaceAll]. rewrite IH.
  destruct (Ascii.eqb a c); [apply string_append_assoc | now rewrite append_cons].
Qed.

Lemma chars_app s1 s2 : chars (String.append s1 s2) = chars s1 ++ chars s2.
Proof.
  induction s1 as [|a s1 IH]; [reflexivity |].
  rewrite append_cons. cbn [chars]. now rewrite IH.
Qed.

Lemma escapeHtml_cons a s :
  escapeHtml (String a s) = String.append (escapeChar a) (escapeHtml s).
Proof.
  unfold escapeHtml, escapeChar.
  cbn [replaceAll].
  destruct (Ascii.eqb_spec a "&"%char) as [-> | Namp].
  { rewrite !replaceAll_app. reflexivity. }
  cbn [replaceAll].
  destruct (Ascii.eqb_spec a "<"%char) as [-> | Nlt].
  { rewrite !replaceAll_app. reflexivity. }
  cbn [replaceAll].
  destruct (Ascii.eqb_spec a ">"%char) as [-> | Ngt].
  { rewrite !replaceAll_app. reflexivity. }
  cbn [replaceAll].
  destruct (Ascii.eqb_spec a quot) as [-> | Nq].
  { rewrite !replaceAll_app. reflexivity. }
  cbn [replaceAll].
  destruct (Ascii.eqb_spec a apos) as [-> | Na]; reflexivity.
Qed.

Lemma escapeChar_safe a : forallb (fun c => negb (markupChar c)) (chars (escapeChar a)) = true.
Proof.
  unfold escapeChar.
  destruct (Ascii.eqb_spec a "&"%char); [reflexivity |].
  destruct (Ascii.eqb_spec a "<"%char) as [| Nlt]; [reflexivity |].
  destruct (Ascii.eqb_spec a ">"%char) as [| Ngt]; [reflexivity |].
  destruct (Ascii.eqb_spec a quot) as [| Nq]; [reflexivity |].
  destruct (Ascii.eqb_spec a apos) as [| Na]; [reflexivity |].
  cbn. unfold markupChar.
  apply Ascii.eqb_neq in Nlt, Ngt, Nq, Na. now rewrite Nlt, Ngt, Nq, Na.
Qed.

(** X1: the five successive replacements of [escapeHtml] amount to
    escaping each character on its own, so escaping distributes over
    concatenation, and the result holds none of the characters
    [<], [>], double quote and apostrophe. *)
Theorem escapeHtml_leaves_no_markup :
  (forall a s, escapeHtml (String a s) = String.append (escapeChar a) (escapeHtml s))
  /\ (forall s1 s2,
         escapeHtml (String.append s1 s2)
         = String.append (escapeHtml s1) (escapeHtml s2))
  /\ (forall s c, In c (chars (escapeHtml s)) -> markupChar c = false).
Proof.
  split; [exact escapeHtml_cons |]. split.
  - intros s1 s2. induction s1 as [|a s1 IH]; [reflexivity |].
    rewrite append_cons, !escapeHtml_cons, IH.
    apply string_append_assoc.
  - intros s. induction s as [|a s IH]; [intros c [] |].
    intros c Hc. rewrite escapeHtml_cons, chars_app in Hc.
    apply List.in_app_iff in Hc. destruct Hc as [Hc | Hc]; [| now apply IH].
    pose proof (escapeChar_safe a) as H. rewrite forallb_forall in H.
    specialize (H c Hc). now destruct (markupChar c).
Qed.

(** A prompt with markup in it. *)
Example escapeHtml_example :
  escapeHtml "<b>Tom & 'Jerry'</b>" = "&lt;b&gt;Tom &amp; &#39;Jerry&#39;&lt;/b&gt;".
Proof. reflexivity. Qed.

(** ** Adding a round *)

(** X2: a form with an empty game name or an empty prompt is rejected and
    the page stays exactly as it was: no row, no id used up, nothing
    written to the storage. *)
Theorem add_with_missing_field_changes_nothing form st :
  newGameName form = "" \/ newPrompt form = "" ->
  exec (addNewRound form) st = st.
Proof.
  intros H. apply addNewRound_rejected. intros [Hn Hp]. destruct H; contradiction.
Qed.

Lemma add_with_missing_field_changes_nothing_witness :
  exec (addNewRound (mkForm "" "Name the tune" (Some 1) (Some 0))) demoPage = demoPage.
Proof.
  apply add_with_missing_field_changes_nothing. left. reflexivity.
Defined.

(** X3: a valid form appends one row, after all the others, which stay as
    they are: the new row has the counter's value as id, the parsed timer
    values (0 for an empty field) in its inputs, an unchecked box, a fresh
    display; the counter goes up by one, the timers are untouched, the
    view scrolls to the new row and, when the storage takes the write, the
    snapshot is the old rounds followed by the new one. *)
Theorem add_appends_one_fresh_row form st :
  validForm form ->
  let i := nextRowId st in
  let st' := exec (addNewRound form) st in
  rows st' = rows st ++ [mkRow i (Some (orZero (newTimerMin form)))
                               (Some (orZero (newTimerSec form)))
                               false false false false freshDisplay]
  /\ nextRowId st' = i + 1
  /\ timers st' = timers st
  /\ intervals st' = intervals st
  /\ scrolled st' = scrolled st ++ [i]
  /\ (storageWritable st = true ->
      localStorage st' !! STORAGE_KEY
      = Some (JSON_stringify
                (List.map snapshotRow (rows st)
                 ++ [mkSavedRound i (orZero (newTimerMin form))
                                  (orZero (newTimerSec form)) false]))).
Proof.
  intros Hv i st'. subst st'. rewrite addNewRound_exec by exact Hv. cbv zeta. fold i.
  cbn [rows nextRowId timers intervals scrolled localStorage set_scrolled].
  autorewrite with view.
  cbn [rows nextRowId timers intervals scrolled appendRow set_rows set_nextRowId].
  split; [reflexivity |]. split; [reflexivity |]. split; [reflexivity |].
  split; [reflexivity |]. split; [reflexivity |].
  intros Hw. rewrite saveRoundsToStorage_writable.
  2: { now autorewrite with view. }
  cbn [localStorage set_localStorage]. rewrite lookup_insert_eq.
  rewrite updateProgress_rows. cbn [rows appendRow set_rows set_nextRowId].
  now rewrite List.map_app.
Qed.

Lemma add_appends_one_fresh_row_witness :
  validForm (mkForm "Charades" "Act it out" None (Some 45))
  /\ List.map rowId (rows (exec (addNewRound (mkForm "Charades" "Act it out" None (Some 45)))
                             demoPage))
     = [1; 2; 3; 4; 5; 6]
  /\ nextRowId (exec (addNewRound (mkForm "Charades" "Act it out" None (Some 45))) demoPage)
     = 7.
Proof.
  assert (Hv : validForm (mkForm "Charades" "Act it out" None (Some 45))).
  { split; discriminate. }
  pose proof (add_appends_one_fresh_row _ demoPage Hv) as H. cbv zeta in H.
  destruct H as (Hr & Hn & _).
  split; [exact Hv |]. split.
  - rewrite Hr. vm_compute. reflexivity.
  - rewrite Hn. vm_compute. reflexivity.
Defined.

(** ** Moving rounds *)

Lemma insertBeforePrevious_at i front a b back :
  ~ In i (List.map rowId front) -> rowId a <> i -> rowId b = i ->
  insertBeforePrevious i (front ++ a :: b :: back) = front ++ b :: a :: back.
Proof.
  intros Hf Ha Hb. induction front as [|x front IH].
  - cbn. destruct (Z.eqb_spec (rowId a) i); [contradiction |].
    destruct (Z.eqb_spec (rowId b) i); [reflexivity | contradiction].
  - cbn [List.app insertBeforePrevious].
    destruct (Z.eqb_spec (rowId x) i) as [E | N]; [exfalso; apply Hf; now left |].
    destruct front as [|y front].
    + cbn [List.app] in *. destruct (Z.eqb_spec (rowId a) i); [contradiction |].
      f_equal. apply IH. intros [].
    + cbn [List.app] in *.
      destruct (Z.eqb_spec (rowId y) i) as [E | N'].
      { exfalso. apply Hf. right. now left. }
      f_equal. apply IH. intros H. apply Hf. now right.
Qed.

Lemma insertNextBefore_at i front a b back :
  ~ In i (List.map rowId front) -> rowId a = i ->
  insertNextBefore i (front ++ a :: b :: back) = front ++ b :: a :: back.
Proof.
  intros Hf Ha. induction front as [|x front IH].
  - cbn. destruct (Z.eqb_spec (rowId a) i); [reflexivity | contradiction].
  - cbn [List.app insertNextBefore].
    destruct (Z.eqb_spec (rowId x) i) as [E | N]; [exfalso; apply Hf; now left |].
    f_equal. apply IH. intros H. apply Hf. now right.
Qed.

Lemma findRow_app_later i front r back :
  ~ In i (List.map rowId front) -> rowId r = i ->
  findRow i (front ++ r :: back) = Some r.
Proof.
  intros Hf Hr. induction front as [|x front IH]; cbn.
  - destruct (Z.eqb_spec (rowId r) i); [reflexivity | contradiction].
  - destruct (Z.eqb_spec (rowId x) i) as [E | N]; [exfalso; apply Hf; now left |].
    apply IH. intros H. apply Hf. now right.
Qed.

Lemma noNextSibling_last i front r :
  ~ In i (List.map rowId front) -> rowId r = i ->
  noNextSibling i (front ++ [r]) = true.
Proof.
  intros Hf Hr. induction front as [|x front IH]; cbn.
  - destruct (Z.eqb_spec (rowId r) i); [reflexivity | contradiction].
  - destruct (Z.eqb_spec (rowId x) i) as [E | N]; [exfalso; apply Hf; now left |].
    apply IH. intros H. apply Hf. now right.
Qed.

Lemma noNextSibling_inner i front a b back :
  ~ In i (List.map rowId front) -> rowId a = i ->
  noNextSibling i (front ++ a :: b :: back) = false.
Proof.
  intros Hf Ha. induction front as [|x front IH]; cbn.
  - destruct (Z.eqb_spec (rowId a) i); [reflexivity | contradiction].
  - destruct (Z.eqb_spec (rowId x) i) as [E | N]; [exfalso; apply Hf; now left |].
    apply IH. intros H. apply Hf. now right.
Qed.

(** X4: moving the first row up, or the last row down, changes nothing,
    not even the storage. *)
Theorem move_at_the_boundary_changes_nothing st :
  (forall r rest, rows st = r :: rest -> exec (moveRowUp (rowId r)) st = st)
  /\ (forall front r,
         rows st = front ++ [r] -> ~ In (rowId r) (List.map rowId front) ->
         exec (moveRowDown (rowId r)) st = st).
Proof.
  split.
  - intros r rest Hr. unfold exec, moveRowUp. rewrite Hr. cbn.
    now rewrite Z.eqb_refl.
  - intros front r Hr Hf. unfold exec, moveRowDown. rewrite Hr.
    rewrite (findRow_app_later _ front r []) by auto.
    now rewrite noNextSibling_last.
Qed.

Lemma insertBeforePrevious_absent i rs :
  findRow i rs = None -> insertBeforePrevious i rs = rs.
Proof.
  induction rs as [|a tl IH]; [reflexivity |].
  cbn [findRow insertBeforePrevious].
  destruct (rowId a =? i); [reflexivity |].
  intros H. destruct tl as [|b rest]; [reflexivity |].
  destruct (rowId b =? i) eqn:Eb.
  - cbn [findRow] in H. rewrite Eb in H. discriminate.
  - f_equal. apply IH. exact H.
Qed.

Lemma insertNextBefore_absent i rs :
  findRow i rs = None -> insertNextBefore i rs = rs.
Proof.
  induction rs as [|a tl IH]; [reflexivity |].
  cbn [findRow insertNextBefore].
  destruct (rowId a =? i); [discriminate |].
  intros H. f_equal. now apply IH.
Qed.

Lemma insertNextBefore_last i rs :
  noNextSibling i rs = true -> insertNextBefore i rs = rs.
Proof.
  induction rs as [|a tl IH]; [reflexivity |].
  cbn [noNextSibling insertNextBefore].
  destruct (rowId a =? i).
  - destruct tl; [reflexivity | discriminate].
  - intros H. f_equal. now apply IH.
Qed.

Lemma moveRowUp_rows i st :
  rows (exec (moveRowUp i) st) = insertBeforePrevious i (rows st).
Proof.
  unfold exec, moveRowUp.
  destruct (findRow i (rows st)) eqn:Hf.
  - destruct (noPreviousSibling i (rows st)) eqn:Hp.
    + cbn. destruct (rows st) as [|a tl]; [reflexivity |].
      cbn in Hp |- *. now rewrite Hp.
    + unfold bind, lift. rewrite saveRoundsToStorage_returns.
      now autorewrite with view.
  - cbn. symmetry. now apply insertBeforePrevious_absent.
Qed.

Lemma moveRowDown_rows i st :
  rows (exec (moveRowDown i) st) = insertNextBefore i (rows st).
Proof.
  unfold exec, moveRowDown.
  destruct (findRow i (rows st)) eqn:Hf.
  - destruct (noNextSibling i (rows st)) eqn:Hp.
    + cbn. symmetry. now apply insertNextBefore_last.
    + unfold bind, lift. rewrite saveRoundsToStorage_returns.
      now autorewrite with view.
  - cbn. symmetry. now apply insertNextBefore_absent.
Qed.

(** X5: moving a row up swaps it with the row before it and nothing else:
    no row is changed and none is renumbered; on rows with distinct ids,
    moving it down again gives back the original order. *)
Theorem move_up_then_down_restores_order st i front a b back :
  rows st = front ++ a :: b :: back ->
  rowId b = i ->
  List.NoDup (List.map rowId (rows st)) ->
  rows (exec (moveRowUp i) st) = front ++ b :: a :: back
  /\ rows (exec (moveRowDown i) (exec (moveRowUp i) st)) = rows st.
Proof.
  intros Hr Hb Hnd.
  assert (Hf : ~ In i (List.map rowId front) /\ rowId a <> i).
  { rewrite Hr, List.map_app in Hnd. cbn [List.map] in Hnd.
    apply List.NoDup_remove_2 in Hnd as Ha'.
    assert (Hnd2 : List.NoDup (List.map rowId front ++ rowId b :: List.map rowId back)).
    { now apply List.NoDup_remove_1 in Hnd. }
    apply List.NoDup_remove_2 in Hnd2. rewrite Hb in *.
    split.
    - intros H. apply Hnd2. apply List.in_or_app. now left.
    - intros E. apply Ha'. rewrite E. apply List.in_or_app. right. now left. }
  destruct Hf as [Hf Ha].
  assert (Hup : rows (exec (moveRowUp i) st) = front ++ b :: a :: back).
  { rewrite moveRowUp_rows, Hr. now apply insertBeforePrevious_at. }
  split; [exact Hup |].
  rewrite moveRowDown_rows, Hup, Hr. now apply insertNextBefore_at.
Qed.

Lemma move_up_then_down_restores_order_witness :
  List.map rowId (rows (exec (moveRowUp 3) demoPage)) = [1; 3; 2; 4; 5]
  /\ rows (exec (moveRowDown 3) (exec (moveRowUp 3) demoPage)) = rows demoPage.
Proof.
  pose (r0 := mkRow 0 None None false false false false freshDisplay).
  pose (rs := rows demoPage).
  assert (Hr : rows demoPage
               = firstn 1 rs ++ nth 1 rs r0 :: nth 2 rs r0 :: skipn 3 rs)
    by (vm_compute; reflexivity).
  assert (H3 : rowId (nth 2 rs r0) = 3) by (vm_compute; reflexivity).
  assert (Hnd : List.NoDup (List.map rowId (rows demoPage))).
  { vm_compute. repeat constructor; cbn; intuition discriminate. }
  destruct (move_up_then_down_restores_order demoPage 3 _ _ _ _ Hr H3 Hnd)
    as [Hup Hback].
  split; [| exact Hback].
  rewrite Hup. vm_compute. reflexivity.
Defined.

(** ** Deleting a round *)

(** X6: a deletion that is not confirmed changes nothing.  A confirmed one
    removes the row and, with it, its timer object and its interval: no
    interval is left ticking for the deleted id.  The other rows and the
    other timers stay as they are, and the id counter does not go back. *)
Theorem delete_removes_row_timer_and_interval st i :
  displayInv st ->
  exec (deleteRow false i) st = st
  /\ rows (exec (deleteRow true i) st) = removeRow i (rows st)
  /\ getTimer i (timers (exec (deleteRow true i) st)) = None
  /\ (forall h, ~ In (h, i) (intervals (exec (deleteRow true i) st)))
  /\ (forall j, j <> i ->
        getTimer j (timers (exec (deleteRow true i) st)) = getTimer j (timers st)
        /\ findRow j (rows (exec (deleteRow true i) st)) = findRow j (rows st))
  /\ nextRowId (exec (deleteRow true i) st) = nextRowId st.
Proof.
  intros Hinv.
  assert (Ht : timers (exec (deleteRow true i) st) = deleteTimer i (timers st)).
  { rewrite deleteRow_exec. autorewrite with view. cbn [timers set_rows].
    apply timers_timerDropped. }
  assert (Hr : rows (exec (deleteRow true i) st) = removeRow i (rows st)).
  { rewrite deleteRow_exec. now autorewrite with view. }
  split; [reflexivity |]. split; [exact Hr |].
  assert (Hn : getTimer i (timers (exec (deleteRow true i) st)) = None).
  { rewrite Ht, getTimer_deleteTimer. now rewrite Z.eqb_refl. }
  split; [exact Hn |]. split; [| split].
  - intros h Hin.
    pose proof (displayInv_step (OpDelete true i) st Hinv) as (_ & _ & _ & Hiv & _).
    destruct (Hiv h i Hin) as [r Hr']. cbn [step] in Hr'. congruence.
  - intros j Hj. rewrite Ht, Hr, getTimer_deleteTimer.
    destruct (Z.eqb_spec j i); [contradiction |].
    split; [reflexivity | now apply findRow_removeRow].
  - rewrite deleteRow_exec. autorewrite with view.
    cbn [nextRowId set_celebrations set_progressText set_rows].
    apply (timerFrame_timerDropped st st i (timerFrame_refl st)).
Qed.

Lemma delete_removes_row_timer_and_interval_witness :
  intervals (run [OpStart 2] demoPage) = [(1%positive, 2)]
  /\ List.map rowId (rows (exec (deleteRow true 2) (run [OpStart 2] demoPage)))
     = [1; 3; 4; 5]
  /\ forall h, ~ In (h, 2) (intervals (exec (deleteRow true 2) (run [OpStart 2] demoPage))).
Proof.
  assert (Hinv : displayInv (run [OpStart 2] demoPage)).
  { apply displayInv_run, displayInv_pageLoad.
    vm_compute. repeat constructor; cbn; intuition discriminate. }
  destruct (delete_removes_row_timer_and_interval _ 2 Hinv) as (_ & Hr & _ & Hiv & _).
  split; [vm_compute; reflexivity |].
  split; [rewrite Hr; vm_compute; reflexivity | exact Hiv].
Defined.

(** ** Handlers called for a row that is no longer there *)

Lemma set_rows_same st : set_rows (rows st) st = st.
Proof. now destruct st. Qed.

(** X7: a timer button, the checkbox, a move button or an edit aimed at an
    id that has no row in the table does nothing at all, whatever the
    [timers] object still holds for that id. *)
Theorem handlers_ignore_a_missing_row st i :
  findRow i (rows st) = None ->
  startTimer i st = st
  /\ pauseTimer i st = st
  /\ resetTimer i st = st
  /\ timerFinished i st = st
  /\ exec (clickDone i) st = st
  /\ exec (moveRowUp i) st = st
  /\ exec (moveRowDown i) st = st
  /\ (forall m s, step (OpEdit i m s) st = st).
Proof.
  intros H.
  split; [apply startTimer_noop; now left |].
  split; [apply pauseTimer_noop; now right |].
  split; [unfold resetTimer; now rewrite H |].
  split; [apply timerFinished_noop; now right |].
  split; [unfold exec, clickDone; now rewrite H |].
  split; [unfold exec, moveRowUp; now rewrite H |].
  split; [unfold exec, moveRowDown; now rewrite H |].
  intros m s. cbn [step]. unfold modRow.
  rewrite updateRow_absent by exact H. apply set_rows_same.
Qed.

Lemma handlers_ignore_a_missing_row_witness :
  startTimer 9 (run [OpStart 2] demoPage) = run [OpStart 2] demoPage
  /\ exec (clickDone 9) (run [OpStart 2] demoPage) = run [OpStart 2] demoPage.
Proof.
  assert (H : findRow 9 (rows (run [OpStart 2] demoPage)) = None)
    by (vm_compute; reflexivity).
  destruct (handlers_ignore_a_missing_row _ 9 H) as (H1 & _ & _ & _ & H5 & _).
  split; assumption.
Defined.

(** ** Clearing the saved rounds *)

(** X8: clearing the saved rounds removes the one key of the script from
    the storage and nothing else: the page and the other keys stay; an
    unconfirmed clear changes nothing.  The next page load finds no
    snapshot, shows the built-in rounds and sets the id counter one above
    the highest id in the document. *)
Theorem clear_then_reload_shows_defaults defaults st writable :
  clearSavedRounds false st = st
  /\ localStorage (clearSavedRounds true st) !! STORAGE_KEY = None
  /\ (forall k, k <> STORAGE_KEY ->
        localStorage (clearSavedRounds true st) !! k = localStorage st !! k)
  /\ rows (clearSavedRounds true st) = rows st
  /\ timers (clearSavedRounds true st) = timers st
  /\ nextRowId (clearSavedRounds true st) = nextRowId st
  /\ rows (pageLoad defaults (localStorage (clearSavedRounds true st)) writable)
     = List.map rowOfRound defaults
  /\ nextRowId (pageLoad defaults (localStorage (clearSavedRounds true st)) writable)
     = maxRowId (List.map rowOfRound defaults) + 1.
Proof.
  assert (Hk : localStorage (clearSavedRounds true st) !! STORAGE_KEY = None).
  { cbn. apply lookup_delete_eq. }
  split; [reflexivity |]. split; [exact Hk |].
  split; [intros k Hne; cbn; now apply lookup_delete_ne |].
  split; [reflexivity |]. split; [reflexivity |]. split; [reflexivity |].
  rewrite pageLoad_noSnapshot by now rewrite Hk.
  rewrite updateProgress_rows.
  destruct (updateProgress_shape
              (set_nextRowId (maxRowId (List.map rowOfRound defaults) + 1)
                 (freshPage defaults (localStorage (clearSavedRounds true st)) writable)))
    as (p & c & ->).
  split; reflexivity.
Qed.

(** ** Resetting *)

Lemma rowReset_id r : rowId (rowReset r) = rowId r.
Proof. reflexivity. Qed.

Lemma resetTimer_rows i st : rows (resetTimer i st) = updateRow i rowReset (rows st).
Proof.
  destruct (findRow i (rows st)) as [row |] eqn:Hf.
  - rewrite (resetTimer_eq i row st Hf). now autorewrite with view.
  - unfold resetTimer. rewrite Hf. symmetry. now apply updateRow_absent.
Qed.

Lemma resetTimer_timers i st :
  timers (resetTimer i st) =
  match findRow i (rows st) with
  | Some _ => setTimer i (mkTimer None 0 false) (timers st)
  | None => timers st
  end.
Proof.
  destruct (findRow i (rows st)) as [row |] eqn:Hf.
  - rewrite (resetTimer_eq i row st Hf). now autorewrite with view.
  - unfold resetTimer. now rewrite Hf.
Qed.

Lemma updateRow_NoDup_map i f rs :
  List.NoDup (List.map rowId rs) ->
  updateRow i f rs = List.map (fun r => if rowId r =? i then f r else r) rs.
Proof.
  induction rs as [|a rs IH]; [reflexivity |].
  cbn [List.map updateRow]. intros Hnd.
  apply List.NoDup_cons_iff in Hnd as [Ha Hnd].
  destruct (Z.eqb_spec (rowId a) i) as [E | N].
  - f_equal. rewrite <- (List.map_id rs) at 1. apply List.map_ext_in.
    intros r Hr. destruct (Z.eqb_spec (rowId r) i) as [E' |]; [| reflexivity].
    exfalso. apply Ha. rewrite E, <- E'. now apply List.in_map.
  - f_equal. now apply IH.
Qed.

Lemma resetAll_rows rs : forall st,
  List.NoDup (List.map rowId (rows st)) ->
  rows (fold_left (fun s row => resetTimer (rowId row) s) rs st) =
  List.map (fun r => if existsb (Z.eqb (rowId r)) (List.map rowId rs)
                     then rowReset r else r) (rows st).
Proof.
  induction rs as [|a rs IH]; intros st Hnd.
  - cbn. now rewrite List.map_id.
  - cbn [fold_left]. rewrite IH.
    2: { rewrite resetTimer_rows, (updateRow_ids rowReset rowReset_id). exact Hnd. }
    rewrite resetTimer_rows, (updateRow_NoDup_map _ _ _ Hnd), List.map_map.
    apply List.map_ext. intros r. cbn [List.map existsb].
    destruct (Z.eqb_spec (rowId r) (rowId a)) as [E | N].
    + cbn [rowReset_id orb]. rewrite rowReset_id.
      now destruct (existsb (Z.eqb (rowId r)) (List.map rowId rs)).
    + reflexivity.
Qed.

Lemma existsb_own_id (rs : list Row) r :
  In r rs -> existsb (Z.eqb (rowId r)) (List.map rowId rs) = true.
Proof.
  intros H. apply List.existsb_exists. exists (rowId r).
  split; [now apply List.in_map | apply Z.eqb_refl].
Qed.

Lemma resetAll_timers rs : forall st k,
  getTimer k (timers (fold_left (fun s row => resetTimer (rowId row) s) rs st)) =
  if existsb (Z.eqb k) (List.map rowId rs)
     && match findRow k (rows st) with Some _ => true | None => false end
  then Some (mkTimer None 0 false)
  else getTimer k (timers st).
Proof.
  induction rs as [|a rs IH]; intros st k; [reflexivity |].
  cbn [fold_left List.map existsb]. rewrite IH, resetTimer_rows, resetTimer_timers.
  rewrite (findRow_updateRow rowReset rowReset_id).
  destruct (existsb (Z.eqb k) (List.map rowId rs)) eqn:Ex; cbn [andb orb].
  - destruct (Z.eqb_spec k (rowId a)) as [E | N]; cbn [orb andb].
    + subst k. destruct (findRow (rowId a) (rows st)); cbn [option_map]; [reflexivity |].
      reflexivity.
    + destruct (findRow k (rows st)); [reflexivity |].
      destruct (findRow (rowId a) (rows st)); [| reflexivity].
      rewrite getTimer_setTimer. now destruct (Z.eqb_spec k (rowId a)).
  - rewrite Bool.orb_false_r.
    destruct (Z.eqb_spec k (rowId a)) as [E | N]; cbn [andb].
    + subst k. destruct (findRow (rowId a) (rows st)); [| reflexivity].
      now rewrite getTimer_setTimer, Z.eqb_refl.
    + destruct (findRow (rowId a) (rows st)); [| reflexivity].
      rewrite getTimer_setTimer. now destruct (Z.eqb_spec k (rowId a)).
Qed.

(** X9: a full reset that is not confirmed changes nothing.  A confirmed
    one, on a page in the state a session leaves it in, resets the timer
    display of every row, unchecks every row, leaves every row with the
    zeroed timer, leaves no interval ticking, keeps the order, the ids,
    the timer fields and the id counter, and saves the rounds with every
    [isCompleted] false. *)
Theorem reset_all_clears_every_round st :
  displayInv st ->
  exec (resetAllRounds false) st = st
  /\ rows (exec (resetAllRounds true) st)
     = List.map (fun r => with_completed false (with_checked false (rowReset r))) (rows st)
  /\ (forall r, In r (rows st) ->
        getTimer (rowId r) (timers (exec (resetAllRounds true) st))
        = Some (mkTimer None 0 false))
  /\ intervals (exec (resetAllRounds true) st) = []
  /\ nextRowId (exec (resetAllRounds true) st) = nextRowId st
  /\ (storageWritable st = true ->
      localStorage (exec (resetAllRounds true) st) !! STORAGE_KEY
      = Some (JSON_stringify
                (List.map (fun r => mkSavedRound (rowId r) (orZero (timer_min r))
                                                 (orZero (timer_sec r)) false)
                          (rows st)))).
Proof.
  intros Hinv.
  pose proof Hinv as (Hnd & _).
  set (st1 := fold_left (fun s row => resetTimer (rowId row) s) (rows st) st).
  assert (Hfr : timerFrame st st1) by apply timerFrame_resetAll, timerFrame_refl.
  assert (Hr1 : rows st1 = List.map rowReset (rows st)).
  { unfold st1. rewrite (resetAll_rows _ _ Hnd). apply List.map_ext_in.
    intros r Hr. now rewrite existsb_own_id. }
  assert (Hr : rows (exec (resetAllRounds true) st)
               = List.map (fun r => with_completed false (with_checked false (rowReset r)))
                          (rows st)).
  { rewrite resetAllRounds_exec. cbv zeta. fold st1. autorewrite with view.
    cbn [rows set_rows]. now rewrite Hr1, List.map_map. }
  assert (Ht : forall r, In r (rows st) ->
                 getTimer (rowId r) (timers (exec (resetAllRounds true) st))
                 = Some (mkTimer None 0 false)).
  { intros r Hin. rewrite resetAllRounds_exec. cbv zeta. fold st1.
    autorewrite with view. cbn [timers set_rows].
    unfold st1. rewrite resetAll_timers, existsb_own_id by exact Hin.
    destruct (findRow (rowId r) (rows st)) eqn:Hf; [reflexivity |].
    apply findRow_None in Hf. exfalso. apply Hf. now apply List.in_map. }
  split; [reflexivity |]. split; [exact Hr |]. split; [exact Ht |].
  split; [| split].
  - pose proof (displayInv_step (OpResetAll true) st Hinv) as (_ & _ & Hrows & Hiv & _).
    cbn [step] in Hrows, Hiv.
    destruct (intervals (exec (resetAllRounds true) st)) as [|[h j] iv] eqn:Eiv;
      [reflexivity |].
    exfalso. destruct (Hiv h j) as [r Hg]; [rewrite Eiv; now left |].
    pose proof (Hrows j _ Hg) as Hj.
    destruct (findRow j (rows (exec (resetAllRounds true) st))) as [rj |] eqn:Hfj;
      [| now apply Hj].
    apply findRow_Some in Hfj as [Hj' Hid]. apply (List.in_map rowId) in Hj'.
    rewrite Hid in Hj'. clear Hj. rename Hj' into Hj.
    rewrite Hr, List.map_map in Hj. cbn in Hj.
    apply List.in_map_iff in Hj as (r0 & <- & Hin).
    rewrite (Ht r0 Hin) in Hg. discriminate.
  - rewrite resetAllRounds_exec. cbv zeta. fold st1. autorewrite with view.
    cbn [nextRowId set_rows]. apply Hfr.
  - intros Hw. rewrite resetAllRounds_exec. cbv zeta. fold st1.
    rewrite saveRoundsToStorage_writable.
    2: { autorewrite with view. cbn [storageWritable set_rows].
         rewrite <- Hw. apply Hfr. }
    cbn [localStorage set_localStorage]. rewrite lookup_insert_eq.
    autorewrite with view. cbn [rows set_rows].
    rewrite Hr1, !List.map_map. reflexivity.
Qed.

Lemma reset_all_clears_every_round_witness :
  intervals (run [OpStart 2; OpClickDone 1] demoPage) = [(1%positive, 2)]
  /\ List.map checked (rows (run [OpStart 2; OpClickDone 1] demoPage))
     = [true; false; false; false; false]
  /\ intervals (exec (resetAllRounds true) (run [OpStart 2; OpClickDone 1] demoPage)) = []
  /\ List.map checked
       (rows (exec (resetAllRounds true) (run [OpStart 2; OpClickDone 1] demoPage)))
     = [false; false; false; false; false].
Proof.
  assert (Hinv : displayInv (run [OpStart 2; OpClickDone 1] demoPage)).
  { apply displayInv_run, displayInv_pageLoad.
    vm_compute. repeat constructor; cbn; intuition discriminate. }
  destruct (reset_all_clears_every_round _ Hinv) as (_ & Hr & _ & Hiv & _).
  split; [vm_compute; reflexivity |].
  split; [vm_compute; reflexivity |].
  split; [exact Hiv |].
  rewrite Hr. vm_compute. reflexivity.
Defined.

(** ** Starting a timer *)

(** X10: pressing start on a row whose timer is idle and whose fields give
    no time (zero, empty or negative) starts nothing: the display reads
    "Set time!", the timer object holds the value read from the fields
    and is not running, and no interval is registered. *)
Theorem start_without_time_shows_set_time st i row :
  findRow i (rows st) = Some row ->
  timerIdle i st ->
  getTimerSeconds row <= 0 ->
  findRow i (rows (startTimer i st))
  = Some (with_display (set_text SetTime) row)
  /\ getTimer i (timers (startTimer i st))
     = Some (mkTimer None (getTimerSeconds row) false)
  /\ intervals (startTimer i st) = intervals st
  /\ nextIntervalId (startTimer i st) = nextIntervalId st
  /\ globalDisplay (startTimer i st) = globalDisplay st.
Proof.
  intros Hf Hidle Hz.
  assert (Hrun : match getTimer i (timers st) with
                 | Some t => isRunning t
                 | None => false
                 end = false).
  { unfold timerIdle in Hidle. destruct (getTimer i (timers st)); [tauto | reflexivity]. }
  assert (Ht0 : timerAtStart row (getTimer i (timers st))
                = mkTimer None (getTimerSeconds row) false).
  { unfold timerIdle in Hidle. unfold timerAtStart.
    destruct (getTimer i (timers st)) as [t |]; [| reflexivity].
    destruct Hidle as [-> _]. reflexivity. }
  pose proof (startTimer_eq i row st Hf Hrun) as E. cbv zeta in E.
  rewrite Ht0 in E. cbn [remainingSeconds] in E.
  destruct (Z.leb_spec (getTimerSeconds row) 0) as [_ | Hgt]; [| lia].
  rewrite E. unfold engineState.
  cbn [rows timers intervals nextIntervalId globalDisplay set_rows set_timers set_intervals].
  split.
  - rewrite (findRow_updateRow (with_display (set_text SetTime)) (fun r => eq_refl)),
      Z.eqb_refl, Hf. reflexivity.
  - split; [now rewrite getTimer_setTimer, Z.eqb_refl |].
    split; [reflexivity |]. split; reflexivity.
Qed.

Lemma start_without_time_shows_set_time_witness :
  option_map (fun r => text (display r))
    (findRow 2 (rows (startTimer 2 (step (OpEdit 2 (Some 0) None) demoPage))))
  = Some SetTime
  /\ intervals (startTimer 2 (step (OpEdit 2 (Some 0) None) demoPage)) = [].
Proof.
  pose (st := step (OpEdit 2 (Some 0) None) demoPage).
  pose (r0 := mkRow 0 None None false false false false freshDisplay).
  assert (Hf : findRow 2 (rows st) = Some (nth 1 (rows st) r0))
    by (vm_compute; reflexivity).
  assert (Hidle : timerIdle 2 st) by (vm_compute; exact I).
  assert (Hz : getTimerSeconds (nth 1 (rows st) r0) <= 0)
    by (vm_compute; discriminate).
  destruct (start_without_time_shows_set_time st 2 _ Hf Hidle Hz)
    as (Hrow & _ & Hiv & _).
  fold st. split.
  - rewrite Hrow. reflexivity.
  - rewrite Hiv. vm_compute. reflexivity.
Defined.

(** X11: a timer object left with a negative remaining time (by a start
    on a negative field) is never read from the fields again: whatever is
    typed into the fields afterwards, start leaves the timer as it is,
    registers no interval and shows "Set time!"; only a reset brings the
    row back, after which start counts down from the fields' value. *)
Theorem negative_time_is_kept_until_reset st i row t m s :
  findRow i (rows st) = Some row ->
  getTimer i (timers st) = Some t ->
  remainingSeconds t < 0 ->
  isRunning t = false ->
  0 < orZero m * 60 + orZero s ->
  let st1 := step (OpEdit i m s) st in
  getTimer i (timers (startTimer i st1)) = Some t
  /\ intervals (startTimer i st1) = intervals st
  /\ (exists row', findRow i (rows (startTimer i st1)) = Some row'
                   /\ text (display row') = SetTime)
  /\ countingDown i (nextIntervalId st) (orZero m * 60 + orZero s)
       (startTimer i (resetTimer i st1)).
Proof.
  intros Hf Ht Hneg Hrun Hpos st1.
  assert (Hf1 : findRow i (rows st1) = Some (with_inputs m s row)).
  { subst st1. cbn [step]. unfold modRow. cbn [rows set_rows].
    rewrite (findRow_updateRow (with_inputs m s) (fun r => eq_refl)), Z.eqb_refl, Hf.
    reflexivity. }
  assert (Ht1 : getTimer i (timers st1) = Some t) by exact Ht.
  assert (Hrun1 : match getTimer i (timers st1) with
                  | Some t => isRunning t
                  | None => false
                  end = false) by now rewrite Ht1.
  pose proof (startTimer_eq i _ st1 Hf1 Hrun1) as E. cbv zeta in E.
  rewrite Ht1 in E. unfold timerAtStart in E.
  destruct (Z.eqb_spec (remainingSeconds t) 0) as [E0 | _]; [lia |].
  destruct (Z.leb_spec (remainingSeconds t) 0) as [_ | Hgt]; [| lia].
  split; [| split; [| split]].
  - rewrite E. unfold engineState. cbn [timers set_rows set_timers].
    now rewrite getTimer_setTimer, Z.eqb_refl.
  - rewrite E. reflexivity.
  - rewrite E. unfold engineState. cbn [rows set_rows].
    rewrite (findRow_updateRow (with_display (set_text SetTime)) (fun r => eq_refl)),
      Z.eqb_refl, Hf1.
    eexists. split; reflexivity.
  - assert (Hn : nextIntervalId st = nextIntervalId (resetTimer i st1)).
    { rewrite (resetTimer_eq i _ st1 Hf1).
      destruct (updateGlobalTimerDisplay_shape
                  (engineState (updateRow i rowReset (rows st1))
                     (setTimer i (mkTimer None 0 false) (timers st1))
                     (clearedIntervals
                        match getTimer i (timers st1) with
                        | Some t => intervalId t
                        | None => None
                        end (intervals st1)) (nextIntervalId st1) st1)) as [g ->].
      reflexivity. }
    rewrite Hn.
    apply startTimer_counts with (row := rowReset (with_inputs m s row)).
    + rewrite resetTimer_rows, (findRow_updateRow rowReset rowReset_id), Z.eqb_refl, Hf1.
      reflexivity.
    + reflexivity.
    + exact Hpos.
    + unfold timerIdle. rewrite resetTimer_timers, Hf1, getTimer_setTimer, Z.eqb_refl.
      split; reflexivity.
Qed.

Lemma negative_time_is_kept_until_reset_witness :
  let st := run [OpEdit 2 (Some (-1)) (Some 0); OpStart 2] demoPage in
  getTimer 2 (timers st) = Some (mkTimer None (-60) false)
  /\ getTimer 2 (timers (startTimer 2 (step (OpEdit 2 (Some 1) (Some 0)) st)))
     = Some (mkTimer None (-60) false)
  /\ intervals (startTimer 2 (step (OpEdit 2 (Some 1) (Some 0)) st)) = [].
Proof.
  intros st.
  pose (r0 := mkRow 0 None None false false false false freshDisplay).
  assert (Hf : findRow 2 (rows st) = Some (nth 1 (rows st) r0))
    by (vm_compute; reflexivity).
  assert (Ht : getTimer 2 (timers st) = Some (mkTimer None (-60) false))
    by (vm_compute; reflexivity).
  assert (Hneg : remainingSeconds (mkTimer None (-60) false) < 0) by (cbn; lia).
  assert (Hpos : 0 < orZero (Some 1) * 60 + orZero (Some 0)) by (cbn; lia).
  destruct (negative_time_is_kept_until_reset st 2 _ _ (Some 1) (Some 0)
              Hf Ht Hneg eq_refl Hpos) as (H1 & H2 & _).
  split; [exact Ht |]. split; [exact H1 |].
  rewrite H2. vm_compute. reflexivity.
Defined.

(** ** Intervals *)

Lemma running_timers_have_time_left defaults stored writable ops k t :
  getTimer k (timers (run ops (pageLoad defaults stored writable))) = Some t ->
  isRunning t = true -> 0 < remainingSeconds t.
Proof.
  intros Ht.
  assert (Hany : sessionInv (fun t => isRunning t = true -> 0 < remainingSeconds t)
                   (fun _ => True)
                   (run ops (pageLoad defaults stored writable))).
  { apply sessionInv_run.
    - trivial.
    - discriminate.
    - intros t0 _. discriminate.
    - intros t0 _ Hpos _. exact Hpos.
    - intros h r Hr _. exact Hr.
    - intros row _ _. discriminate.
    - apply opKeeps_any.
    - apply sessionInv_pageLoad. apply List.Forall_forall. trivial. }
  destruct Hany as (_ & _ & Hall). exact (Hall k t Ht).
Qed.

(** X12: in a session on a page whose row ids are distinct, every interval
    the browser holds belongs to a row that is in the table and whose
    timer is running, has time left and records this very handle; so no
    row has two intervals, and no interval outlives a pause, a reset, an
    expiry or the deletion of its row. *)
Theorem intervals_belong_to_running_rows defaults stored writable ops h j :
  List.NoDup (List.map rowId (rows (pageLoad defaults stored writable))) ->
  In (h, j) (intervals (run ops (pageLoad defaults stored writable))) ->
  (exists row, findRow j (rows (run ops (pageLoad defaults stored writable))) = Some row)
  /\ (exists r, getTimer j (timers (run ops (pageLoad defaults stored writable)))
                = Some (mkTimer (Some h) r true)
                /\ 0 < r)
  /\ (forall h', In (h', j) (intervals (run ops (pageLoad defaults stored writable))) ->
                 h' = h).
Proof.
  intros Hnd Hin.
  pose proof (displayInv_run ops _ (displayInv_pageLoad defaults stored writable Hnd))
    as (_ & _ & Hrows & Hiv & _).
  destruct (Hiv h j Hin) as [r Hr].
  split; [| split].
  - pose proof (Hrows j _ Hr) as Hj.
    destruct (findRow j (rows (run ops (pageLoad defaults stored writable)))) as [row |];
      [now exists row | now contradiction Hj].
  - exists r. split; [exact Hr |].
    exact (running_timers_have_time_left defaults stored writable ops j _ Hr eq_refl).
  - intros h' Hin'. destruct (Hiv h' j Hin') as [r' Hr']. congruence.
Qed.

Lemma intervals_belong_to_running_rows_witness :
  intervals (run [OpStart 2; OpStart 4; OpFire 1; OpPause 4; OpStart 2] demoPage)
  = [(1%positive, 2)]
  /\ exists r,
       getTimer 2 (timers (run [OpStart 2; OpStart 4; OpFire 1; OpPause 4; OpStart 2]
                             demoPage))
       = Some (mkTimer (Some 1%positive) r true) /\ 0 < r.
Proof.
  assert (Hnd : List.NoDup (List.map rowId (rows (pageLoad demoDefaults ∅ true)))).
  { vm_compute. repeat constructor; cbn; intuition discriminate. }
  assert (Hiv : intervals (run [OpStart 2; OpStart 4; OpFire 1; OpPause 4; OpStart 2]
                             demoPage) = [(1%positive, 2)])
    by (vm_compute; reflexivity).
  split; [exact Hiv |].
  refine (proj1 (proj2 (intervals_belong_to_running_rows demoDefaults ∅ true
                          [OpStart 2; OpStart 4; OpFire 1; OpPause 4; OpStart 2]
                          1%positive 2 Hnd _))).
  fold demoPage. rewrite Hiv. now left.
Defined.

(** ** Checking a round off *)

Lemma nextUnchecked_found i r back :
  rowId r <> i -> checked r = false -> forall mid,
  Forall (fun x => checked x = true) mid ->
  nextUnchecked i true (mid ++ r :: back) = Some r.
Proof.
  intros Hr Hc. induction mid as [|a mid IH]; intros Hmid; cbn.
  - destruct (Z.eqb_spec (rowId r) i); [contradiction |]. now rewrite Hc.
  - apply List.Forall_cons_iff in Hmid as [Ha Hmid].
    rewrite Ha. cbn. destruct (rowId a =? i); now apply IH.
Qed.

Lemma nextUnchecked_none i b rs :
  Forall (fun x => checked x = true) rs -> nextUnchecked i b rs = None.
Proof.
  revert b. induction rs as [|a rs IH]; intros b Hrs; [reflexivity |].
  apply List.Forall_cons_iff in Hrs as [Ha Hrs]. cbn.
  rewrite Ha, Bool.andb_false_r. destruct (rowId a =? i); now apply IH.
Qed.

Lemma nextUnchecked_skips_front i front tl :
  ~ In i (List.map rowId front) ->
  nextUnchecked i false (front ++ tl) = nextUnchecked i false tl.
Proof.
  induction front as [|a front IH]; intros Hf; [reflexivity |].
  cbn. destruct (Z.eqb_spec (rowId a) i) as [E | N]; [exfalso; apply Hf; now left |].
  apply IH. intros H. apply Hf. now right.
Qed.

(** X13: [scrollToNextUnchecked] scrolls to the first unchecked row below
    the current one and to no other; when every row below is checked it
    does nothing, even if rows above are still unchecked: the search does
    not wrap around. *)
Theorem scroll_goes_to_the_next_unchecked_row_below st i front cur mid :
  rowId cur = i ->
  ~ In i (List.map rowId front) ->
  Forall (fun x => checked x = true) mid ->
  (forall r back,
      rows st = front ++ cur :: mid ++ r :: back ->
      rowId r <> i -> checked r = false ->
      scrollToNextUnchecked i st = set_scrolled (scrolled st ++ [rowId r]) st)
  /\ (rows st = front ++ cur :: mid -> scrollToNextUnchecked i st = st).
Proof.
  intros Hcur Hfront Hmid. split.
  - intros r back Hrows Hr Hc. unfold scrollToNextUnchecked.
    rewrite Hrows, nextUnchecked_skips_front by exact Hfront.
    cbn [nextUnchecked]. rewrite Hcur, Z.eqb_refl.
    now rewrite (nextUnchecked_found i r back Hr Hc mid Hmid).
  - intros Hrows. unfold scrollToNextUnchecked.
    rewrite Hrows, nextUnchecked_skips_front by exact Hfront.
    cbn [nextUnchecked]. rewrite Hcur, Z.eqb_refl.
    now rewrite nextUnchecked_none.
Qed.

Lemma scroll_goes_to_the_next_unchecked_row_below_witness :
  scrolled (scrollToNextUnchecked 2 (run [OpClickDone 3] demoPage)) = [4; 4]
  /\ scrollToNextUnchecked 5 (run [OpClickDone 3] demoPage) = run [OpClickDone 3] demoPage.
Proof.
  pose (st := run [OpClickDone 3] demoPage).
  pose (r0 := mkRow 0 None None false false false false freshDisplay).
  assert (Hmid : Forall (fun x => checked x = true) [nth 2 (rows st) r0]).
  { constructor; [vm_compute; reflexivity | constructor]. }
  assert (Hfront : ~ In 2 (List.map rowId (firstn 1 (rows st)))).
  { vm_compute. intuition discriminate. }
  destruct (scroll_goes_to_the_next_unchecked_row_below st 2 (firstn 1 (rows st))
              (nth 1 (rows st) r0) [nth 2 (rows st) r0] eq_refl Hfront Hmid)
    as [Hscroll _].
  assert (Hfront5 : ~ In 5 (List.map rowId (firstn 4 (rows st)))).
  { vm_compute. intuition discriminate. }
  destruct (scroll_goes_to_the_next_unchecked_row_below st 5 (firstn 4 (rows st))
              (nth 4 (rows st) r0) [] eq_refl Hfront5 (List.Forall_nil _))
    as [_ Hstay].
  fold st. split.
  - rewrite (Hscroll (nth 3 (rows st) r0) (skipn 4 (rows st))).
    + vm_compute. reflexivity.
    + vm_compute. reflexivity.
    + vm_compute. discriminate.
    + vm_compute. reflexivity.
  - apply Hstay. vm_compute. reflexivity.
Defined.

Lemma nextUnchecked_updateRow i f b rs :
  (forall r, rowId (f r) = rowId r) ->
  nextUnchecked i b (updateRow i f rs) = nextUnchecked i b rs.
Proof.
  intros Hid. revert b. induction rs as [|a rs IH]; intros b; [reflexivity |].
  cbn [updateRow]. destruct (Z.eqb_spec (rowId a) i) as [E | N].
  - cbn [nextUnchecked]. now rewrite Hid, E, Z.eqb_refl.
  - cbn [nextUnchecked]. destruct (Z.eqb_spec (rowId a) i); [contradiction |].
    destruct (b && negb (checked a)); [reflexivity | apply IH].
Qed.

(** X14: checking off a round whose timer is counting down pauses that
    timer: it keeps its remaining seconds, is no longer running, and the
    browser no longer holds its interval; the row is marked checked and
    completed, and the view scrolls to the row the search would pick
    before the click. *)
Theorem checking_a_round_pauses_its_timer st i h r row :
  findRow i (rows st) = Some row ->
  checked row = false ->
  countingDown i h r st ->
  getTimer i (timers (exec (clickDone i) st)) = Some (mkTimer None r false)
  /\ (forall j, ~ In (h, j) (intervals (exec (clickDone i) st)))
  /\ (exists row', findRow i (rows (exec (clickDone i) st)) = Some row'
                   /\ checked row' = true /\ completed row' = true
                   /\ active row' = false /\ running (display row') = false)
  /\ scrolled (exec (clickDone i) st)
     = scrolled st ++ match nextUnchecked i false (rows st) with
                      | Some next => [rowId next]
                      | None => []
                      end.
Proof.
  intros Hf Hc (Ht & Hh & _).
  rewrite (clickDone_exec i st row Hf), Hc.
  set (st1 := modRow i (fun r => with_completed true (with_checked true r)) st).
  assert (Hf1 : findRow i (rows st1)
                = Some (with_completed true (with_checked true row))).
  { subst st1. unfold modRow. cbn [rows set_rows].
    now rewrite (findRow_updateRow (fun r => with_completed true (with_checked true r))
                   (fun r => eq_refl)), Z.eqb_refl, Hf. }
  assert (Ht1 : getTimer i (timers st1) = Some (mkTimer (Some h) r true)) by exact Ht.
  pose proof (pauseTimer_eq i _ _ st1 Ht1 Hf1) as E.
  cbn [remainingSeconds intervalId clearedIntervals] in E.
  autorewrite with view. rewrite E. autorewrite with view.
  unfold engineState. cbn [rows timers intervals set_rows set_timers set_intervals].
  split; [| split; [| split]].
  - now rewrite getTimer_setTimer, Z.eqb_refl.
  - intros j Hin. apply List.filter_In in Hin as [_ Hin]. cbn in Hin.
    now rewrite Pos.eqb_refl in Hin.
  - rewrite (findRow_updateRow rowPaused (fun r => eq_refl)), Z.eqb_refl, Hf1.
    eexists. split; [reflexivity |]. repeat split.
  - unfold scrollToNextUnchecked. autorewrite with view. cbn [rows set_rows].
    rewrite (nextUnchecked_updateRow i rowPaused false _ (fun r => eq_refl)).
    subst st1. unfold modRow. cbn [rows set_rows].
    rewrite (nextUnchecked_updateRow i
               (fun r => with_completed true (with_checked true r)) false _
               (fun r => eq_refl)).
    destruct (nextUnchecked i false (rows st)) as [next |].
    + unfold scrollIntoView. autorewrite with view.
      cbn [scrolled set_scrolled]. autorewrite with view. reflexivity.
    + autorewrite with view. rewrite List.app_nil_r. reflexivity.
Qed.

Lemma checking_a_round_pauses_its_timer_witness :
  getTimer 2 (timers (run [OpStart 2; OpFire 1] demoPage))
  = Some (mkTimer (Some 1%positive) 14 true)
  /\ getTimer 2 (timers (exec (clickDone 2) (run [OpStart 2; OpFire 1] demoPage)))
     = Some (mkTimer None 14 false)
  /\ scrolled (exec (clickDone 2) (run [OpStart 2; OpFire 1] demoPage)) = [3].
Proof.
  pose (st := run [OpStart 2; OpFire 1] demoPage).
  pose (r0 := mkRow 0 None None false false false false freshDisplay).
  assert (Hf : findRow 2 (rows st) = Some (nth 1 (rows st) r0))
    by (vm_compute; reflexivity).
  assert (Hc : checked (nth 1 (rows st) r0) = false) by (vm_compute; reflexivity).
  assert (Ht : getTimer 2 (timers st) = Some (mkTimer (Some 1%positive) 14 true))
    by (vm_compute; reflexivity).
  assert (Hcd : countingDown 2 1%positive 14 st).
  { split; [exact Ht |]. split; [vm_compute; reflexivity |]. eexists. exact Hf. }
  destruct (checking_a_round_pauses_its_timer st 2 1%positive 14 _ Hf Hc Hcd)
    as (H1 & _ & _ & H4).
  fold st. split; [exact Ht |]. split; [exact H1 |].
  rewrite H4. vm_compute. reflexivity.
Defined.

(** ** Reloading and saving again *)




(** ** One round's timer and the other rounds *)

Lemma findRow_updateRow_other i j f rs :
  j <> i -> (forall r, rowId (f r) = rowId r) ->
  findRow j (updateRow i f rs) = findRow j rs.
Proof.
  intros Hj Hid. rewrite (findRow_updateRow f Hid).
  now destruct (Z.eqb_spec j i).
Qed.

Lemma getTimer_setTimer_other i j t ts :
  j <> i -> getTimer j (setTimer i t ts) = getTimer j ts.
Proof. intros Hj. rewrite getTimer_setTimer. now destruct (Z.eqb_spec j i). Qed.

Ltac other_round Hj :=
  autorewrite with view; unfold engineState;
  cbn [rows timers set_rows set_timers set_intervals];
  split;
  [ now apply getTimer_setTimer_other
  | apply findRow_updateRow_other; [exact Hj | intros; reflexivity] ].

Lemma pauseTimer_other i j st :
  j <> i ->
  getTimer j (timers (pauseTimer i st)) = getTimer j (timers st)
  /\ findRow j (rows (pauseTimer i st)) = findRow j (rows st).
Proof.
  intros Hj.
  destruct (getTimer i (timers st)) as [t |] eqn:Ht.
  - destruct (findRow i (rows st)) as [row |] eqn:Hf.
    + rewrite (pauseTimer_eq i t row st Ht Hf). other_round Hj.
    + rewrite pauseTimer_noop by now right. now split.
  - rewrite pauseTimer_noop by now left. now split.
Qed.

Lemma resetTimer_other i j st :
  j <> i ->
  getTimer j (timers (resetTimer i st)) = getTimer j (timers st)
  /\ findRow j (rows (resetTimer i st)) = findRow j (rows st).
Proof.
  intros Hj. rewrite resetTimer_rows, resetTimer_timers. split.
  - destruct (findRow i (rows st)); [now apply getTimer_setTimer_other | reflexivity].
  - apply findRow_updateRow_other; [exact Hj | intros; reflexivity].
Qed.

Lemma timerFinished_other i j st :
  j <> i ->
  getTimer j (timers (timerFinished i st)) = getTimer j (timers st)
  /\ findRow j (rows (timerFinished i st)) = findRow j (rows st).
Proof.
  intros Hj.
  destruct (getTimer i (timers st)) as [t |] eqn:Ht.
  - destruct (findRow i (rows st)) as [row |] eqn:Hf.
    + rewrite (timerFinished_eq i t row st Ht Hf). other_round Hj.
    + rewrite timerFinished_noop by now right. now split.
  - rewrite timerFinished_noop by now left. now split.
Qed.

Lemma tick_other i j st :
  j <> i ->
  getTimer j (timers (tick i st)) = getTimer j (timers st)
  /\ findRow j (rows (tick i st)) = findRow j (rows st).
Proof.
  intros Hj.
  destruct (getTimer i (timers st)) as [t |] eqn:Ht.
  - destruct (Z.ltb_spec 0 (remainingSeconds t - 1)) as [Hpos | Hle].
    + rewrite (tick_running i t st Ht Hpos). other_round Hj.
    + destruct (findRow i (rows st)) as [row |] eqn:Hf.
      * rewrite (tick_expires i t row st Ht Hf Hle). other_round Hj.
      * rewrite (tick_without_row i t st Ht Hf). autorewrite with view.
        cbn [rows timers set_timers]. split; [now apply getTimer_setTimer_other |].
        reflexivity.
  - rewrite tick_noop by exact Ht. now split.
Qed.

Lemma startTimer_other i j st :
  j <> i ->
  getTimer j (timers (startTimer i st)) = getTimer j (timers st)
  /\ findRow j (rows (startTimer i st)) = findRow j (rows st).
Proof.
  intros Hj.
  destruct (findRow i (rows st)) as [row |] eqn:Hf.
  - destruct (match getTimer i (timers st) with
              | Some t => isRunning t
              | None => false
              end) eqn:Hrun.
    + rewrite startTimer_noop; [now split |]. right.
      destruct (getTimer i (timers st)) as [t |]; [| discriminate]. now exists t.
    + pose proof (startTimer_eq i row st Hf Hrun) as E. cbv zeta in E. rewrite E.
      destruct (remainingSeconds (timerAtStart row (getTimer i (timers st))) <=? 0).
      * other_round Hj.
      * cbn [rows timers set_timers set_intervals]. other_round Hj.
  - rewrite startTimer_noop by now left. now split.
Qed.

(** X16: pressing start, pause or reset on round [i], the expiry of its
    timer, and a tick of its interval leave the timer object and the row
    of every other round exactly as they were. *)
Theorem timer_of_one_round_leaves_the_others st i j :
  j <> i ->
  forall f, In f [startTimer i; pauseTimer i; resetTimer i; timerFinished i; tick i] ->
  getTimer j (timers (f st)) = getTimer j (timers st)
  /\ findRow j (rows (f st)) = findRow j (rows st).
Proof.
  intros Hj f [<- | [<- | [<- | [<- | [<- | []]]]]].
  - now apply startTimer_other.
  - now apply pauseTimer_other.
  - now apply resetTimer_other.
  - now apply timerFinished_other.
  - now apply tick_other.
Qed.

Lemma timer_of_one_round_leaves_the_others_witness :
  getTimer 4 (timers (tick 2 (run [OpStart 2; OpStart 4] demoPage)))
  = Some (mkTimer (Some 2%positive) 120 true)
  /\ findRow 4 (rows (tick 2 (run [OpStart 2; OpStart 4] demoPage)))
     = findRow 4 (rows (run [OpStart 2; OpStart 4] demoPage)).
Proof.
  assert (Hj : 4 <> 2) by discriminate.
  destruct (timer_of_one_round_leaves_the_others (run [OpStart 2; OpStart 4] demoPage)
              2 4 Hj (tick 2)) as [Ht Hr].
  { right. right. right. right. now left. }
  split; [| exact Hr].
  rewrite Ht. vm_compute. reflexivity.
Defined.
